(** * Large DICOM file generator: size planning, raster synthesis, container
      identity and the command line of [tools/generate_large_dicom.py].

    The script is embedded function by function.  Python values are modelled
    as follows.
    - [int] is [Z] (unbounded); [//] is [Z.div] (both round to minus
      infinity), a zero divisor raises.
    - [str] is [list ascii]; the model covers ASCII text, code points of 128
      and above are carried along unchanged and are neither letters, digits
      nor white space.
    - [float] and [np.float64] are IEEE-754 binary64 values, see [Float].
    - an exception is a [Raise] result.
    The builtins and [argparse] are those of Python 3.11. *)

From Stdlib Require Import String Ascii NArith ZArith Lia Bool List.
From Stdlib Require Import Floats.SpecFloat.
Import ListNotations.
Local Open Scope Z_scope.

(** ** Exceptions and results *)

Inductive exn : Type :=
| ValueError
| OverflowError
| TypeError
| AttributeError
| ZeroDivisionError
| OSError
| SystemExit (code : Z).

Inductive result (A : Type) : Type :=
| Ok (a : A)
| Raise (e : exn).

Arguments Ok {A} a.
Arguments Raise {A} e.

Definition bind {A B : Type} (r : result A) (k : A -> result B) : result B :=
  match r with
  | Ok a => k a
  | Raise e => Raise e
  end.

Notation "x <- r ;; k" := (bind r (fun x => k))
  (at level 61, r at next level, right associativity).

(** ** Python strings *)

Definition pystr : Type := list ascii.

Definition str (s : string) : pystr := list_ascii_of_string s.

(** What an option of the command line holds when the arguments have been
    parsed: the string given for it, or the empty list (see
    [Cli.get_values]). *)
Inductive pyval : Type :=
| PStr (s : pystr)
| PEmptyList.

Module PyStr.

Definition code (c : ascii) : Z := Z.of_N (N_of_ascii c).

(** [str.isspace] on ASCII: TAB, LF, VT, FF, CR, the four separators
    0x1c..0x1f and SPACE. *)
Definition is_space (c : ascii) : bool :=
  let n := code c in
  ((9 <=? n) && (n <=? 13)) || ((28 <=? n) && (n <=? 32)).

(** White space as C's [isspace] has it, which is what [int()] and
    [float()] skip around an ASCII literal: TAB, LF, VT, FF, CR and SPACE,
    without the four separators. *)
Definition is_c_space (c : ascii) : bool :=
  let n := code c in
  ((9 <=? n) && (n <=? 13)) || (n =? 32).

Definition is_lower (c : ascii) : bool :=
  let n := code c in (97 <=? n) && (n <=? 122).

Definition to_upper (c : ascii) : ascii :=
  if is_lower c then ascii_of_N (N_of_ascii c - 32) else c.

(** [s.upper()] *)
Definition upper (s : pystr) : pystr := map to_upper s.

Fixpoint lstrip (s : pystr) : pystr :=
  match s with
  | c :: s' => if is_space c then lstrip s' else s
  | [] => []
  end.

Definition rstrip (s : pystr) : pystr := rev (lstrip (rev s)).

(** [s.strip()] *)
Definition strip (s : pystr) : pystr := rstrip (lstrip s).

Fixpoint eqb (s t : pystr) : bool :=
  match s, t with
  | [], [] => true
  | c :: s', d :: t' => Ascii.eqb c d && eqb s' t'
  | _, _ => false
  end.

(** [s.endswith(suffix)] *)
Definition endswith (s suffix : pystr) : bool :=
  (length suffix <=? length s)%nat
  && eqb (skipn (length s - length suffix) s) suffix.

(** [s[:-n]] for a positive literal [n] *)
Definition drop_last (n : nat) (s : pystr) : pystr :=
  firstn (length s - n) s.

Definition is_digit (c : ascii) : bool :=
  let n := code c in (48 <=? n) && (n <=? 57).

Definition digit_value (c : ascii) : Z := code c - 48.

(** value of a string of decimal digits, most significant first *)
Definition digits_value (ds : pystr) : Z :=
  fold_left (fun acc c => 10 * acc + digit_value c) ds 0.

(** longest prefix of digits, and what follows it *)
Fixpoint span_digits (s : pystr) : pystr * pystr :=
  match s with
  | c :: s' =>
      if is_digit c
      then let (ds, rest) := span_digits s' in (c :: ds, rest)
      else ([], s)
  | [] => ([], [])
  end.

(** optional sign; [true] is minus *)
Definition take_sign (s : pystr) : bool * pystr :=
  match s with
  | "-"%char :: s' => (true, s')
  | "+"%char :: s' => (false, s')
  | _ => (false, s)
  end.

(** Digit grouping (PEP 515): every underscore stands between two digits.
    [prev] is the character before [s]. *)
Fixpoint underscores_ok (prev : option ascii) (s : pystr) : bool :=
  match s with
  | [] => true
  | "_"%char :: s' =>
      match prev, s' with
      | Some p, n :: _ =>
          is_digit p && is_digit n && underscores_ok (Some "_"%char) s'
      | _, _ => false
      end
  | c :: s' => underscores_ok (Some c) s'
  end.

Definition remove_underscores (s : pystr) : pystr :=
  filter (fun c => negb (Ascii.eqb c "_"%char)) s.

End PyStr.

(** [a == b] on the values of options *)
Definition pyval_eqb (a b : pyval) : bool :=
  match a, b with
  | PStr s, PStr t => PyStr.eqb s t
  | PEmptyList, PEmptyList => true
  | _, _ => false
  end.

(** ** IEEE-754 binary64

    Every finite double is an integer multiple of 2^-1074, the smallest
    subnormal.  [Fin n] is the double of value n * 2^-1074; the two zeros are
    both [Fin 0] (the program never observes the sign of a zero: [int]
    maps both to 0 and [sqrt] keeps them).  A double has 53 significant
    bits, so an [n] of bit length L > 53 is representable only when it is a
    multiple of 2^(L-53): that is [spacing]. *)

Module Float.

Inductive float : Type :=
| Fin (n : Z)
| Inf (neg : bool)
| NaN.

(** one, in units of 2^-1074 *)
Definition unit : Z := 2 ^ 1074.

(** distance between neighbouring doubles at [fl] units *)
Definition spacing (fl : Z) : Z := 2 ^ Z.max (Z.log2 fl - 52) 0.

(** Round to nearest, ties to even.  The non-negative real x to round (in
    units) is given by its floor [fl] and by [cmp2 t], the comparison of
    2x with the integer [t]. *)
Definition rne (fl : Z) (cmp2 : Z -> comparison) : Z :=
  let sp := spacing fl in
  let k := fl / sp in
  match cmp2 ((2 * k + 1) * sp) with
  | Lt => k * sp
  | Gt => (k + 1) * sp
  | Eq => if Z.even k then k * sp else (k + 1) * sp
  end.

(** results of 2^1024 and above overflow to infinity *)
Definition pack (neg : bool) (n : Z) : float :=
  if 2 ^ 2098 <=? n then Inf neg else Fin (if neg then - n else n).

(** the double nearest to the rational p/q, p >= 0 and q > 0, signed *)
Definition of_ratio (neg : bool) (p q : Z) : float :=
  pack neg (rne (p * unit / q) (fun t => 2 * p * unit ?= t * q)).

(** conversion of an integer, as [float(n)] and the int64/uint64 to
    float64 cast do it *)
Definition of_Z (z : Z) : float := of_ratio (z <? 0) (Z.abs z) 1.

Definition is_neg (n : Z) : bool := n <? 0.

(** [a / b] on integers: the quotient correctly rounded; a quotient too
    large for a double raises *)
Definition true_div (a b : Z) : result float :=
  if b =? 0 then Raise ZeroDivisionError
  else
    match of_ratio (xorb (a <? 0) (b <? 0)) (Z.abs a) (Z.abs b) with
    | Inf _ => Raise OverflowError
    | x => Ok x
    end.

(** [x * y] *)
Definition mul (x y : float) : float :=
  match x, y with
  | NaN, _ | _, NaN => NaN
  | Inf s, Inf s' => Inf (xorb s s')
  | Inf s, Fin n | Fin n, Inf s =>
      if n =? 0 then NaN else Inf (xorb s (is_neg n))
  | Fin a, Fin b =>
      of_ratio (xorb (is_neg a) (is_neg b)) (Z.abs a * Z.abs b) (unit * unit)
  end.

(** [sqrt x], correctly rounded; NaN on negative arguments *)
Definition sqrt (x : float) : float :=
  match x with
  | NaN => NaN
  | Inf s => if s then NaN else Inf false
  | Fin a =>
      if a <? 0 then NaN
      else Fin (rne (Z.sqrt (a * unit)) (fun t => 4 * a * unit ?= t * t))
  end.

(** the integer part of [n] units, toward zero: the quotient of [n] by
    [unit], computed by shifting *)
Definition truncate (n : Z) : Z :=
  if n <? 0 then - Z.shiftr (- n) 1074 else Z.shiftr n 1074.

(** [int(x)]: truncation toward zero *)
Definition to_int (x : float) : result Z :=
  match x with
  | Fin n => Ok (truncate n)
  | Inf _ => Raise OverflowError
  | NaN => Raise ValueError
  end.

(** order on the outcomes of a comparison: Lt < Eq < Gt *)
Definition cmp_le (a b : comparison) : Prop :=
  match a, b with
  | Gt, Lt | Gt, Eq | Eq, Lt => False
  | _, _ => True
  end.

(** the double nearest to the integer [n], in units *)
Definition rint (n : Z) : Z :=
  rne (n * unit / 1) (fun t => 2 * n * unit ?= t * 1).

(** the double nearest to the square root of [a] units, in units *)
Definition rsqrt (a : Z) : Z :=
  rne (Z.sqrt (a * unit)) (fun t => 4 * a * unit ?= t * t).

(** what [int(np.sqrt(n))] evaluates to on 0 <= n < 2^64 *)
Definition isq (n : Z) : Z := rsqrt (rint n) / unit.

End Float.

Import Float.

(** ** The builtins [int(str)] and [float(str)] *)

Module Builtins.
Import PyStr.

Fixpoint skip_spaces (s : pystr) : pystr :=
  match s with
  | c :: s' => if is_c_space c then skip_spaces s' else s
  | [] => []
  end.

(** the literal between the white space that [int()] and [float()] skip
    at both ends *)
Definition trim (s : pystr) : pystr := rev (skip_spaces (rev (skip_spaces s))).

(** [sys.get_int_max_str_digits()], as the interpreter starts *)
Definition max_str_digits : nat := 4300.

(** [int(s)], base 10: white space around, an optional sign, then digits
    which underscores may group.  A literal of more than 4300 digits,
    leading zeros counted, is refused. *)
Definition int_of_str (s : pystr) : result Z :=
  let (neg, body) := take_sign (trim s) in
  if underscores_ok None body then
    let ds := remove_underscores body in
    match ds with
    | [] => Raise ValueError
    | _ :: _ =>
        if forallb is_digit ds
        then
          if (max_str_digits <? length ds)%nat then Raise ValueError
          else Ok (if neg then - digits_value ds else digits_value ds)
        else Raise ValueError
    end
  else Raise ValueError.

(** the double nearest to d * 10^ex *)
Definition of_decimal (neg : bool) (d ex : Z) : float :=
  if 0 <=? ex
  then of_ratio neg (d * 10 ^ ex) 1
  else of_ratio neg d (10 ^ (- ex)).

Definition is_exp_mark (c : ascii) : bool :=
  Ascii.eqb c "e"%char || Ascii.eqb c "E"%char.

(** [float(s)]: white space around, an optional sign, then [inf],
    [infinity] or [nan] in any letter case, or a decimal literal
    [digits [. digits] [e [sign] digits]] with a digit before or after the
    point.  The conversion is correctly rounded. *)
Definition float_of_str (s : pystr) : result float :=
  let s := trim s in
  if underscores_ok None s then
    let (neg, body) := take_sign (remove_underscores s) in
    let ub := upper body in
    if eqb ub (str "INF") || eqb ub (str "INFINITY") then Ok (Inf neg)
    else if eqb ub (str "NAN") then Ok NaN
    else
      let (ip, r1) := span_digits body in
      let (fp, r2) :=
        match r1 with
        | "."%char :: r => span_digits r
        | _ => ([], r1)
        end in
      match ip ++ fp with
      | [] => Raise ValueError
      | _ :: _ =>
          let d := digits_value (ip ++ fp) in
          let scale := - Z.of_nat (length fp) in
          match r2 with
          | [] => Ok (of_decimal neg d scale)
          | c :: r3 =>
              if is_exp_mark c then
                let (eneg, r4) := take_sign r3 in
                let (ed, r5) := span_digits r4 in
                match ed, r5 with
                | _ :: _, [] =>
                    let e := digits_value ed in
                    Ok (of_decimal neg d ((if eneg then - e else e) + scale))
                | _, _ => Raise ValueError
                end
              else Raise ValueError
          end
      end
  else Raise ValueError.

End Builtins.

Import Builtins.

(** ** Size planner *)

(** [float * int]: the integer operand is converted first *)
Definition mul_int (x : float) (k : Z) : float := Float.mul x (of_Z k).

(** [parse_size(size_str)] *)
Definition parse_size (size_str : pystr) : result Z :=
  let size_str := PyStr.strip (PyStr.upper size_str) in
  if PyStr.endswith size_str (str "MB") then
    x <- float_of_str (PyStr.drop_last 2 size_str) ;;
    to_int (mul_int (mul_int x 1024) 1024)
  else if PyStr.endswith size_str (str "GB") then
    x <- float_of_str (PyStr.drop_last 2 size_str) ;;
    to_int (mul_int (mul_int (mul_int x 1024) 1024) 1024)
  else if PyStr.endswith size_str (str "KB") then
    x <- float_of_str (PyStr.drop_last 2 size_str) ;;
    to_int (mul_int x 1024)
  else
    int_of_str size_str.

(** whether the normalised size string starts with a minus sign *)
Definition leading_minus (s : pystr) : bool :=
  match s with
  | "-"%char :: _ => true
  | _ => false
  end.

(** a double that is not below zero (NaN compares with nothing) *)
Definition nonneg_float (x : float) : Prop :=
  match x with
  | Fin n => 0 <= n
  | Inf neg => neg = false
  | NaN => True
  end.

(** [z] is the integer part of the finite, non-negative double [y] *)
Definition integer_part (y : float) (z : Z) : Prop :=
  exists n, y = Fin n /\ 0 <= n /\ z * Float.unit <= n < (z + 1) * Float.unit.

(** [a // b] *)
Definition floordiv (a b : Z) : result Z :=
  if b =? 0 then Raise ZeroDivisionError else Ok (a / b).

(** [np.sqrt(n)] on a Python integer.  NumPy first turns [n] into an array
    scalar: int64 when it fits, uint64 up to 2^64 - 1, and an object array
    otherwise, for which the ufunc has no loop ("TypeError: loop of ufunc
    does not support argument 0 of type int which has no callable sqrt
    method").  The integer is then converted to float64.  A negative
    argument gives NaN (and a warning), not an exception. *)
Definition np_sqrt (n : Z) : result float :=
  if (n <? - 2 ^ 63) || (2 ^ 64 <=? n) then Raise TypeError
  else Ok (Float.sqrt (of_Z n)).

(** [int(np.sqrt(n))] *)
Definition int_sqrt (n : Z) : result Z :=
  r <- np_sqrt n ;; to_int r.

(** Number of pixels the payload holds: lines 44-50 of the script. *)
Definition total_pixels_of (target_size_bytes bits_per_pixel : Z) : result Z :=
  let header_overhead := 10 * 1024 in
  let pixel_data_size := target_size_bytes - header_overhead in
  bytes_per_pixel <- floordiv bits_per_pixel 8 ;;
  floordiv pixel_data_size bytes_per_pixel.

(** The aspect policy chosen from the pixel count: lines 55-69. *)
Inductive tier : Type := Small | Medium | Large | VeryLarge.

Definition tier_of (total_pixels : Z) : tier :=
  if total_pixels <? 512 * 512 then Small
  else if total_pixels <? 1024 * 1024 then Medium
  else if total_pixels <? 2048 * 2048 then Large
  else VeryLarge.

Definition tier_dimensions (total_pixels : Z) : result (Z * Z) :=
  match tier_of total_pixels with
  | Small =>
      side <- int_sqrt total_pixels ;; Ok (side, side)
  | Medium =>
      let width := 1024 in
      height <- floordiv total_pixels width ;; Ok (width, height)
  | Large =>
      let width := 2048 in
      height <- floordiv total_pixels width ;; Ok (width, height)
  | VeryLarge =>
      side <- int_sqrt total_pixels ;; Ok (side, side)
  end.

(** width and height as they stand before line 72 *)
Definition unclamped_dimensions (target_size_bytes bits_per_pixel : Z)
  : result (Z * Z) :=
  total_pixels <- total_pixels_of target_size_bytes bits_per_pixel ;;
  tier_dimensions total_pixels.

Definition clamp (v : Z) : Z := Z.max 256 (Z.min 8192 v).

(** [calculate_dimensions(target_size_bytes, bits_per_pixel=16)] *)
Definition calculate_dimensions (target_size_bytes bits_per_pixel : Z)
  : result (Z * Z) :=
  wh <- unclamped_dimensions target_size_bytes bits_per_pixel ;;
  let (width, height) := wh : Z * Z in
  Ok (clamp width, clamp height).


(** ** Raster synthesizer: the CT variant

    An image is the row-major list of its uint16 samples.  The random
    generator and the region masks (whose geometry is float arithmetic over
    the pixel grid) are parameters: the sample values never depend on how
    they are computed. *)

Module Raster.

Definition image : Type := list Z.

(** [x.astype(np.uint16)] on a float64.  NumPy compiles it to a C cast,
    which on x86-64 truncates toward zero into a 32-bit integer and keeps
    the low 16 bits; what does not fit the 32-bit integer, and NaN, become
    0.  A negative sample therefore wraps around: it is not clamped. *)
Definition astype_uint16 (x : float) : Z :=
  match x with
  | Fin n =>
      let t := truncate n in
      if (- 2 ^ 31 <? t) && (t <? 2 ^ 31) then t mod 65536 else 0
  | _ => 0
  end.

(** [np.clip(v, 0, 65535)] on one sample *)
Definition np_clip (v : Z) : Z := Z.min (Z.max v 0) 65535.

(** [np.sum(mask)] *)
Definition count_true (mask : list bool) : nat :=
  length (filter (fun b => b) mask).

(** [image[mask] = values]: the selected positions take the values in
    row-major order *)
Fixpoint assign_masked (img : image) (mask : list bool) (values : list Z)
  : image :=
  match img, mask with
  | p :: img', true :: mask' =>
      match values with
      | v :: values' => v :: assign_masked img' mask' values'
      | [] => p :: assign_masked img' mask' []
      end
  | p :: img', false :: mask' => p :: assign_masked img' mask' values
  | _, _ => img
  end.

(** [a | b] on masks *)
Fixpoint mask_or (a b : list bool) : list bool :=
  match a, b with
  | x :: a', y :: b' => (x || y) :: mask_or a' b'
  | _, _ => []
  end.

Section Synthesis.
(** state of the unseeded generator *)
Variable rng : Type.
(** [np.random.normal(loc, scale, size)] *)
Variable normal : Z -> Z -> nat -> rng -> list float * rng.
(** the region masks for a [width] x [height] raster *)
Variables body_mask spine_mask lung_left lung_right : Z -> Z -> list bool.
Variable rib_mask : nat -> Z -> Z -> list bool.

(** [image[mask] = np.random.normal(loc, scale, np.sum(mask)).astype(np.uint16)] *)
Definition fill (img : image) (mask : list bool) (loc scale : Z) (g : rng)
  : image * rng :=
  let (samples, g') := normal loc scale (count_true mask) g in
  (assign_masked img mask (map astype_uint16 samples), g').

(** the [modality == 'CT'] branch of [generate_realistic_medical_image] *)
Definition generate_ct (width height : Z) (g : rng) : image * rng :=
  let img := repeat 0 (Z.to_nat height * Z.to_nat width) in
  let (img, g) := fill img (body_mask width height) 1000 200 g in
  let (img, g) := fill img (spine_mask width height) 3000 300 g in
  let (img, g) :=
    fold_left
      (fun (s : image * rng) (angle : nat) =>
         let (img, g) := s in
         fill img (rib_mask angle width height) 2800 200 g)
      (seq 0 8) (img, g) in
  let lungs := mask_or (lung_left width height) (lung_right width height) in
  let (img, g) := fill img lungs (-1000) 100 g in
  (map np_clip img, g).

End Synthesis.

(** a generator whose every draw is the mean of the distribution *)
Definition mean_sampler (loc scale : Z) (size : nat) (g : Datatypes.unit)
  : list float * Datatypes.unit :=
  (repeat (of_Z loc) size, g).

(** a mask over the grid, row by row: [y, x = np.ogrid[:height, :width]] *)
Definition grid_mask (inside : Z -> Z -> bool) (width height : Z) : list bool :=
  flat_map
    (fun y => map (fun x => inside (Z.of_nat x) (Z.of_nat y))
                  (seq 0 (Z.to_nat width)))
    (seq 0 (Z.to_nat height)).

(** The regions of the script in exact arithmetic, every inequality
    multiplied out (0.4 = 2/5, 0.05 = 1/20, 0.15 = 15/100, 0.12 = 12/100).
    The script evaluates the same inequalities in floating point, which can
    differ from these only for pixels on the rim of a region. *)
Definition body_region (width height : Z) : list bool :=
  let cx := width / 2 in
  let cy := height / 2 in
  grid_mask
    (fun x y =>
       25 * ((x - cx) ^ 2 + (y - cy) ^ 2) <? 4 * Z.min width height ^ 2)
    width height.

Definition spine_region (width height : Z) : list bool :=
  let cx := width / 2 in
  let cy := height / 2 in
  grid_mask
    (fun x y =>
       (20 * Z.abs (x - cx) <? width) && (cy <? 2 * y) && (2 * y <? 3 * cy))
    width height.

Definition lung_left_region (width height : Z) : list bool :=
  let cx := width / 2 in
  let cy := height / 2 in
  grid_mask
    (fun x y =>
       (100 * (x - cx) + 15 * width) ^ 2 + (100 * (y - cy)) ^ 2
       <? (12 * width) ^ 2)
    width height.

Definition lung_right_region (width height : Z) : list bool :=
  let cx := width / 2 in
  let cy := height / 2 in
  grid_mask
    (fun x y =>
       (100 * (x - cx) - 15 * width) ^ 2 + (100 * (y - cy)) ^ 2
       <? (12 * width) ^ 2)
    width height.

Definition nowhere (width height : Z) : list bool :=
  repeat false (Z.to_nat height * Z.to_nat width).

(** a 256 x 256 CT raster (what [calculate_dimensions] plans for a target
    of 100KB) with every draw at the mean; the ribs, which are drawn before
    the lungs and placed with [cos] and [sin], are left out *)
Definition sample_ct : image :=
  fst (generate_ct Datatypes.unit mean_sampler
         body_region spine_region lung_left_region lung_right_region
         (fun _ => nowhere) 256 256 tt).

Definition sample_lungs : list bool :=
  mask_or (lung_left_region 256 256) (lung_right_region 256 256).

End Raster.

(** ** Raster synthesizer: all four variants

    [generate_realistic_medical_image] chooses its variant by the modality
    string.  As for the CT variant, the generators and the region geometry
    are parameters.  Array creation with a negative dimension raises
    ValueError, and so does [np.random.randint(low, high)] when [low] is not
    below [high]. *)

Module Synth.
Import Raster.

(** [x < y] on doubles *)
Definition float_ltb (x y : float) : bool :=
  match x, y with
  | Fin a, Fin b => a <? b
  | Inf true, Fin _ | Fin _, Inf false | Inf true, Inf false => true
  | _, _ => false
  end.

(** [a & b] on masks *)
Fixpoint mask_and (a b : list bool) : list bool :=
  match a, b with
  | x :: a', y :: b' => (x && y) :: mask_and a' b'
  | _, _ => []
  end.

(** [image[mask] += values] on a uint16 array: the sum wraps around *)
Fixpoint add_masked (img : image) (mask : list bool) (values : list Z)
  : image :=
  match img, mask with
  | p :: img', true :: mask' =>
      match values with
      | v :: values' => (p + v) mod 65536 :: add_masked img' mask' values'
      | [] => p :: add_masked img' mask' []
      end
  | p :: img', false :: mask' => p :: add_masked img' mask' values
  | _, _ => img
  end.

Section Variants.
Variable rng : Type.
(** [np.random.normal(loc, scale, size)] *)
Variable normal : Z -> Z -> nat -> rng -> list float * rng.
(** [np.random.rayleigh(scale, size)] *)
Variable rayleigh : Z -> nat -> rng -> list float * rng.
(** [np.random.random(size)] *)
Variable random : nat -> rng -> list float * rng.
(** [np.random.randint(low, high)] for [low < high] *)
Variable randint : Z -> Z -> rng -> Z * rng.
(** regions of the CT variant *)
Variables body_mask spine_mask lung_left lung_right : Z -> Z -> list bool.
Variable rib_mask : nat -> Z -> Z -> list bool.
(** regions of the MR variant *)
Variables brain_mask gray_matter white_matter : Z -> Z -> list bool.
(** the disc around ([organ_x], [organ_y]) of the ultrasound variant *)
Variable organ_mask : Z -> Z -> Z -> Z -> list bool.

Definition pixels (width height : Z) : nat :=
  (Z.to_nat height * Z.to_nat width)%nat.

(** the MR variant, up to its final clip *)
Definition mr_before_clip (width height : Z) (g : rng) : image * rng :=
  let img := repeat 0 (pixels width height) in
  let (img, g) :=
    fill rng normal img (gray_matter width height) 30000 3000 g in
  let (img, g) :=
    fill rng normal img (white_matter width height) 45000 2000 g in
  let (u, g) := random (pixels width height) g in
  let csf_regions :=
    mask_and (brain_mask width height)
             (map (fun x => float_ltb x (of_decimal false 5 (-2))) u) in
  fill rng normal img csf_regions 10000 1000 g.

Definition np_randint (low high : Z) (g : rng) : result (Z * rng) :=
  if high <=? low then Raise ValueError else Ok (randint low high g).

(** one round of the loop that adds an organ *)
Definition add_organ (width height : Z) (s : image * rng)
  : result (image * rng) :=
  let (img, g) := s in
  let center_y := height / 2 in
  let center_x := width / 2 in
  dx <- np_randint (- width / 4) (width / 4) g ;;
  let organ_x := center_x + fst dx in
  dy <- np_randint (- height / 4) (height / 4) (snd dx) ;;
  let organ_y := center_y + fst dy in
  let mask := organ_mask organ_x organ_y width height in
  let (boost, g') := normal 15000 5000 (count_true mask) (snd dy) in
  Ok (add_masked img mask (map astype_uint16 boost), g').

(** the ultrasound variant, up to its final clip *)
Definition us_before_clip (width height : Z) (g : rng)
  : result (image * rng) :=
  let (speckle, g) := rayleigh 20000 (pixels width height) g in
  let img := map astype_uint16 speckle in
  s1 <- add_organ width height (img, g) ;;
  s2 <- add_organ width height s1 ;;
  add_organ width height s2.

(** the fallback variant, up to its final clip *)
Definition generic_before_clip (width height : Z) (g : rng) : image * rng :=
  let (samples, g') := normal 25000 10000 (pixels width height) g in
  (map astype_uint16 samples, g').

Definition clipped (s : image * rng) : image * rng :=
  (map np_clip (fst s), snd s).

(** [generate_realistic_medical_image(width, height, modality)] *)
Definition generate_realistic_medical_image
  (width height : Z) (modality : pystr) (g : rng) : result (image * rng) :=
  if (width <? 0) || (height <? 0) then Raise ValueError
  else if PyStr.eqb modality (str "CT") then
    Ok (generate_ct rng normal body_mask spine_mask lung_left lung_right
                    rib_mask width height g)
  else if PyStr.eqb modality (str "MR") then
    Ok (clipped (mr_before_clip width height g))
  else if PyStr.eqb modality (str "US") then
    s <- us_before_clip width height g ;; Ok (clipped s)
  else
    Ok (clipped (generic_before_clip width height g)).

(** the CT variant, up to its final clip *)
Definition ct_before_clip (width height : Z) (g : rng) : image * rng :=
  let img := repeat 0 (pixels width height) in
  let (img, g) := fill rng normal img (body_mask width height) 1000 200 g in
  let (img, g) := fill rng normal img (spine_mask width height) 3000 300 g in
  let (img, g) :=
    fold_left
      (fun (s : image * rng) (angle : nat) =>
         let (img, g) := s in
         fill rng normal img (rib_mask angle width height) 2800 200 g)
      (seq 0 8) (img, g) in
  let lungs := mask_or (lung_left width height) (lung_right width height) in
  fill rng normal img lungs (-1000) 100 g.

(** the function with its four [np.clip] lines left out *)
Definition without_clip
  (width height : Z) (modality : pystr) (g : rng) : result (image * rng) :=
  if (width <? 0) || (height <? 0) then Raise ValueError
  else if PyStr.eqb modality (str "CT") then
    Ok (ct_before_clip width height g)
  else if PyStr.eqb modality (str "MR") then
    Ok (mr_before_clip width height g)
  else if PyStr.eqb modality (str "US") then
    us_before_clip width height g
  else
    Ok (generic_before_clip width height g).

(** every generator returns as many draws as it is asked for *)
Definition generators_sized : Prop :=
  (forall loc scale size g, length (fst (normal loc scale size g)) = size)
  /\ (forall scale size g, length (fst (rayleigh scale size g)) = size)
  /\ (forall size g, length (fst (random size g)) = size).

End Variants.

(** generators for examples: every draw is [x] *)
Definition constant_normal (x : float) (loc scale : Z) (size : nat)
  (g : Datatypes.unit) : list float * Datatypes.unit :=
  (repeat x size, g).

Definition constant_draws (x : float) (size : nat) (g : Datatypes.unit)
  : list float * Datatypes.unit :=
  (repeat x size, g).

Definition constant_randint (low high : Z) (g : Datatypes.unit)
  : Z * Datatypes.unit :=
  (low, g).

(** a 4 x 4 raster of the given modality: draws of 1000.0 throughout, an
    organ disc (and every other region) covering the upper left pixel only *)
Definition corner (width height : Z) : list bool :=
  grid_mask (fun x y => (x =? 0) && (y =? 0)) width height.

Definition sample_raster (width height : Z) (modality : pystr)
  : result (image * Datatypes.unit) :=
  generate_realistic_medical_image Datatypes.unit
    (constant_normal (of_Z 1000)) (fun _ => constant_draws (of_Z 1000))
    (constant_draws (of_Z 0)) constant_randint
    corner corner corner corner (fun _ => corner)
    corner corner corner (fun _ _ => corner)
    width height modality tt.

End Synth.

(** ** Container writer

    The process runs in a [world]: the count of identifiers drawn so far
    from the operating system's random source, and the trace of the effects
    performed.  The environment gives the random source, the file system's
    answers and the size of an encoded data set. *)

Module Dicom.

(** A unique identifier is either one registered by the DICOM standard or
    one minted by [pydicom.uid.generate_uid()]: the pydicom root followed
    by the decimal rendering of a random number. *)
Inductive UID : Type :=
| Registered (dotted : string)
| Minted (entropy : N).

Definition CTImageStorage : UID := Registered "1.2.840.10008.5.1.4.1.1.2".
Definition MRImageStorage : UID := Registered "1.2.840.10008.5.1.4.1.1.4".
Definition ExplicitVRLittleEndian : UID := Registered "1.2.840.10008.1.2.1".

Record FileMetaDataset : Type := {
  MediaStorageSOPClassUID : UID;
  MediaStorageSOPInstanceUID : UID;
  TransferSyntaxUID : UID;
  ImplementationClassUID : UID;
  ImplementationVersionName : string
}.

(** the attributes of the data set that identify it and size the raster;
    dates, window settings and equipment names are left out *)
Record Dataset : Type := {
  file_meta : FileMetaDataset;
  SOPClassUID : UID;
  SOPInstanceUID : UID;
  PatientName : pyval;
  StudyInstanceUID : UID;
  SeriesInstanceUID : UID;
  Modality : pyval;
  Rows : Z;
  Columns : Z;
  BitsAllocated : Z
}.

Inductive event : Type :=
| EvMakedirs (path : pystr)
| EvSynthesize (width height : Z) (modality : pyval)
| EvSave (path : pystr) (ds : Dataset).

Record world : Type := {
  uid_draws : nat;
  trace : list event
}.

Record environment : Type := {
  (** the i-th number handed out by the random source *)
  entropy : nat -> N;
  (** [os.path.getsize] of an encoded data set *)
  encoded_size : Dataset -> Z;
  (** [os.path.dirname(os.path.abspath(path))] *)
  parent_dir : pystr -> pystr;
  can_mkdir : pystr -> bool;
  can_write : pystr -> bool
}.

(** computations that read and change the world and may raise *)
Definition M (A : Type) : Type := world -> result A * world.

Definition ret {A} (a : A) : M A := fun w => (Ok a, w).

Definition raise {A} (e : exn) : M A := fun w => (Raise e, w).

Definition bindM {A B} (m : M A) (k : A -> M B) : M B :=
  fun w =>
    match m w with
    | (Ok a, w') => k a w'
    | (Raise e, w') => (Raise e, w')
    end.

Definition lift {A} (r : result A) : M A := fun w => (r, w).

Definition log (e : event) : M Datatypes.unit :=
  fun w => (Ok tt, {| uid_draws := uid_draws w; trace := trace w ++ [e] |}).

Notation "x <~ m ;; k" := (bindM m (fun x => k))
  (at level 61, m at next level, right associativity).

Section Writer.
Variable env : environment.

(** [generate_uid()] *)
Definition generate_uid : M UID :=
  fun w =>
    (Ok (Minted (entropy env (uid_draws w))),
     {| uid_draws := S (uid_draws w); trace := trace w |}).

(** [generate_realistic_medical_image(width, height, modality)], as an
    effect; the samples themselves are the subject of [Raster] *)
Definition synthesize (width height : Z) (modality : pyval)
  : M Datatypes.unit :=
  log (EvSynthesize width height modality).

(** [ds.save_as(output_path)] *)
Definition save_as (output_path : pystr) (ds : Dataset) : M Datatypes.unit :=
  if can_write env output_path then log (EvSave output_path ds)
  else raise OSError.

(** [create_dicom_file(output_path, target_size, modality, patient_name)].
    Of the progress lines, the one that prints the target in megabytes
    (line 170) can raise, for a target too large for a double; the two
    after the write divide a file size, which is below 2^63, and cannot. *)
Definition create_dicom_file
  (output_path : pystr) (target_size : Z) (modality patient_name : pyval)
  : M Z :=
  _ <~ lift (true_div target_size (1024 * 1024)) ;;
  wh <~ lift (calculate_dimensions target_size 16) ;;
  let (width, height) := wh : Z * Z in
  _ <~ synthesize width height modality ;;
  let sop_class :=
    if pyval_eqb modality (PStr (str "CT")) then CTImageStorage
    else MRImageStorage in
  sop_instance <~ generate_uid ;;
  implementation <~ generate_uid ;;
  let meta := {|
    MediaStorageSOPClassUID := sop_class;
    MediaStorageSOPInstanceUID := sop_instance;
    TransferSyntaxUID := ExplicitVRLittleEndian;
    ImplementationClassUID := implementation;
    ImplementationVersionName := "LARGE_DICOM_GEN_1.0"
  |} in
  study <~ generate_uid ;;
  series <~ generate_uid ;;
  let ds := {|
    file_meta := meta;
    SOPClassUID := MediaStorageSOPClassUID meta;
    SOPInstanceUID := MediaStorageSOPInstanceUID meta;
    PatientName := patient_name;
    StudyInstanceUID := study;
    SeriesInstanceUID := series;
    Modality := modality;
    Rows := height;
    Columns := width;
    BitsAllocated := 16
  |} in
  _ <~ save_as output_path ds ;;
  ret (encoded_size env ds).

(** one call of [create_dicom_file] *)
Record invocation : Type := {
  inv_output : pystr;
  inv_target : Z;
  inv_modality : pyval;
  inv_patient : pyval
}.

Definition invoke (i : invocation) : M Z :=
  create_dicom_file (inv_output i) (inv_target i) (inv_modality i)
                    (inv_patient i).

(** the world after a series of calls, failed ones included *)
Definition run (calls : list invocation) (w : world) : world :=
  fold_left (fun w i => snd (invoke i w)) calls w.

End Writer.

(** the data sets written so far, oldest first *)
Definition saved (w : world) : list Dataset :=
  flat_map (fun e => match e with EvSave _ ds => [ds] | _ => [] end) (trace w).

(** the identifiers the claim about freshness names, storage class first *)
Definition generated_fields (ds : Dataset) : list UID :=
  [ MediaStorageSOPInstanceUID (file_meta ds);
    ImplementationClassUID (file_meta ds);
    StudyInstanceUID ds;
    SeriesInstanceUID ds ].

Definition identifier_fields (ds : Dataset) : list UID :=
  MediaStorageSOPClassUID (file_meta ds) :: generated_fields ds.

Definition initial_world : world := {| uid_draws := 0; trace := [] |}.

(** a random source that never repeats itself *)
Definition never_repeats (src : nat -> N) : Prop :=
  forall i j, src i = src j -> i = j.

(** an environment for examples: the source counts upward, the disk
    accepts everything *)
Definition sample_env : environment := {|
  entropy := N.of_nat;
  encoded_size := fun ds => 10240 + 2 * Rows ds * Columns ds;
  parent_dir := fun p => p;
  can_mkdir := fun _ => true;
  can_write := fun _ => true
|}.

(** a call as [main] makes it for [--size 1MB --output a.dcm] *)
Definition sample_call : invocation := {|
  inv_output := str "a.dcm";
  inv_target := 1048576;
  inv_modality := PStr (str "CT");
  inv_patient := PStr (str "Test^Patient")
|}.

(** what two such calls in a row write *)
Definition sample_files : list Dataset :=
  saved (run sample_env [sample_call; sample_call] initial_world).

End Dicom.

(** ** Command line

    [argparse] as [main] configures it: four long options that take one
    value each, [--modality] restricted to three choices, and the help
    flags.  A token is first classified (option, value, or the separator
    [--] after which everything is a value), then the options are consumed
    from left to right.  An option may be abbreviated to an unambiguous
    prefix and may carry its value after [=].  Any error ends the process
    with status 2, help with status 0.  The parser is that of Python
    3.11. *)

Module Cli.
Import PyStr Dicom.

Inductive action : Type :=
| Help | Size | Output | ModalityOpt | PatientNameOpt.

Definition option_strings : list (pystr * action) :=
  [ (str "-h", Help); (str "--help", Help);
    (str "--size", Size); (str "--output", Output);
    (str "--modality", ModalityOpt); (str "--patient-name", PatientNameOpt) ].

(** [choices=['CT', 'MR', 'US']] *)
Definition choices : list pystr := [str "CT"; str "MR"; str "US"].

Fixpoint startswith (s prefix : pystr) : bool :=
  match prefix, s with
  | [], _ => true
  | p :: prefix', c :: s' => Ascii.eqb c p && startswith s' prefix'
  | _ :: _, [] => false
  end.

(** [s.split('=', 1)] *)
Fixpoint split_eq (s : pystr) : pystr * option pystr :=
  match s with
  | [] => ([], None)
  | c :: s' =>
      if Ascii.eqb c "="%char then ([], Some s')
      else let (name, explicit) := split_eq s' in (c :: name, explicit)
  end.

Definition lookup (s : pystr) : option action :=
  match find (fun oa => eqb (fst oa) s) option_strings with
  | Some (_, a) => Some a
  | None => None
  end.

Definition digits1 (s : pystr) : bool :=
  match s with
  | [] => false
  | _ :: _ => forallb is_digit s
  end.

(** [s] without the line feed it may end in *)
Definition chomp (s : pystr) : pystr :=
  match rev s with
  | "010"%char :: r => rev r
  | _ => s
  end.

(** the pattern [^-\d+$|^-\d*\.\d+$], matched from the start; its [$]
    also matches before a final line feed *)
Definition looks_negative_number (s : pystr) : bool :=
  match s with
  | "-"%char :: body =>
      let body := chomp body in
      digits1 body
      || match snd (span_digits body) with
         | "."%char :: fp => digits1 fp
         | _ => false
         end
  | _ => false
  end.

Inductive kind : Type :=
| Positional
| Separator
| Flag (opt : pystr) (a : action) (explicit : option pystr)
| Unknown.

(** the interpretations of an abbreviated or glued option *)
Definition option_tuples (s name : pystr) (explicit : option pystr)
  : list kind :=
  match s with
  | _ :: "-"%char :: _ =>
      flat_map
        (fun oa : pystr * action =>
           if startswith (fst oa) name
           then [Flag (fst oa) (snd oa) explicit] else [])
        option_strings
  | _ =>
      flat_map
        (fun oa : pystr * action =>
           if eqb (fst oa) (firstn 2 s)
           then [Flag (fst oa) (snd oa) (Some (skipn 2 s))]
           else if startswith (fst oa) s
                then [Flag (fst oa) (snd oa) None] else [])
        option_strings
  end.

Definition parse_optional (s : pystr) : result kind :=
  match s with
  | [] => Ok Positional
  | c :: rest =>
      if negb (Ascii.eqb c "-"%char) then Ok Positional
      else
        match lookup s with
        | Some a => Ok (Flag s a None)
        | None =>
            match rest with
            | [] => Ok Positional
            | _ :: _ =>
                let (name, explicit) := split_eq s in
                match (match explicit with
                       | Some _ => lookup name
                       | None => None
                       end) with
                | Some a => Ok (Flag name a explicit)
                | None =>
                    match option_tuples s name explicit with
                    | [k] => Ok k
                    | _ :: _ :: _ => Raise (SystemExit 2)
                    | [] =>
                        if looks_negative_number s then Ok Positional
                        else if existsb (Ascii.eqb " "%char) s
                             then Ok Positional
                             else Ok Unknown
                    end
                end
            end
        end
  end.

Fixpoint classify (argv : list pystr) : result (list (pystr * kind)) :=
  match argv with
  | [] => Ok []
  | s :: rest =>
      if eqb s (str "--")
      then Ok ((s, Separator) :: map (fun t => (t, Positional)) rest)
      else
        k <- parse_optional s ;;
        ks <- classify rest ;;
        Ok ((s, k) :: ks)
  end.

Record pstate : Type := {
  p_size : option pyval;
  p_output : option pyval;
  p_modality : pyval;
  p_patient_name : pyval;
  p_extras : bool
}.

(** the defaults of the four options *)
Definition defaults : pstate := {|
  p_size := None;
  p_output := None;
  p_modality := PStr (str "CT");
  p_patient_name := PStr (str "Test^Patient");
  p_extras := false
|}.

Definition with_extras (st : pstate) : pstate := {|
  p_size := p_size st;
  p_output := p_output st;
  p_modality := p_modality st;
  p_patient_name := p_patient_name st;
  p_extras := true
|}.

(** [_get_values] for an option that takes one value.  A value that is
    exactly [--] is removed first, and the empty list that is left is the
    value, unchecked; any other value is checked against the choices of
    the option, if it has any. *)
Definition get_values (a : action) (v : pystr) : result pyval :=
  if eqb v (str "--") then Ok PEmptyList
  else
    match a with
    | ModalityOpt =>
        if existsb (eqb v) choices then Ok (PStr v)
        else Raise (SystemExit 2)
    | _ => Ok (PStr v)
    end.

(** the store action *)
Definition set_value (a : action) (v : pyval) (st : pstate) : pstate :=
  match a with
  | Help => st
  | Size =>
      {| p_size := Some v; p_output := p_output st;
         p_modality := p_modality st;
         p_patient_name := p_patient_name st; p_extras := p_extras st |}
  | Output =>
      {| p_size := p_size st; p_output := Some v;
         p_modality := p_modality st;
         p_patient_name := p_patient_name st; p_extras := p_extras st |}
  | ModalityOpt =>
      {| p_size := p_size st; p_output := p_output st;
         p_modality := v;
         p_patient_name := p_patient_name st; p_extras := p_extras st |}
  | PatientNameOpt =>
      {| p_size := p_size st; p_output := p_output st;
         p_modality := p_modality st;
         p_patient_name := v; p_extras := p_extras st |}
  end.

(** [take_action] for an option with its one value *)
Definition store (a : action) (v : pystr) (st : pstate) : result pstate :=
  match a with
  | Help => Raise (SystemExit 0)
  | _ => value <- get_values a v ;; Ok (set_value a value st)
  end.

(** [-h] glued to further [h]s is help again; anything else glued to a
    help flag is an error *)
Definition help_exit (opt : pystr) (explicit : option pystr) : exn :=
  match explicit with
  | None => SystemExit 0
  | Some e =>
      match e with
      | [] => SystemExit 2
      | _ :: _ =>
          if eqb opt (str "-h") && forallb (Ascii.eqb "h"%char) e
          then SystemExit 0 else SystemExit 2
      end
  end.

Fixpoint consume (tokens : list (pystr * kind)) (st : pstate)
  : result pstate :=
  match tokens with
  | [] => Ok st
  | (_, Flag opt Help explicit) :: _ => Raise (help_exit opt explicit)
  | (_, Flag _ a (Some v)) :: rest =>
      st' <- store a v st ;; consume rest st'
  | (_, Flag _ a None) :: (v, Positional) :: rest =>
      st' <- store a v st ;; consume rest st'
  | (_, Flag _ _ None) :: _ => Raise (SystemExit 2)
  | (_, Separator) :: rest => consume rest (with_extras st)
  | (_, Positional) :: rest => consume rest (with_extras st)
  | (_, Unknown) :: rest => consume rest (with_extras st)
  end.

Record Namespace : Type := {
  size : pyval;
  output : pyval;
  modality : pyval;
  patient_name : pyval
}.

(** [parser.parse_args()] *)
Definition parse_args (argv : list pystr) : result Namespace :=
  tokens <- classify argv ;;
  st <- consume tokens defaults ;;
  match p_size st, p_output st with
  | Some s, Some o =>
      if p_extras st then Raise (SystemExit 2)
      else Ok {| size := s; output := o; modality := p_modality st;
                 patient_name := p_patient_name st |}
  | _, _ => Raise (SystemExit 2)
  end.

(** [os.makedirs(path, exist_ok=True)] *)
Definition makedirs (env : environment) (path : pystr) : M Datatypes.unit :=
  if can_mkdir env path then log (EvMakedirs path) else raise OSError.

(** [parse_size(args.size)]: the empty list has no method [upper] *)
Definition parse_size_of (v : pyval) : result Z :=
  match v with
  | PStr s => parse_size s
  | PEmptyList => Raise AttributeError
  end.

(** [os.path.abspath(args.output)]: the empty list is no path *)
Definition path_of (v : pyval) : result pystr :=
  match v with
  | PStr s => Ok s
  | PEmptyList => Raise TypeError
  end.

(** the [try] block of [main]; its first progress line (line 293) prints
    the target in megabytes *)
Definition main_body (env : environment) (args : Namespace) : M Z :=
  target_size <~ lift (parse_size_of (size args)) ;;
  _ <~ lift (true_div target_size (1024 * 1024)) ;;
  output_path <~ lift (path_of (output args)) ;;
  _ <~ makedirs env (parent_dir env output_path) ;;
  create_dicom_file env output_path target_size (modality args)
                    (patient_name args).

(** [main()]: the exit status and the world it leaves *)
Definition main (env : environment) (argv : list pystr) (w : world)
  : Z * world :=
  match parse_args argv with
  | Raise (SystemExit code) => (code, w)
  | Raise _ => (1, w)
  | Ok args =>
      match main_body env args w with
      | (Ok _, w') => (0, w')
      | (Raise _, w') => (1, w')
      end
  end.


End Cli.

(** ** Notions used by the statements and their proofs *)

(** the float of the Standard Library's IEEE-754 specification, read as a
    double of this development; used to compare the two on sample values *)
Definition of_spec (x : spec_float) : float :=
  match x with
  | S754_zero _ => Fin 0
  | S754_infinity s => Inf s
  | S754_nan => NaN
  | S754_finite s m e =>
      Fin ((if s then -1 else 1) * (Z.pos m * 2 ^ (e + 1074)))
  end.

(** an integer mantissa with exponent 0, as the specification's operations
    take it *)
Definition spec_of_Z (z : Z) : spec_float :=
  match z with
  | Zpos p => S754_finite false p 0
  | Zneg p => S754_finite true p 0
  | Z0 => S754_zero false
  end.

Definition b64_of_Z (z : Z) : spec_float := binary_normalize 53 1024 z 0 false.

Definition b64_div (p q : Z) : spec_float :=
  SFdiv 53 1024 (spec_of_Z p) (spec_of_Z q).

Definition samples : list Z :=
  [0; 1; 2; 3; 10; 17; 1024; 262143; 4194305; 2 ^ 53 - 1; 2 ^ 53 + 1;
   2 ^ 53 + 3; 2 ^ 60 + 12345; 2 ^ 63; 2 ^ 64 - 1; 2 ^ 64 - 1025;
   10 ^ 22; 10 ^ 23; 10 ^ 300; 2 ^ 1024 - 2 ^ 970 - 1; 2 ^ 1024 - 2 ^ 970].

Definition divisors : list Z :=
  [3; 7; 10; 1000; 2 ^ 60 + 1; 10 ^ 30; 10 ^ 308; 10 ^ 320; 10 ^ 323;
   10 ^ 324; 10 ^ 330; 3 * 2 ^ 1073; 5 * 2 ^ 1074; 2 ^ 1076].

Definition no_underscore (s : pystr) : Prop :=
  forallb (fun c => negb (Ascii.eqb c "_"%char)) s = true.

(** empty, or starting with something else than white space *)
Definition clean_head (s : pystr) : Prop :=
  s = [] \/ exists c u, s = c :: u /\ PyStr.is_space c = false.

(** digits, a decimal point, digits *)
Definition fractional_literal (ip fp : pystr) : pystr := ip ++ str "." ++ fp.

Definition minted (env : Dicom.environment) (i : nat) : Dicom.UID :=
  Dicom.Minted (Dicom.entropy env i).

(** the storage class follows the modality and nothing else *)
Definition class_of (modality : pyval) : Dicom.UID :=
  if pyval_eqb modality (PStr (str "CT"))
  then Dicom.CTImageStorage else Dicom.MRImageStorage.

(** the generated identifiers written so far are distinct earlier draws *)
Definition draws_recorded (env : Dicom.environment) (w : Dicom.world) : Prop :=
  exists idxs,
    flat_map Dicom.generated_fields (Dicom.saved w) = map (minted env) idxs
    /\ NoDup idxs
    /\ Forall (fun i => i < Dicom.uid_draws w)%nat idxs.

Definition classes_fixed (w : Dicom.world) : Prop :=
  Forall (fun ds => Dicom.MediaStorageSOPClassUID (Dicom.file_meta ds)
                    = class_of (Dicom.Modality ds)) (Dicom.saved w).

(** the parser leaves with status 0 (help) or 2 (usage error) only *)
Definition exits_0_or_2 {A : Type} (r : result A) : Prop :=
  match r with
  | Ok _ => True
  | Raise e => e = SystemExit 0 \/ e = SystemExit 2
  end.

(** what the parser can leave as the modality: one of the choices, or the
    empty list *)
Definition accepted_modality (v : pyval) : Prop :=
  v = PEmptyList \/ exists m, v = PStr m /\ In m Cli.choices.




(** ** Further notions: the planner's pixel count *)

(** the pixel count of the plan for [total_pixels], after clamping *)
Definition plan_area (total_pixels : Z) : Z :=
  match tier_of total_pixels with
  | Small | VeryLarge => clamp (isq total_pixels) * clamp (isq total_pixels)
  | Medium => clamp 1024 * clamp (total_pixels / 1024)
  | Large => clamp 2048 * clamp (total_pixels / 2048)
  end.

(** ** Further notions: the command line and the process *)

(** a command-line token that does not start with a dash *)
Definition plain (s : pystr) : Prop := Cli.startswith s (str "-") = false.

(** the world after one more effect *)
Definition after (w : Dicom.world) (events : list Dicom.event) : Dicom.world :=
  {| Dicom.uid_draws := Dicom.uid_draws w;
     Dicom.trace := Dicom.trace w ++ events |}.

(** what an option holds for a value glued to it with [=] *)
Definition glued (v : pystr) : pyval :=
  if PyStr.eqb v (str "--") then PEmptyList else PStr v.
(** * Facts about rounding *)

Module FloatFacts.

Lemma unit_pos : 0 < unit.
Proof. unfold unit. apply Z.pow_pos_nonneg; lia. Qed.

(** [truncate] is the quotient by [unit], rounded toward zero *)
Lemma truncate_quot n : truncate n = Z.quot n unit.
Proof.
  pose proof unit_pos as Hu. unfold truncate.
  destruct (Z.ltb_spec n 0) as [Hn | Hn].
  - rewrite Z.shiftr_div_pow2 by lia. fold unit.
    rewrite <- (Z.opp_involutive n) at 2.
    rewrite Z.quot_opp_l by lia.
    rewrite Z.quot_div_nonneg by lia. reflexivity.
  - rewrite Z.shiftr_div_pow2 by lia. fold unit.
    now rewrite Z.quot_div_nonneg by lia.
Qed.

Lemma truncate_nonneg n : 0 <= n -> truncate n = n / unit.
Proof.
  intros H. rewrite truncate_quot.
  apply Z.quot_div_nonneg; [assumption | apply unit_pos].
Qed.

Lemma spacing_pos fl : 0 < spacing fl.
Proof. unfold spacing. apply Z.pow_pos_nonneg; lia. Qed.

Lemma compare_le_mono x x' t : x <= x' -> cmp_le (x ?= t) (x' ?= t).
Proof.
  intros H.
  destruct (Z.compare_spec x t), (Z.compare_spec x' t); simpl; lia.
Qed.

(** the rounded value is one of the two neighbours on the grid *)
Lemma rne_cases fl c :
  rne fl c = fl / spacing fl * spacing fl
  \/ rne fl c = (fl / spacing fl + 1) * spacing fl.
Proof.
  unfold rne.
  destruct (c _); auto.
  destruct (Z.even _); auto.
Qed.

Lemma rne_nonneg fl c : 0 <= fl -> 0 <= rne fl c.
Proof.
  intros H.
  pose proof (spacing_pos fl) as Hs.
  assert (0 <= fl / spacing fl) by (apply Z.div_pos; lia).
  destruct (rne_cases fl c) as [-> | ->]; nia.
Qed.

Lemma spacing_small fl : Z.log2 fl <= 52 -> spacing fl = 1.
Proof.
  intros H. unfold spacing. rewrite Z.max_r by lia. reflexivity.
Qed.

Lemma spacing_large fl :
  52 <= Z.log2 fl -> 2 ^ Z.log2 fl = 2 ^ 52 * spacing fl.
Proof.
  intros H. unfold spacing. rewrite Z.max_l by lia.
  rewrite <- Z.pow_add_r by lia. f_equal. lia.
Qed.

(** rounding stays inside the binade of [fl], upper end included *)
Lemma rne_upper fl c : 0 <= fl -> rne fl c <= 2 ^ (Z.log2 fl + 1).
Proof.
  intros H.
  assert (Hlt : fl < 2 ^ (Z.log2 fl + 1)).
  { destruct (Z.eq_dec fl 0) as [-> | Hne]; [reflexivity|].
    replace (Z.log2 fl + 1) with (Z.succ (Z.log2 fl)) by lia.
    apply Z.log2_spec; lia. }
  destruct (Z_le_gt_dec (Z.log2 fl) 52) as [Hs | Hl].
  - pose proof (spacing_small fl Hs) as E.
    destruct (rne_cases fl c) as [-> | ->]; rewrite E, Z.div_1_r; lia.
  - assert (E : 2 ^ (Z.log2 fl + 1) = 2 ^ 53 * spacing fl).
    { rewrite Z.pow_add_r by (try apply Z.log2_nonneg; lia).
      rewrite spacing_large by lia. change (2 ^ 53) with (2 ^ 52 * 2 ^ 1). ring. }
    pose proof (spacing_pos fl) as Hp.
    assert (fl / spacing fl < 2 ^ 53).
    { apply Z.div_lt_upper_bound; [lia|]. rewrite Z.mul_comm. lia. }
    assert (0 <= fl / spacing fl) by (apply Z.div_pos; lia).
    rewrite E.
    destruct (rne_cases fl c) as [-> | ->]; nia.
Qed.

Lemma rne_lower fl c : 0 < fl -> 2 ^ Z.log2 fl <= rne fl c.
Proof.
  intros H.
  assert (Hle : 2 ^ Z.log2 fl <= fl) by (apply Z.log2_spec; lia).
  destruct (Z_le_gt_dec (Z.log2 fl) 52) as [Hs | Hl].
  - pose proof (spacing_small fl Hs) as E.
    destruct (rne_cases fl c) as [-> | ->]; rewrite E, Z.div_1_r; lia.
  - pose proof (spacing_pos fl) as Hp.
    rewrite spacing_large in * by lia.
    assert (2 ^ 52 <= fl / spacing fl).
    { apply Z.div_le_lower_bound; [lia|]. rewrite Z.mul_comm. lia. }
    destruct (rne_cases fl c) as [-> | ->]; nia.
Qed.

(** rounding to nearest is monotone *)
Lemma rne_mono fl c fl' c' :
  0 <= fl <= fl' ->
  (forall t, cmp_le (c t) (c' t)) ->
  rne fl c <= rne fl' c'.
Proof.
  intros [H0 Hle] Hc.
  pose proof (Z.log2_le_mono _ _ Hle) as Hlog.
  destruct (Z.eq_dec (Z.log2 fl) (Z.log2 fl')) as [Heq | Hne].
  - assert (Es : spacing fl' = spacing fl) by (unfold spacing; now rewrite Heq).
    pose proof (spacing_pos fl) as Hp.
    assert (Hk : fl / spacing fl <= fl' / spacing fl)
      by (apply Z.div_le_mono; lia).
    destruct (Z.eq_dec (fl / spacing fl) (fl' / spacing fl)) as [Ek | Nk].
    + unfold rne. rewrite Es, <- Ek.
      specialize (Hc ((2 * (fl / spacing fl) + 1) * spacing fl)).
      destruct (c _), (c' _); simpl in Hc; try contradiction;
        try destruct (Z.even (fl / spacing fl)); nia.
    + destruct (rne_cases fl c) as [-> | ->];
        destruct (rne_cases fl' c') as [-> | ->]; rewrite ?Es; nia.
  - assert (Hlt : Z.log2 fl + 1 <= Z.log2 fl') by lia.
    assert (0 < fl').
    { destruct (Z.eq_dec fl' 0) as [E | ]; [|lia].
      rewrite E in Hlt. pose proof (Z.log2_nonneg fl). simpl in Hlt. lia. }
    transitivity (2 ^ (Z.log2 fl + 1)); [now apply rne_upper|].
    transitivity (2 ^ Z.log2 fl'); [|now apply rne_lower].
    apply Z.pow_le_mono_r; lia.
Qed.

End FloatFacts.

(** * Facts about the integer square root [int(np.sqrt(n))] *)

Module SqrtFacts.
Import FloatFacts.

Lemma rint_nonneg n : 0 <= n -> 0 <= rint n.
Proof.
  intros H. apply rne_nonneg. rewrite Z.div_1_r.
  pose proof unit_pos. nia.
Qed.

Lemma rint_pos n : 0 < n -> 0 < rint n.
Proof.
  intros H. unfold rint. rewrite Z.div_1_r.
  pose proof unit_pos as Hu.
  assert (Hp : 0 < n * unit) by nia.
  pose proof (rne_lower (n * unit) (fun t => 2 * n * unit ?= t * 1) Hp).
  assert (0 < 2 ^ Z.log2 (n * unit))
    by (apply Z.pow_pos_nonneg; [lia | apply Z.log2_nonneg]).
  lia.
Qed.

Lemma rint_no_overflow n : 0 <= n < 2 ^ 64 -> rint n < 2 ^ 2098.
Proof.
  intros [H0 Hlt]. unfold rint. rewrite Z.div_1_r.
  pose proof unit_pos as Hu.
  eapply Z.le_lt_trans; [apply rne_upper; nia|].
  apply Z.pow_lt_mono_r; [lia | lia |].
  destruct (Z.eq_dec n 0) as [-> | Hne]; [simpl; lia|].
  unfold unit. rewrite Z.log2_mul_pow2 by lia.
  assert (Z.log2 n < 64) by (apply Z.log2_lt_pow2; lia).
  lia.
Qed.

Lemma rint_mono n n' : 0 <= n <= n' -> rint n <= rint n'.
Proof.
  intros [H0 Hle]. pose proof unit_pos as Hu.
  apply rne_mono.
  - rewrite !Z.div_1_r. nia.
  - intros t. apply compare_le_mono. nia.
Qed.

Lemma rsqrt_mono a a' : 0 <= a <= a' -> rsqrt a <= rsqrt a'.
Proof.
  intros [H0 Hle]. pose proof unit_pos as Hu.
  apply rne_mono.
  - split; [apply Z.sqrt_nonneg|]. apply Z.sqrt_le_mono. nia.
  - intros t. apply compare_le_mono. nia.
Qed.

Lemma rsqrt_nonneg a : 0 <= rsqrt a.
Proof. apply rne_nonneg, Z.sqrt_nonneg. Qed.

Lemma isq_nonneg n : 0 <= isq n.
Proof.
  unfold isq. apply Z.div_pos; [apply rsqrt_nonneg | apply unit_pos].
Qed.

Lemma isq_mono n n' : 0 <= n <= n' -> isq n <= isq n'.
Proof.
  intros H. unfold isq.
  apply Z.div_le_mono; [apply unit_pos|].
  apply rsqrt_mono. split; [apply rint_nonneg; lia | now apply rint_mono].
Qed.

Lemma of_Z_nonneg n : 0 <= n < 2 ^ 64 -> of_Z n = Fin (rint n).
Proof.
  intros H. unfold of_Z, of_ratio, pack.
  replace (n <? 0) with false by (symmetry; apply Z.ltb_ge; lia).
  rewrite Z.abs_eq by lia. fold (rint n).
  pose proof (rint_no_overflow n H).
  destruct (Z.leb_spec (2 ^ 2098) (rint n)); [lia | reflexivity].
Qed.

Lemma of_Z_neg n : - 2 ^ 63 <= n < 0 -> exists a, of_Z n = Fin a /\ a < 0.
Proof.
  intros H. unfold of_Z, of_ratio, pack.
  replace (n <? 0) with true by (symmetry; apply Z.ltb_lt; lia).
  fold (rint (Z.abs n)).
  assert (Hb : 0 <= Z.abs n < 2 ^ 64) by lia.
  pose proof (rint_no_overflow _ Hb).
  assert (0 < rint (Z.abs n)) by (apply rint_pos; lia).
  destruct (Z.leb_spec (2 ^ 2098) (rint (Z.abs n))); [lia|].
  eexists; split; [reflexivity | lia].
Qed.

Lemma int_sqrt_in_range n : 0 <= n < 2 ^ 64 -> int_sqrt n = Ok (isq n).
Proof.
  intros H. unfold int_sqrt, np_sqrt.
  replace (n <? - 2 ^ 63) with false by (symmetry; apply Z.ltb_ge; lia).
  replace (2 ^ 64 <=? n) with false by (symmetry; apply Z.leb_gt; lia).
  simpl orb. cbv iota. unfold bind.
  rewrite of_Z_nonneg by assumption.
  unfold Float.sqrt.
  pose proof (rint_nonneg n ltac:(lia)).
  replace (rint n <? 0) with false by (symmetry; apply Z.ltb_ge; lia).
  unfold to_int. f_equal. unfold isq.
  apply truncate_nonneg, rsqrt_nonneg.
Qed.

Lemma int_sqrt_negative n : n < 0 -> exists e, int_sqrt n = Raise e.
Proof.
  intros H. unfold int_sqrt, np_sqrt.
  destruct (Z.ltb_spec n (- 2 ^ 63)) as [Hs | Hs].
  - simpl. eauto.
  - replace (2 ^ 64 <=? n) with false by (symmetry; apply Z.leb_gt; lia).
    simpl orb. cbv iota. unfold bind.
    destruct (of_Z_neg n ltac:(lia)) as (a & -> & Ha).
    unfold Float.sqrt.
    replace (a <? 0) with true by (symmetry; apply Z.ltb_lt; lia).
    simpl. eauto.
Qed.

Lemma int_sqrt_too_large n : 2 ^ 64 <= n -> int_sqrt n = Raise TypeError.
Proof.
  intros H. unfold int_sqrt, np_sqrt.
  replace (2 ^ 64 <=? n) with true by (symmetry; apply Z.leb_le; lia).
  rewrite orb_true_r. reflexivity.
Qed.

(** [int(np.sqrt(n))] returns exactly on 0 <= n < 2^64 *)
Lemma int_sqrt_ok n s :
  int_sqrt n = Ok s -> 0 <= n < 2 ^ 64 /\ s = isq n.
Proof.
  intros H.
  destruct (Z_lt_le_dec n 0) as [Hn | Hn].
  - destruct (int_sqrt_negative n Hn) as [e He]. congruence.
  - destruct (Z_lt_le_dec n (2 ^ 64)) as [Hb | Hb].
    + rewrite int_sqrt_in_range in H by lia. inversion H. lia.
    + rewrite int_sqrt_too_large in H by lia. discriminate.
Qed.

End SqrtFacts.


(** * Agreement with the Standard Library's IEEE-754 specification

    The operations of [Float] are compared with [SpecFloat] at binary64
    (precision 53, maximal exponent 1024) on sample values: conversion of
    integers, correctly rounded quotients (as [float(str)] needs them),
    products and square roots, subnormal results and overflow included. *)

Module Conformance.

Example of_Z_agrees :
  map of_Z samples = map (fun z => of_spec (b64_of_Z z)) samples.
Proof. vm_compute. reflexivity. Qed.

Example of_ratio_agrees :
  map (fun q => of_ratio false 123456789 q) divisors
  = map (fun q => of_spec (b64_div 123456789 q)) divisors.
Proof. vm_compute. reflexivity. Qed.

Example mul_agrees :
  map (fun q => Float.mul (of_ratio false 15 q) (of_Z 1024)) divisors
  = map (fun q => of_spec (SFmul 53 1024 (b64_div 15 q) (b64_of_Z 1024)))
        divisors.
Proof. vm_compute. reflexivity. Qed.

Example sqrt_agrees :
  map (fun z => Float.sqrt (of_Z z)) samples
  = map (fun z => of_spec (SFsqrt 53 1024 (b64_of_Z z))) samples.
Proof. vm_compute. reflexivity. Qed.

Example sqrt_of_fraction_agrees :
  map (fun q => Float.sqrt (of_ratio false 12345 q)) divisors
  = map (fun q => of_spec (SFsqrt 53 1024 (b64_div 12345 q))) divisors.
Proof. vm_compute. reflexivity. Qed.

End Conformance.

(** * Facts about strings *)

Module StrFacts.
Import PyStr Builtins.

Lemma space_not_lower c : is_space c = true -> is_lower c = false.
Proof.
  unfold is_space, is_lower. intros H.
  apply orb_true_iff in H as [H | H]; apply andb_true_iff in H as [_ H];
    apply Z.leb_le in H;
    apply andb_false_iff; left; apply Z.leb_gt; lia.
Qed.

Lemma digit_not_lower c : is_digit c = true -> is_lower c = false.
Proof.
  unfold is_digit, is_lower. intros H.
  apply andb_true_iff in H as [_ H]. apply Z.leb_le in H.
  apply andb_false_iff; left; apply Z.leb_gt; lia.
Qed.

Lemma digit_not_space c : is_digit c = true -> is_space c = false.
Proof.
  unfold is_digit, is_space. intros H.
  apply andb_true_iff in H as [H1 H2].
  apply Z.leb_le in H1. apply Z.leb_le in H2.
  apply orb_false_iff; split; apply andb_false_iff; right; apply Z.leb_gt; lia.
Qed.

Lemma to_upper_space c : is_space c = true -> to_upper c = c.
Proof. intros H. unfold to_upper. now rewrite space_not_lower. Qed.

Lemma to_upper_digit c : is_digit c = true -> to_upper c = c.
Proof. intros H. unfold to_upper. now rewrite digit_not_lower. Qed.

Lemma upper_app s t : upper (s ++ t) = upper s ++ upper t.
Proof. apply map_app. Qed.

Lemma upper_spaces s : forallb is_space s = true -> upper s = s.
Proof.
  induction s as [|c s IH]; simpl; [reflexivity|].
  intros H. apply andb_true_iff in H as [Hc Hs].
  now rewrite to_upper_space, IH.
Qed.

Lemma upper_digits s : forallb is_digit s = true -> upper s = s.
Proof.
  induction s as [|c s IH]; simpl; [reflexivity|].
  intros H. apply andb_true_iff in H as [Hc Hs].
  now rewrite to_upper_digit, IH.
Qed.

(** *** strip *)

Lemma lstrip_spaces_app l s : forallb is_space l = true -> lstrip (l ++ s) = lstrip s.
Proof.
  induction l as [|c l IH]; simpl; [reflexivity|].
  intros H. apply andb_true_iff in H as [Hc Hl]. now rewrite Hc, IH.
Qed.

Lemma lstrip_spaces l : forallb is_space l = true -> lstrip l = [].
Proof.
  intros H. rewrite <- (app_nil_r l). now rewrite lstrip_spaces_app.
Qed.

Lemma lstrip_app_nonspace l c r :
  is_space c = false -> lstrip (l ++ c :: r) = lstrip l ++ c :: r.
Proof.
  intros Hc. induction l as [|a l IH]; simpl.
  - now rewrite Hc.
  - destruct (is_space a); [exact IH | reflexivity].
Qed.

Lemma lstrip_head c s : is_space c = false -> lstrip (c :: s) = c :: s.
Proof. intros H. simpl. now rewrite H. Qed.

Lemma forallb_rev {A} (f : A -> bool) l : forallb f (rev l) = forallb f l.
Proof.
  induction l as [|a l IH]; simpl; [reflexivity|].
  rewrite forallb_app, IH. simpl. rewrite andb_true_r. apply andb_comm.
Qed.

Lemma rstrip_app_spaces s r : forallb is_space r = true -> rstrip (s ++ r) = rstrip s.
Proof.
  intros H. unfold rstrip. rewrite rev_app_distr.
  rewrite lstrip_spaces_app; [reflexivity|]. now rewrite forallb_rev.
Qed.

Lemma rstrip_cons_nonspace c s :
  is_space c = false -> rstrip (c :: s) = c :: rstrip s.
Proof.
  intros H. unfold rstrip. simpl rev.
  rewrite lstrip_app_nonspace by assumption.
  rewrite rev_app_distr. reflexivity.
Qed.

Lemma rstrip_app_nonspace s c :
  is_space c = false -> rstrip (s ++ [c]) = s ++ [c].
Proof.
  intros H. unfold rstrip. rewrite rev_app_distr. simpl.
  rewrite H. simpl. now rewrite rev_involutive.
Qed.

Lemma rstrip_nil : rstrip [] = [].
Proof. reflexivity. Qed.

(** the result of [lstrip] is empty or starts with a non-space *)
Lemma lstrip_shape s :
  lstrip s = [] \/ exists c u, lstrip s = c :: u /\ is_space c = false.
Proof.
  induction s as [|a s IH]; simpl; [now left|].
  destruct (is_space a) eqn:E; [exact IH | right; eauto].
Qed.

Lemma strip_shape s :
  strip s = [] \/ exists c u, strip s = c :: u /\ is_space c = false.
Proof.
  unfold strip.
  destruct (lstrip_shape s) as [-> | (c & u & -> & Hc)]; [now left|].
  right. rewrite rstrip_cons_nonspace by assumption. eauto.
Qed.

(** [strip] ignores white space on both sides *)
Lemma strip_padding l s r :
  forallb is_space l = true -> forallb is_space r = true ->
  strip (l ++ s ++ r) = strip s.
Proof.
  intros Hl Hr. unfold strip. rewrite lstrip_spaces_app by assumption.
  destruct (lstrip_shape s) as [E | (c & u & E & Hc)].
  - rewrite E.
    assert (Hs : lstrip (s ++ r) = []).
    { clear -E Hr. induction s as [|a s IH]; simpl in *.
      - now apply lstrip_spaces.
      - destruct (is_space a); [auto | discriminate]. }
    now rewrite Hs.
  - assert (Hs : lstrip (s ++ r) = lstrip s ++ r).
    { clear -E Hc. revert c u E Hc.
      induction s as [|a s IH]; simpl; intros c u E Hc; [discriminate|].
      destruct (is_space a) eqn:Ea; [eapply IH; eauto | reflexivity]. }
    rewrite Hs. now apply rstrip_app_spaces.
Qed.

(** a string with no white space at either end is left alone *)
Lemma strip_clean c s d :
  is_space c = false -> is_space d = false ->
  strip (c :: s ++ [d]) = c :: s ++ [d].
Proof.
  intros Hc Hd. unfold strip. rewrite lstrip_head by assumption.
  change (c :: s ++ [d]) with ((c :: s) ++ [d]).
  now apply rstrip_app_nonspace.
Qed.

Lemma strip_clean1 c : is_space c = false -> strip [c] = [c].
Proof.
  intros Hc. unfold strip. rewrite lstrip_head by assumption.
  now apply (rstrip_app_nonspace []).
Qed.

Lemma strip_head c s :
  is_space c = false -> exists u, strip (c :: s) = c :: u.
Proof.
  intros H. unfold strip. rewrite lstrip_head, rstrip_cons_nonspace by assumption.
  eauto.
Qed.

Lemma in_lstrip c s : In c s -> is_space c = false -> In c (lstrip s).
Proof.
  induction s as [|a s IH]; simpl; [tauto|].
  intros [-> | H] Hc.
  - rewrite Hc. now left.
  - destruct (is_space a); [auto | now right].
Qed.

Lemma in_strip c s : In c s -> is_space c = false -> In c (strip s).
Proof.
  intros H Hc. unfold strip, rstrip.
  apply in_rev. rewrite rev_involutive.
  apply in_lstrip; [|assumption].
  apply -> in_rev. now apply in_lstrip.
Qed.

(** *** comparison, suffixes *)

Lemma eqb_refl s : eqb s s = true.
Proof.
  induction s as [|c s IH]; simpl; [reflexivity|].
  now rewrite Ascii.eqb_refl, IH.
Qed.

Lemma eqb_eq s t : eqb s t = true <-> s = t.
Proof.
  split; [|intros ->; apply eqb_refl].
  revert t. induction s as [|c s IH]; intros [|d t]; simpl; try discriminate; auto.
  intros H. apply andb_true_iff in H as [Hc Hs].
  apply Ascii.eqb_eq in Hc. apply IH in Hs. congruence.
Qed.

Lemma endswith_app body tail suffix :
  length tail = length suffix ->
  endswith (body ++ tail) suffix = eqb tail suffix.
Proof.
  intros H. unfold endswith.
  rewrite length_app.
  replace (length suffix <=? length body + length tail)%nat with true
    by (symmetry; apply Nat.leb_le; lia).
  replace (length body + length tail - length suffix)%nat
    with (length body + 0)%nat by lia.
  rewrite skipn_app, Nat.add_0_r, skipn_all.
  replace (length body - length body)%nat with 0%nat by lia.
  reflexivity.
Qed.

Lemma drop_last_app body tail n :
  length tail = n -> drop_last n (body ++ tail) = body.
Proof.
  intros H. unfold drop_last. rewrite length_app, H.
  replace (length body + n - n)%nat with (length body + 0)%nat by lia.
  rewrite firstn_app_2. simpl. apply app_nil_r.
Qed.

(** *** digits *)

Lemma span_digits_app ds rest :
  forallb is_digit ds = true ->
  match rest with c :: _ => is_digit c = false | [] => True end ->
  span_digits (ds ++ rest) = (ds, rest).
Proof.
  intros Hd Hr. induction ds as [|c ds IH]; cbn [app span_digits forallb] in *.
  - destruct rest as [|c r]; [reflexivity|]. cbn [span_digits]. now rewrite Hr.
  - apply andb_true_iff in Hd as [Hc Hd]. rewrite Hc, IH by assumption.
    reflexivity.
Qed.

Lemma span_digits_all ds :
  forallb is_digit ds = true -> span_digits ds = (ds, []).
Proof.
  intros H. rewrite <- (app_nil_r ds) at 1. now apply span_digits_app.
Qed.

Lemma span_digits_spec s ds rest :
  span_digits s = (ds, rest) -> forallb is_digit ds = true /\ s = ds ++ rest.
Proof.
  revert ds rest. induction s as [|c s IH]; simpl; intros ds rest H.
  - inversion H. auto.
  - destruct (is_digit c) eqn:Ec.
    + destruct (span_digits s) as [ds' rest'] eqn:E. inversion H; subst.
      destruct (IH _ _ eq_refl) as [Hd ->]. simpl. rewrite Ec. auto.
    + inversion H. auto.
Qed.

Lemma digit_value_range c : is_digit c = true -> 0 <= digit_value c <= 9.
Proof.
  unfold is_digit, digit_value. intros H.
  apply andb_true_iff in H as [H1 H2].
  apply Z.leb_le in H1. apply Z.leb_le in H2. lia.
Qed.

Lemma fold_digits_bounds ds acc :
  forallb is_digit ds = true -> 0 <= acc ->
  let v := fold_left (fun a c => 10 * a + digit_value c) ds acc in
  acc * 10 ^ Z.of_nat (length ds) <= v < (acc + 1) * 10 ^ Z.of_nat (length ds).
Proof.
  revert acc. induction ds as [|c ds IH]; intros acc Hd Ha.
  - simpl. lia.
  - simpl in Hd. apply andb_true_iff in Hd as [Hc Hd].
    pose proof (digit_value_range c Hc).
    cbn [fold_left length].
    specialize (IH (10 * acc + digit_value c) Hd ltac:(lia)).
    cbv zeta in IH |- *.
    rewrite Nat2Z.inj_succ, Z.pow_succ_r by lia.
    assert (0 < 10 ^ Z.of_nat (length ds)) by (apply Z.pow_pos_nonneg; lia).
    nia.
Qed.

Lemma digits_value_bounds ds :
  forallb is_digit ds = true ->
  0 <= digits_value ds < 10 ^ Z.of_nat (length ds).
Proof.
  intros H. pose proof (fold_digits_bounds ds 0 H ltac:(lia)) as B.
  cbv zeta in B. unfold digits_value. lia.
Qed.

(** *** underscores *)

Lemma underscores_ok_none prev s : no_underscore s -> underscores_ok prev s = true.
Proof.
  unfold no_underscore. revert prev.
  induction s as [|c s IH]; intros prev H; [reflexivity|].
  simpl in H. apply andb_true_iff in H as [Hc Hs].
  apply negb_true_iff, Ascii.eqb_neq in Hc.
  cbn [underscores_ok].
  destruct c as [[] [] [] [] [] [] [] []]; try apply IH; try assumption.
  contradiction Hc; reflexivity.
Qed.

Lemma remove_underscores_none s : no_underscore s -> remove_underscores s = s.
Proof.
  unfold no_underscore, remove_underscores.
  induction s as [|c s IH]; simpl; [reflexivity|].
  intros H. apply andb_true_iff in H as [Hc Hs]. now rewrite Hc, IH.
Qed.

Lemma digits_no_underscore s : forallb is_digit s = true -> no_underscore s.
Proof.
  unfold no_underscore. induction s as [|c s IH]; simpl; [reflexivity|].
  intros H. apply andb_true_iff in H as [Hc Hs]. rewrite IH by assumption.
  rewrite andb_true_r. apply negb_true_iff, Ascii.eqb_neq.
  intros ->. discriminate.
Qed.

Lemma no_underscore_app s t :
  no_underscore s -> no_underscore t -> no_underscore (s ++ t).
Proof. unfold no_underscore. intros. rewrite forallb_app. now apply andb_true_iff. Qed.

(** the first character survives the removal of valid underscores *)
Lemma remove_underscores_head s :
  underscores_ok None s = true ->
  match s with
  | [] => remove_underscores s = []
  | c :: s' => remove_underscores s = c :: remove_underscores s'
  end.
Proof.
  destruct s as [|c s]; [reflexivity|].
  intros H. unfold remove_underscores. cbn [filter].
  destruct (Ascii.eqb c "_"%char) eqn:E; [|reflexivity].
  apply Ascii.eqb_eq in E. subst c. simpl in H. discriminate.
Qed.

Lemma in_remove_underscores c s :
  In c s -> c <> "_"%char -> In c (remove_underscores s).
Proof.
  intros H Hc. unfold remove_underscores. apply filter_In. split; [assumption|].
  apply negb_true_iff, Ascii.eqb_neq. assumption.
Qed.

(** *** the white space that [int()] and [float()] skip *)

Lemma not_space_not_c_space c : is_space c = false -> is_c_space c = false.
Proof.
  unfold is_space, is_c_space. intros H.
  apply orb_false_iff in H as [H1 H2].
  apply orb_false_iff. split; [exact H1|].
  apply andb_false_iff in H2. apply Z.eqb_neq. intros E. rewrite E in H2.
  destruct H2; discriminate.
Qed.

Lemma skip_spaces_head c s :
  is_c_space c = false -> skip_spaces (c :: s) = c :: s.
Proof. intros H. simpl. now rewrite H. Qed.

Lemma skip_spaces_app_nonspace l c r :
  is_c_space c = false -> skip_spaces (l ++ c :: r) = skip_spaces l ++ c :: r.
Proof.
  intros Hc. induction l as [|a l IH]; simpl.
  - now rewrite Hc.
  - destruct (is_c_space a); [exact IH | reflexivity].
Qed.

(** a literal that starts with something else than white space keeps its
    first character *)
Lemma trim_head c s : is_c_space c = false -> exists u, trim (c :: s) = c :: u.
Proof.
  intros H. unfold trim. rewrite skip_spaces_head by assumption.
  simpl rev. rewrite skip_spaces_app_nonspace by assumption.
  rewrite rev_app_distr. simpl. eauto.
Qed.

Lemma in_skip_spaces c s :
  In c s -> is_c_space c = false -> In c (skip_spaces s).
Proof.
  induction s as [|a s IH]; simpl; [tauto|].
  intros [-> | H] Hc.
  - rewrite Hc. now left.
  - destruct (is_c_space a); [auto | now right].
Qed.

Lemma in_trim c s : In c s -> is_c_space c = false -> In c (trim s).
Proof.
  intros H Hc. unfold trim.
  apply in_rev. rewrite rev_involutive.
  apply in_skip_spaces; [|assumption].
  apply -> in_rev. now apply in_skip_spaces.
Qed.

Lemma skip_spaces_clean s :
  forallb (fun c => negb (is_space c)) s = true -> skip_spaces s = s.
Proof.
  destruct s as [|c s]; [reflexivity|]. cbn [forallb skip_spaces].
  intros H. apply andb_true_iff in H as [Hc _].
  apply negb_true_iff in Hc. now rewrite (not_space_not_c_space c Hc).
Qed.

(** a string without white space is a literal as it stands *)
Lemma trim_no_space s :
  forallb (fun c => negb (is_space c)) s = true -> trim s = s.
Proof.
  intros H. unfold trim.
  rewrite (skip_spaces_clean s H), skip_spaces_clean.
  - apply rev_involutive.
  - now rewrite forallb_rev.
Qed.

Lemma trim_nil : trim [] = [].
Proof. reflexivity. Qed.

End StrFacts.

(** * The size planner: [calculate_dimensions] *)

Module DimensionFacts.
Import SqrtFacts.

Lemma bind_ok {A B} (r : result A) (k : A -> result B) b :
  (x <- r ;; k x) = Ok b -> exists a, r = Ok a /\ k a = Ok b.
Proof. destruct r; simpl; [eauto | discriminate]. Qed.

Lemma clamp_range v : 256 <= clamp v <= 8192.
Proof. unfold clamp. lia. Qed.

Lemma floordiv_ok a b q : floordiv a b = Ok q -> b <> 0 /\ q = a / b.
Proof.
  unfold floordiv. destruct (Z.eqb_spec b 0); [discriminate|].
  intros H; inversion H; auto.
Qed.

Lemma total_pixels_of_ok t bpp tp :
  total_pixels_of t bpp = Ok tp ->
  bpp / 8 <> 0 /\ tp = (t - 10 * 1024) / (bpp / 8).
Proof.
  unfold total_pixels_of. intros H.
  apply bind_ok in H as (b & Hb & H).
  apply floordiv_ok in Hb as [_ ->].
  now apply floordiv_ok in H.
Qed.

Lemma total_pixels_default t :
  total_pixels_of t 16 = Ok ((t - 10240) / 2).
Proof. reflexivity. Qed.

(** a plan exists exactly for pixel counts NumPy can take the root of *)
Lemma tier_dimensions_defined tp :
  (exists wh, tier_dimensions tp = Ok wh) <-> 0 <= tp < 2 ^ 64.
Proof.
  unfold tier_dimensions, tier_of. split.
  - intros [wh H].
    destruct (Z.ltb_spec tp (512 * 512)).
    { apply bind_ok in H as (s & Hs & _). apply int_sqrt_ok in Hs. lia. }
    destruct (Z.ltb_spec tp (1024 * 1024)); [lia|].
    destruct (Z.ltb_spec tp (2048 * 2048)); [lia|].
    apply bind_ok in H as (s & Hs & _). apply int_sqrt_ok in Hs. lia.
  - intros H.
    destruct (Z.ltb_spec tp (512 * 512)).
    { rewrite int_sqrt_in_range by lia. simpl. eauto. }
    destruct (Z.ltb_spec tp (1024 * 1024)); [simpl; eauto|].
    destruct (Z.ltb_spec tp (2048 * 2048)); [simpl; eauto|].
    rewrite int_sqrt_in_range by lia. simpl. eauto.
Qed.

Lemma tier_dimensions_raises tp :
  ~ 0 <= tp < 2 ^ 64 -> exists e, tier_dimensions tp = Raise e.
Proof.
  intros H. destruct (tier_dimensions tp) as [wh | e] eqn:E; [|eauto].
  exfalso. apply H. apply tier_dimensions_defined. eauto.
Qed.

(** the pixel count of the unclamped plan, tier by tier *)
Lemma tier_dimensions_area tp w h :
  tier_dimensions tp = Ok (w, h) ->
  w * h =
    match tier_of tp with
    | Small | VeryLarge => isq tp * isq tp
    | Medium => 1024 * (tp / 1024)
    | Large => 2048 * (tp / 2048)
    end.
Proof.
  unfold tier_dimensions. destruct (tier_of tp); intros H.
  - apply bind_ok in H as (s & Hs & H). apply int_sqrt_ok in Hs as [_ ->].
    now inversion H.
  - simpl in H. now inversion H.
  - simpl in H. now inversion H.
  - apply bind_ok in H as (s & Hs & H). apply int_sqrt_ok in Hs as [_ ->].
    now inversion H.
Qed.

Lemma tier_dimensions_nonneg tp w h :
  tier_dimensions tp = Ok (w, h) -> 0 <= tp.
Proof.
  intros H.
  assert (0 <= tp < 2 ^ 64) by (apply tier_dimensions_defined; eauto).
  lia.
Qed.

End DimensionFacts.

(** C5. Whenever [calculate_dimensions] returns a plan, its width and its
    height both lie in the closed interval from 256 to 8192. *)
Theorem calculate_dimensions_clamped :
  forall target_size_bytes bits_per_pixel width height,
    calculate_dimensions target_size_bytes bits_per_pixel = Ok (width, height) ->
    (256 <= width <= 8192) /\ (256 <= height <= 8192).
Proof.
  intros t bpp w h H. unfold calculate_dimensions in H.
  apply DimensionFacts.bind_ok in H as ([w0 h0] & _ & H).
  inversion H; subst.
  split; apply DimensionFacts.clamp_range.
Qed.

Lemma calculate_dimensions_clamped_witness :
  calculate_dimensions 1048576 16 = Ok (1024, 507)
  /\ ((256 <= 1024 <= 8192) /\ (256 <= 507 <= 8192)).
Proof.
  assert (E : calculate_dimensions 1048576 16 = Ok (1024, 507))
    by (vm_compute; reflexivity).
  split; [exact E | exact (calculate_dimensions_clamped 1048576 16 1024 507 E)].
Defined.

(** C7. Within one aspect-ratio tier the pixel count width * height of the
    plan before clamping does not decrease when the target size grows: for
    two targets of the same tier, the larger one gets at least as many
    pixels.  (Stated for every sample depth of at least one byte; the script
    always uses 16 bits.) *)
Theorem unclamped_pixel_count_monotone :
  forall bits_per_pixel target1 target2 pixels1 pixels2 w1 h1 w2 h2,
    8 <= bits_per_pixel ->
    target1 <= target2 ->
    total_pixels_of target1 bits_per_pixel = Ok pixels1 ->
    total_pixels_of target2 bits_per_pixel = Ok pixels2 ->
    tier_of pixels1 = tier_of pixels2 ->
    unclamped_dimensions target1 bits_per_pixel = Ok (w1, h1) ->
    unclamped_dimensions target2 bits_per_pixel = Ok (w2, h2) ->
    w1 * h1 <= w2 * h2.
Proof.
  intros bpp t1 t2 p1 p2 w1 h1 w2 h2 Hbpp Hle Hp1 Hp2 Htier H1 H2.
  unfold unclamped_dimensions in H1, H2.
  rewrite Hp1 in H1. rewrite Hp2 in H2. simpl in H1, H2.
  apply DimensionFacts.total_pixels_of_ok in Hp1 as [_ E1].
  apply DimensionFacts.total_pixels_of_ok in Hp2 as [_ E2].
  assert (Hb : 1 <= bpp / 8) by (apply Z.div_le_lower_bound; lia).
  assert (Hp : p1 <= p2) by (subst; apply Z.div_le_mono; lia).
  pose proof (DimensionFacts.tier_dimensions_nonneg _ _ _ H1) as Hn1.
  rewrite (DimensionFacts.tier_dimensions_area _ _ _ H1).
  rewrite (DimensionFacts.tier_dimensions_area _ _ _ H2).
  rewrite <- Htier.
  assert (Hs : isq p1 * isq p1
               <= isq p2 * isq p2).
  { pose proof (SqrtFacts.isq_nonneg p1).
    pose proof (SqrtFacts.isq_mono p1 p2 ltac:(lia)). nia. }
  destruct (tier_of p1); try exact Hs.
  - assert (p1 / 1024 <= p2 / 1024) by (apply Z.div_le_mono; lia). lia.
  - assert (p1 / 2048 <= p2 / 2048) by (apply Z.div_le_mono; lia). lia.
Qed.

Lemma unclamped_pixel_count_monotone_witness :
  1024 * 507 <= 1024 * 511.
Proof.
  apply (unclamped_pixel_count_monotone 16 1048576 1058576 519168 524168
           1024 507 1024 511).
  - lia.
  - lia.
  - vm_compute; reflexivity.
  - vm_compute; reflexivity.
  - vm_compute; reflexivity.
  - vm_compute; reflexivity.
  - vm_compute; reflexivity.
Defined.

(** C9, as the claim states it, fails: a target of 2^65 + 10240 bytes is at
    least 10240 and yet no plan is returned, because the pixel count 2^64 is
    outside the integers [np.sqrt] accepts. *)
Lemma calculate_dimensions_huge_target_raises :
  10240 <= 2 ^ 65 + 10240
  /\ calculate_dimensions (2 ^ 65 + 10240) 16 = Raise TypeError
  /\ ~ ((exists plan, calculate_dimensions (2 ^ 65 + 10240) 16 = Ok plan)
        <-> 10240 <= 2 ^ 65 + 10240).
Proof.
  assert (E : calculate_dimensions (2 ^ 65 + 10240) 16 = Raise TypeError)
    by (vm_compute; reflexivity).
  split; [lia|]. split; [exact E|].
  intros [_ H]. destruct H as [plan H]; [lia|].
  rewrite E in H. discriminate.
Qed.

(** C9, amended. With the default sample depth, every target below 10240
    bytes makes [calculate_dimensions] raise, and a plan is returned exactly
    for targets from 10240 up to, but excluding, 2^65 + 10240 bytes. *)
Theorem calculate_dimensions_defined_range :
  forall target_size_bytes,
    (target_size_bytes < 10240 ->
     exists e, calculate_dimensions target_size_bytes 16 = Raise e)
    /\ ((exists plan, calculate_dimensions target_size_bytes 16 = Ok plan)
        <-> 10240 <= target_size_bytes < 2 ^ 65 + 10240).
Proof.
  intros t.
  assert (Hcalc : calculate_dimensions t 16 =
            (wh <- tier_dimensions ((t - 10240) / 2) ;;
             let (width, height) := wh : Z * Z in
             Ok (clamp width, clamp height))) by reflexivity.
  assert (Hrange : 0 <= (t - 10240) / 2 < 2 ^ 64
                   <-> 10240 <= t < 2 ^ 65 + 10240).
  { change (2 ^ 65) with (2 * 2 ^ 64).
    pose proof (Z.div_mod (t - 10240) 2 ltac:(lia)).
    pose proof (Z.mod_pos_bound (t - 10240) 2 ltac:(lia)). lia. }
  split.
  - intros Hlt. rewrite Hcalc.
    destruct (DimensionFacts.tier_dimensions_raises ((t - 10240) / 2))
      as [e He]; [lia|].
    rewrite He. simpl. eauto.
  - rewrite <- Hrange, <- DimensionFacts.tier_dimensions_defined, Hcalc.
    split.
    + intros [plan H]. apply DimensionFacts.bind_ok in H as (wh & H & _). eauto.
    + intros [[w h] H]. rewrite H. simpl. eauto.
Qed.

Lemma calculate_dimensions_defined_range_witness :
  (exists e, calculate_dimensions 10239 16 = Raise e)
  /\ (exists plan, calculate_dimensions 10240 16 = Ok plan)
  /\ (exists plan, calculate_dimensions 1048576 16 = Ok plan).
Proof.
  split; [|split].
  - apply (proj1 (calculate_dimensions_defined_range 10239)). lia.
  - apply (proj2 (calculate_dimensions_defined_range 10240)). lia.
  - apply (proj2 (calculate_dimensions_defined_range 1048576)). lia.
Defined.

(** * More on the size planner *)

Module ExactFacts.
Import FloatFacts SqrtFacts.

(** a value on the grid rounds to itself *)
Lemma rne_exact fl c :
  0 <= fl ->
  fl mod spacing fl = 0 ->
  c (2 * fl + spacing fl) = Lt ->
  rne fl c = fl.
Proof.
  intros H0 Hm Hc. pose proof (spacing_pos fl) as Hs.
  assert (E : fl / spacing fl * spacing fl = fl).
  { rewrite Z.mul_comm. symmetry. apply Z.div_exact; lia. }
  unfold rne.
  replace ((2 * (fl / spacing fl) + 1) * spacing fl)
    with (2 * fl + spacing fl) by (rewrite <- E at 1; ring).
  now rewrite Hc, E.
Qed.

(** [m] units of one, [m] an integer of at most 53 significant bits times a
    power of two, is on the grid *)
Lemma spacing_divides_int v j :
  0 <= v < 2 ^ 53 -> 0 <= j ->
  (v * 2 ^ j * unit) mod spacing (v * 2 ^ j * unit) = 0.
Proof.
  intros Hv Hj.
  destruct (Z.eq_dec v 0) as [-> | Hne].
  { rewrite !Z.mul_0_l. apply Z.mod_0_l.
    pose proof (spacing_pos 0). lia. }
  assert (Hl : Z.log2 v <= 52).
  { assert (Z.log2 v < 53) by (apply Z.log2_lt_pow2; lia). lia. }
  pose proof (Z.log2_nonneg v) as Hl0.
  assert (E : v * 2 ^ j * unit = v * 2 ^ (j + 1074)).
  { unfold unit. rewrite Z.pow_add_r by lia. ring. }
  rewrite E. unfold spacing.
  rewrite Z.log2_mul_pow2 by lia.
  rewrite Z.max_l by lia.
  replace (j + 1074) with ((52 - Z.log2 v) + (j + 1074 + Z.log2 v - 52)) at 1 by lia.
  rewrite Z.pow_add_r by lia.
  rewrite Z.mul_assoc. apply Z.mod_mul.
  apply Z.pow_nonzero; lia.
Qed.

(** such a value is the double nearest to any ratio equal to it *)
Lemma of_ratio_exact p q v j :
  0 <= v < 2 ^ 53 -> 0 <= j <= 900 -> 0 <= p -> 0 < q ->
  p = v * 2 ^ j * q ->
  of_ratio false p q = Fin (v * 2 ^ j * unit).
Proof.
  intros Hv Hj Hp Hq E. pose proof unit_pos as Hu.
  set (m := v * 2 ^ j) in *.
  assert (Hm : 0 <= m) by (subst m; assert (0 < 2 ^ j) by (apply Z.pow_pos_nonneg; lia); nia).
  unfold of_ratio.
  assert (Hfl : p * unit / q = m * unit).
  { rewrite E. replace (m * q * unit) with (m * unit * q) by ring.
    apply Z.div_mul. lia. }
  rewrite Hfl.
  rewrite rne_exact.
  - unfold pack.
    assert (m * unit < 2 ^ 2098).
    { subst m. unfold unit.
      assert (2 ^ j <= 2 ^ 900) by (apply Z.pow_le_mono_r; lia).
      assert (0 < 2 ^ j) by (apply Z.pow_pos_nonneg; lia).
      assert (v * 2 ^ j < 2 ^ 53 * 2 ^ 900) by nia.
      change (2 ^ 2098) with (2 ^ 53 * 2 ^ 900 * 2 ^ 71 * 2 ^ 1074).
      assert (0 < 2 ^ 1074) by (apply Z.pow_pos_nonneg; lia).
      assert (1 <= 2 ^ 71) by (apply Z.pow_le_mono_r with (b := 0); lia || lia).
      nia. }
    destruct (Z.leb_spec (2 ^ 2098) (m * unit)); [lia | reflexivity].
  - nia.
  - subst m. now apply spacing_divides_int.
  - pose proof (spacing_pos (m * unit)) as Hs.
    apply Z.compare_lt_iff. rewrite E. nia.
Qed.

Lemma of_Z_exact n : 0 <= n < 2 ^ 53 -> of_Z n = Fin (n * unit).
Proof.
  intros H. unfold of_Z.
  replace (n <? 0) with false by (symmetry; apply Z.ltb_ge; lia).
  rewrite Z.abs_eq by lia.
  rewrite (of_ratio_exact n 1 n 0); try lia.
  f_equal. change (2 ^ 0) with 1. ring.
Qed.

Lemma rint_exact n : 0 <= n < 2 ^ 53 -> rint n = n * unit.
Proof.
  intros H.
  assert (E : Fin (rint n) = Fin (n * unit)).
  { rewrite <- of_Z_nonneg.
    - now apply of_Z_exact.
    - assert (2 ^ 53 < 2 ^ 64) by (apply Z.pow_lt_mono_r; lia). lia. }
  now inversion E.
Qed.

Lemma rsqrt_zero : rsqrt 0 = 0.
Proof.
  unfold rsqrt. change (0 * unit) with 0. change (Z.sqrt 0) with 0.
  apply rne_exact; [lia | reflexivity | reflexivity].
Qed.

(** Below 2^52 the rounded square root never reaches the next integer:
    [int(np.sqrt(n))] is the exact integer square root. *)
Lemma isq_exact n : 0 <= n < 2 ^ 52 -> isq n = Z.sqrt n.
Proof.
  intros [H0 Hn]. pose proof unit_pos as Hu.
  unfold isq.
  rewrite rint_exact
    by (assert (2 ^ 52 < 2 ^ 53) by (apply Z.pow_lt_mono_r; lia); lia).
  destruct (Z.eq_dec n 0) as [-> | Hne].
  { change (0 * unit) with 0. rewrite rsqrt_zero. reflexivity. }
  set (s := Z.sqrt n).
  pose proof (Z.sqrt_spec n H0) as Hs. fold s in Hs. cbv zeta in Hs.
  replace (Z.succ s) with (s + 1) in Hs by lia.
  assert (Hs1 : 1 <= s).
  { destruct (Z_lt_le_dec s 1); [|assumption].
    pose proof (Z.sqrt_nonneg n) as Hq. fold s in Hq. nia. }
  assert (Hs26 : s + 1 <= 2 ^ 26).
  { destruct (Z_lt_le_dec (2 ^ 26) (s + 1)); [|assumption].
    change (2 ^ 52) with (2 ^ 26 * 2 ^ 26) in Hn. nia. }
  unfold rsqrt.
  set (R0 := Z.sqrt (n * unit * unit)).
  set (c := fun t => 4 * (n * unit) * unit ?= t * t).
  assert (H1 : s * unit <= R0) by (apply Z.sqrt_le_square; nia).
  assert (H2 : R0 < (s + 1) * unit) by (apply Z.sqrt_lt_square; nia).
  assert (HR0 : 0 < R0) by nia.
  set (L := Z.log2 R0).
  pose proof (Z.log2_spec R0 HR0) as HL. fold L in HL.
  replace (Z.succ L) with (L + 1) in HL by lia.
  assert (HL1 : 1074 <= L).
  { apply Z.log2_le_pow2; [lia|]. fold unit. nia. }
  assert (HL2 : L < 1100).
  { apply Z.log2_lt_pow2; [lia|].
    change (2 ^ 1100) with (2 ^ 26 * unit). nia. }
  assert (Hsp : spacing R0 = 2 ^ (L - 52)).
  { unfold spacing. fold L. rewrite Z.max_l by lia. reflexivity. }
  set (sp := spacing R0) in *.
  set (u := 2 ^ (1126 - L)).
  assert (Hunit : unit = u * sp).
  { unfold u. rewrite Hsp, <- Z.pow_add_r by lia. unfold unit. f_equal. lia. }
  assert (Hsp0 : 0 < sp) by apply spacing_pos.
  assert (Hu0 : 0 < u) by (apply Z.pow_pos_nonneg; lia).
  assert (Hsu : s + 1 <= u).
  { assert (0 < 2 ^ L) by (apply Z.pow_pos_nonneg; lia).
    assert (2 ^ L * u = 2 ^ 52 * unit).
    { unfold u, unit. rewrite <- !Z.pow_add_r by lia. f_equal. lia. }
    assert ((s + 1) * (s + 1) <= 2 ^ 52)
      by (change (2 ^ 52) with (2 ^ 26 * 2 ^ 26); nia).
    assert ((s + 1) * 2 ^ L < (s + 1) * ((s + 1) * unit)) by nia.
    assert ((s + 1) * ((s + 1) * unit) <= 2 ^ 52 * unit) by nia.
    nia. }
  set (k := R0 / sp).
  assert (Hk1 : s * u <= k) by (apply Z.div_le_lower_bound; [lia | nia]).
  assert (Hk2 : k < (s + 1) * u) by (apply Z.div_lt_upper_bound; [lia | nia]).
  assert (Hkey : k + 1 = (s + 1) * u -> c ((2 * k + 1) * sp) = Lt).
  { intros Ek. unfold c. apply Z.compare_lt_iff.
    replace ((2 * k + 1) * sp) with (2 * ((s + 1) * unit) - sp) by nia.
    assert ((s + 1) * sp <= unit) by nia.
    assert (n + 1 <= (s + 1) * (s + 1)) by lia.
    assert (4 * (n * unit) * unit + 4 * unit * unit
            <= 4 * ((s + 1) * unit) * ((s + 1) * unit)) by nia.
    nia. }
  assert (HR : s * unit <= rne R0 c < (s + 1) * unit).
  { unfold rne. fold sp k.
    destruct (Z.eq_dec (k + 1) ((s + 1) * u)) as [Ek | Nk].
    - rewrite (Hkey Ek). nia.
    - destruct (c _); try destruct (Z.even k); nia. }
  symmetry. apply Z.div_unique with (r := rne R0 c - s * unit); lia.
Qed.

End ExactFacts.

Module PlannerFacts.
Import FloatFacts SqrtFacts ExactFacts DimensionFacts.

Lemma calculate_dimensions_default t :
  calculate_dimensions t 16
  = (wh <- tier_dimensions ((t - 10240) / 2) ;;
     let (width, height) := wh : Z * Z in
     Ok (clamp width, clamp height)).
Proof. reflexivity. Qed.

(** the plan in terms of the exact pixel count *)
Lemma calculate_dimensions_area t w h :
  calculate_dimensions t 16 = Ok (w, h) ->
  0 <= (t - 10240) / 2 < 2 ^ 64 /\ w * h = plan_area ((t - 10240) / 2).
Proof.
  rewrite calculate_dimensions_default. intros H.
  apply bind_ok in H as ([w0 h0] & H & E).
  split; [apply tier_dimensions_defined; eauto|].
  inversion E; subst. unfold plan_area.
  unfold tier_dimensions in H. destruct (tier_of _).
  - apply bind_ok in H as (s & Hs & H). apply int_sqrt_ok in Hs as [_ ->].
    now inversion H.
  - simpl in H. now inversion H.
  - simpl in H. now inversion H.
  - apply bind_ok in H as (s & Hs & H). apply int_sqrt_ok in Hs as [_ ->].
    now inversion H.
Qed.

Lemma half_range t : 2 * ((t - 10240) / 2) <= t - 10240 <= 2 * ((t - 10240) / 2) + 1.
Proof.
  pose proof (Z.div_mod (t - 10240) 2 ltac:(lia)).
  pose proof (Z.mod_pos_bound (t - 10240) 2 ltac:(lia)). lia.
Qed.

Lemma isq_small n : 0 <= n < 512 * 512 -> 0 <= isq n <= 511.
Proof.
  intros H. rewrite isq_exact
    by (assert (512 * 512 < 2 ^ 52) by reflexivity; lia).
  split; [apply Z.sqrt_nonneg|].
  assert (Z.sqrt n < 512) by (apply Z.sqrt_lt_square; lia). lia.
Qed.

Lemma isq_very_large n : 2048 * 2048 <= n < 2 ^ 64 -> 2048 <= isq n.
Proof.
  intros H. transitivity (isq (2048 * 2048)).
  - rewrite isq_exact by (split; [lia | reflexivity]). reflexivity.
  - apply isq_mono. lia.
Qed.

Lemma plan_area_mono n1 n2 :
  0 <= n1 <= n2 -> n2 < 2 ^ 64 -> plan_area n1 <= plan_area n2.
Proof.
  intros H Hb. unfold plan_area, tier_of.
  pose proof (isq_mono n1 n2 H) as Hm.
  pose proof (isq_nonneg n1) as Hq1.
  assert (D1 : n1 / 1024 <= n2 / 1024) by (apply Z.div_le_mono; lia).
  assert (D2 : n1 / 2048 <= n2 / 2048) by (apply Z.div_le_mono; lia).
  pose proof (Z.div_mod n1 1024 ltac:(lia)) as M1.
  pose proof (Z.mod_pos_bound n1 1024 ltac:(lia)) as M1'.
  pose proof (Z.div_mod n2 1024 ltac:(lia)) as M2.
  pose proof (Z.mod_pos_bound n2 1024 ltac:(lia)) as M2'.
  pose proof (Z.div_mod n1 2048 ltac:(lia)) as N1.
  pose proof (Z.mod_pos_bound n1 2048 ltac:(lia)) as N1'.
  pose proof (Z.div_mod n2 2048 ltac:(lia)) as N2.
  pose proof (Z.mod_pos_bound n2 2048 ltac:(lia)) as N2'.
  unfold clamp.
  destruct (Z.ltb_spec n1 (512 * 512)) as [A1 | A1];
    [pose proof (isq_small n1 ltac:(lia)) |
     destruct (Z.ltb_spec n1 (1024 * 1024)) as [B1 | B1];
     [| destruct (Z.ltb_spec n1 (2048 * 2048)) as [C1 | C1];
        [| pose proof (isq_very_large n1 ltac:(lia))]]];
  (destruct (Z.ltb_spec n2 (512 * 512)) as [A2 | A2];
    [pose proof (isq_small n2 ltac:(lia)) |
     destruct (Z.ltb_spec n2 (1024 * 1024)) as [B2 | B2];
     [| destruct (Z.ltb_spec n2 (2048 * 2048)) as [C2 | C2];
        [| pose proof (isq_very_large n2 ltac:(lia))]]]);
  try lia;
  generalize dependent (isq n1); generalize dependent (isq n2);
  generalize dependent (n1 / 1024); generalize dependent (n2 / 1024);
  generalize dependent (n1 / 2048); generalize dependent (n2 / 2048);
  intros; nia.
Qed.

(** from 65536 pixels on the plan never holds more pixels than asked for *)
Lemma plan_area_le n : 256 * 256 <= n < 2 ^ 64 -> plan_area n <= n.
Proof.
  intros H. unfold plan_area, tier_of, clamp.
  pose proof (Z.div_mod n 1024 ltac:(lia)) as M1.
  pose proof (Z.mod_pos_bound n 1024 ltac:(lia)) as M1'.
  pose proof (Z.div_mod n 2048 ltac:(lia)) as N1.
  pose proof (Z.mod_pos_bound n 2048 ltac:(lia)) as N1'.
  assert (Hsq : n < 2 ^ 52 ->
                isq n = Z.sqrt n /\ Z.sqrt n * Z.sqrt n <= n /\ 256 <= Z.sqrt n).
  { intros Hn. split; [apply isq_exact; lia|].
    split; [apply Z.sqrt_spec; lia|].
    apply Z.sqrt_le_square; lia. }
  destruct (Z.ltb_spec n (512 * 512)) as [A | A].
  { destruct Hsq as (-> & Hs & Hl);
      [assert (512 * 512 < 2 ^ 52) by reflexivity; lia|].
    assert (Z.sqrt n < 512) by (apply Z.sqrt_lt_square; lia). nia. }
  destruct (Z.ltb_spec n (1024 * 1024)) as [B | B]; [nia|].
  destruct (Z.ltb_spec n (2048 * 2048)) as [C | C]; [nia|].
  destruct (Z_lt_le_dec n (2 ^ 52)) as [Hn | Hn].
  - destruct (Hsq Hn) as (-> & Hs & Hl). nia.
  - assert (2 ^ 52 = 8192 * 8192 * 2 ^ 26) by reflexivity.
    assert (0 < 2 ^ 26) by reflexivity.
    generalize dependent (isq n). intros. nia.
Qed.

(** and, short of the upper clamp, at most 16382 fewer *)
Lemma plan_area_close n :
  256 * 256 <= n < 8192 * 8192 -> n - plan_area n <= 16382.
Proof.
  intros H. unfold plan_area, tier_of, clamp.
  pose proof (Z.div_mod n 1024 ltac:(lia)) as M1.
  pose proof (Z.mod_pos_bound n 1024 ltac:(lia)) as M1'.
  pose proof (Z.div_mod n 2048 ltac:(lia)) as N1.
  pose proof (Z.mod_pos_bound n 2048 ltac:(lia)) as N1'.
  assert (Hn : n < 2 ^ 52) by (assert (8192 * 8192 < 2 ^ 52) by reflexivity; lia).
  rewrite isq_exact by lia.
  pose proof (Z.sqrt_spec n ltac:(lia)) as Hs. cbv zeta in Hs.
  replace (Z.succ (Z.sqrt n)) with (Z.sqrt n + 1) in Hs by lia.
  assert (256 <= Z.sqrt n) by (apply Z.sqrt_le_square; lia).
  assert (Z.sqrt n < 8192) by (apply Z.sqrt_lt_square; lia).
  destruct (Z.ltb_spec n (512 * 512)) as [A | A]; [nia|].
  destruct (Z.ltb_spec n (1024 * 1024)) as [B | B]; [nia|].
  destruct (Z.ltb_spec n (2048 * 2048)) as [C | C]; nia.
Qed.

End PlannerFacts.

(** X1. The pixel count of the plan never decreases when the target
    grows, across the aspect-ratio tiers and the clamp as well as within
    them. *)
Theorem plan_grows_with_target :
  forall target1 target2 w1 h1 w2 h2,
    target1 <= target2 ->
    calculate_dimensions target1 16 = Ok (w1, h1) ->
    calculate_dimensions target2 16 = Ok (w2, h2) ->
    w1 * h1 <= w2 * h2.
Proof.
  intros t1 t2 w1 h1 w2 h2 Hle H1 H2.
  apply PlannerFacts.calculate_dimensions_area in H1 as [R1 ->].
  apply PlannerFacts.calculate_dimensions_area in H2 as [R2 ->].
  apply PlannerFacts.plan_area_mono; [|lia].
  split; [lia|]. apply Z.div_le_mono; lia.
Qed.

Lemma plan_grows_with_target_witness : 511 * 511 <= 1024 * 256.
Proof.
  apply (plan_grows_with_target 534527 534528 511 511 1024 256).
  - lia.
  - vm_compute; reflexivity.
  - vm_compute; reflexivity.
Defined.

(** X2. From a target of 141312 bytes on (65536 pixels), the planned
    payload, two bytes a pixel, plus the 10240 bytes of overhead never
    exceeds the target. *)
Theorem plan_fits_target :
  forall target width height,
    141312 <= target ->
    calculate_dimensions target 16 = Ok (width, height) ->
    2 * (width * height) + 10240 <= target.
Proof.
  intros t w h Ht H.
  apply PlannerFacts.calculate_dimensions_area in H as [R ->].
  pose proof (PlannerFacts.half_range t) as Hh.
  assert (256 * 256 <= (t - 10240) / 2) by (apply Z.div_le_lower_bound; lia).
  pose proof (PlannerFacts.plan_area_le ((t - 10240) / 2) ltac:(lia)). lia.
Qed.

Lemma plan_fits_target_witness : 2 * (1024 * 507) + 10240 <= 1048576.
Proof.
  apply (plan_fits_target 1048576 1024 507).
  - lia.
  - vm_compute; reflexivity.
Defined.

(** X3. For targets from 141312 bytes up to where the upper clamp sets in
    (10240 + 2 * 8192 * 8192 bytes), the planned payload plus overhead falls
    short of the target by at most 32765 bytes. *)
Theorem plan_close_to_target :
  forall target width height,
    141312 <= target < 10240 + 2 * (8192 * 8192) ->
    calculate_dimensions target 16 = Ok (width, height) ->
    target - (2 * (width * height) + 10240) <= 32765.
Proof.
  intros t w h Ht H.
  apply PlannerFacts.calculate_dimensions_area in H as [R ->].
  pose proof (PlannerFacts.half_range t) as Hh.
  assert (256 * 256 <= (t - 10240) / 2) by (apply Z.div_le_lower_bound; lia).
  assert ((t - 10240) / 2 < 8192 * 8192) by (apply Z.div_lt_upper_bound; lia).
  pose proof (PlannerFacts.plan_area_close ((t - 10240) / 2) ltac:(lia)). lia.
Qed.

Lemma plan_close_to_target_witness :
  104857600 - (2 * (7240 * 7240) + 10240) <= 32765.
Proof.
  apply (plan_close_to_target 104857600 7240 7240).
  - lia.
  - vm_compute; reflexivity.
Defined.

(** X4. Every target from 10240 up to 141311 bytes gets the smallest plan,
    256 x 256, whose payload alone (131072 bytes) is what a target of
    141312 bytes asks for: such files come out larger than requested. *)
Theorem small_targets_get_minimum_plan :
  forall target,
    10240 <= target < 141312 ->
    calculate_dimensions target 16 = Ok (256, 256).
Proof.
  intros t Ht. rewrite PlannerFacts.calculate_dimensions_default.
  pose proof (PlannerFacts.half_range t) as Hh.
  set (n := (t - 10240) / 2) in *.
  assert (Hn : 0 <= n < 256 * 256) by lia.
  unfold tier_dimensions, tier_of.
  destruct (Z.ltb_spec n (512 * 512)); [|lia].
  rewrite SqrtFacts.int_sqrt_in_range
    by (assert (256 * 256 < 2 ^ 64) by reflexivity; lia).
  rewrite ExactFacts.isq_exact
    by (assert (256 * 256 < 2 ^ 52) by reflexivity; lia).
  cbn [bind].
  assert (0 <= Z.sqrt n < 256).
  { split; [apply Z.sqrt_nonneg | apply Z.sqrt_lt_square; lia]. }
  unfold clamp. do 2 f_equal; lia.
Qed.

Lemma small_targets_get_minimum_plan_witness :
  calculate_dimensions 102400 16 = Ok (256, 256).
Proof. apply small_targets_get_minimum_plan. lia. Defined.

(** X5. Every target from 10240 + 2 * 8192 * 8192 bytes up to the largest
    the planner accepts gets the largest plan, 8192 x 8192: beyond 128 MiB
    the file stops growing with the request. *)
Theorem huge_targets_get_maximum_plan :
  forall target,
    10240 + 2 * (8192 * 8192) <= target < 2 ^ 65 + 10240 ->
    calculate_dimensions target 16 = Ok (8192, 8192).
Proof.
  intros t Ht. rewrite PlannerFacts.calculate_dimensions_default.
  pose proof (PlannerFacts.half_range t) as Hh.
  assert (H65 : 2 ^ 65 = 2 * 2 ^ 64) by reflexivity.
  assert (Hlo : 8192 * 8192 <= (t - 10240) / 2)
    by (apply Z.div_le_lower_bound; lia).
  set (n := (t - 10240) / 2) in *.
  assert (Hn : n < 2 ^ 64) by lia.
  unfold tier_dimensions, tier_of.
  destruct (Z.ltb_spec n (512 * 512)); [lia|].
  destruct (Z.ltb_spec n (1024 * 1024)); [lia|].
  destruct (Z.ltb_spec n (2048 * 2048)); [lia|].
  rewrite SqrtFacts.int_sqrt_in_range by lia.
  cbn [bind].
  assert (8192 <= isq n).
  { transitivity (isq (8192 * 8192)).
    - rewrite ExactFacts.isq_exact by (split; [lia | reflexivity]). reflexivity.
    - apply SqrtFacts.isq_mono. lia. }
  unfold clamp. do 2 f_equal; lia.
Qed.

Lemma huge_targets_get_maximum_plan_witness :
  calculate_dimensions 1073741824 16 = Ok (8192, 8192).
Proof. apply huge_targets_get_maximum_plan. split; [lia | reflexivity]. Defined.

(** X6. For pixel counts below 2^52 the side [int(np.sqrt(n))] of a
    square plan is the exact integer square root: the largest side whose
    square does not exceed the count.  Rounding in the floating-point root
    never lifts it to the next integer. *)
Theorem int_sqrt_is_exact :
  forall n,
    0 <= n < 2 ^ 52 ->
    exists side,
      int_sqrt n = Ok side
      /\ side * side <= n < (side + 1) * (side + 1)
      /\ 0 <= side.
Proof.
  intros n Hn. exists (Z.sqrt n).
  split.
  - rewrite SqrtFacts.int_sqrt_in_range.
    + now rewrite ExactFacts.isq_exact.
    + assert (2 ^ 52 < 2 ^ 64) by reflexivity. lia.
  - pose proof (Z.sqrt_spec n ltac:(lia)) as Hs. cbv zeta in Hs.
    replace (Z.succ (Z.sqrt n)) with (Z.sqrt n + 1) in Hs by lia.
    split; [exact Hs | apply Z.sqrt_nonneg].
Qed.

Lemma int_sqrt_is_exact_witness :
  exists side,
    int_sqrt 46080 = Ok side
    /\ side * side <= 46080 < (side + 1) * (side + 1)
    /\ 0 <= side.
Proof. apply int_sqrt_is_exact. split; [lia | reflexivity]. Defined.

(** X7. A sample depth of fewer than 8 bits gives zero bytes per pixel and
    the division of the payload by it raises ZeroDivisionError, whatever the
    target. *)
Theorem sample_depth_below_a_byte_raises :
  forall target bits_per_pixel,
    0 <= bits_per_pixel < 8 ->
    calculate_dimensions target bits_per_pixel = Raise ZeroDivisionError.
Proof.
  intros t bpp H.
  unfold calculate_dimensions, unclamped_dimensions, total_pixels_of.
  cbn [floordiv Z.eqb bind].
  rewrite (Z.div_small bpp 8) by lia. reflexivity.
Qed.

Lemma sample_depth_below_a_byte_raises_witness :
  calculate_dimensions 1048576 4 = Raise ZeroDivisionError.
Proof. apply sample_depth_below_a_byte_raises. lia. Defined.

(** * The size parser: [parse_size] *)

Module ParseFacts.
Import PyStr Builtins StrFacts FloatFacts.

Lemma pack_nonneg n : 0 <= n -> nonneg_float (pack false n).
Proof.
  intros H. unfold pack.
  destruct (Z.leb_spec (2 ^ 2098) n); simpl; auto.
Qed.

Lemma of_ratio_nonneg p q : 0 <= p -> 0 < q -> nonneg_float (of_ratio false p q).
Proof.
  intros Hp Hq. unfold of_ratio. apply pack_nonneg, rne_nonneg.
  pose proof unit_pos. apply Z.div_pos; nia.
Qed.

Lemma of_decimal_nonneg d ex : 0 <= d -> nonneg_float (of_decimal false d ex).
Proof.
  intros H. unfold of_decimal.
  destruct (Z.leb_spec 0 ex).
  - apply of_ratio_nonneg; [|lia].
    assert (0 < 10 ^ ex) by (apply Z.pow_pos_nonneg; lia). nia.
  - apply of_ratio_nonneg; [lia|]. apply Z.pow_pos_nonneg; lia.
Qed.

Lemma of_Z_nonneg_float z : 0 <= z -> nonneg_float (of_Z z).
Proof.
  intros H. unfold of_Z.
  replace (z <? 0) with false by (symmetry; apply Z.ltb_ge; lia).
  apply of_ratio_nonneg; lia.
Qed.

Lemma mul_nonneg x y :
  nonneg_float x -> nonneg_float y -> nonneg_float (Float.mul x y).
Proof.
  pose proof unit_pos as Hu.
  destruct x as [a | s |], y as [b | s' |]; simpl; intros Hx Hy; auto.
  - unfold is_neg.
    replace (a <? 0) with false by (symmetry; apply Z.ltb_ge; lia).
    replace (b <? 0) with false by (symmetry; apply Z.ltb_ge; lia).
    apply of_ratio_nonneg; nia.
  - subst. destruct (a =? 0); simpl; [exact I|].
    unfold is_neg. apply Z.ltb_ge. lia.
  - subst. destruct (b =? 0); simpl; [exact I|].
    unfold is_neg. apply Z.ltb_ge. lia.
  - now subst.
Qed.

Lemma mul_int_nonneg x k : nonneg_float x -> 0 <= k -> nonneg_float (mul_int x k).
Proof. intros. apply mul_nonneg; [assumption | now apply of_Z_nonneg_float]. Qed.

Lemma to_int_nonneg x z : nonneg_float x -> to_int x = Ok z -> 0 <= z.
Proof.
  destruct x as [n | s |]; simpl; intros Hx H; try discriminate.
  inversion H. rewrite truncate_quot.
  apply Z.quot_pos; [assumption | apply unit_pos].
Qed.

Lemma take_sign_no_minus s : leading_minus s = false -> fst (take_sign s) = false.
Proof.
  destruct s as [|c s]; [reflexivity|].
  destruct c as [[] [] [] [] [] [] [] []]; simpl; congruence.
Qed.

Lemma strip_clean_head s : clean_head (strip s).
Proof. apply strip_shape. Qed.

Lemma drop_last_clean_head n s : clean_head s -> clean_head (drop_last n s).
Proof.
  unfold drop_last. intros [-> | (c & u & -> & Hc)].
  - left. now rewrite firstn_nil.
  - destruct (length (c :: u) - n)%nat; [now left | right; simpl; eauto].
Qed.

Lemma drop_last_leading_minus n s :
  leading_minus s = false -> leading_minus (drop_last n s) = false.
Proof.
  unfold drop_last. destruct s as [|c u]; [now rewrite firstn_nil|].
  destruct (length (c :: u) - n)%nat; [reflexivity | simpl; auto].
Qed.

(** stripping a string with a clean head keeps its first character *)
Lemma strip_leading_minus s :
  clean_head s -> leading_minus s = false -> leading_minus (strip s) = false.
Proof.
  intros [-> | (c & u & -> & Hc)] H; [reflexivity|].
  destruct (strip_head c u Hc) as [u' ->]. exact H.
Qed.

(** and so does the literal that [int()] and [float()] read in it *)
Lemma trim_leading_minus s :
  clean_head s -> leading_minus s = false -> leading_minus (trim s) = false.
Proof.
  intros [-> | (c & u & -> & Hc)] H; [reflexivity|].
  destruct (trim_head c u (not_space_not_c_space c Hc)) as [u' ->]. exact H.
Qed.

Lemma remove_underscores_leading_minus s :
  underscores_ok None s = true -> leading_minus s = false ->
  leading_minus (remove_underscores s) = false.
Proof.
  intros Hu H. pose proof (remove_underscores_head s Hu) as E.
  destruct s as [|c s]; rewrite E; [reflexivity | exact H].
Qed.

(** an unsigned literal converts to a double that is not negative *)
Lemma float_of_str_nonneg s x :
  clean_head s -> leading_minus s = false ->
  float_of_str s = Ok x -> nonneg_float x.
Proof.
  intros Hh Hm. unfold float_of_str.
  pose proof (trim_leading_minus s Hh Hm) as Hm'.
  destruct (underscores_ok None (trim s)) eqn:Hu; [|discriminate].
  pose proof (remove_underscores_leading_minus _ Hu Hm') as Hm''.
  apply take_sign_no_minus in Hm''.
  destruct (take_sign (remove_underscores (trim s))) as [neg body].
  simpl in Hm''. subst neg.
  destruct (eqb (upper body) (str "INF") || eqb (upper body) (str "INFINITY")).
  { intros H. inversion H. reflexivity. }
  destruct (eqb (upper body) (str "NAN")).
  { intros H. inversion H. exact I. }
  destruct (span_digits body) as [ip r1] eqn:E1.
  apply span_digits_spec in E1 as [Hip _].
  assert (Hfp : exists fp r2,
             match r1 with
             | "."%char :: r => span_digits r
             | _ => ([], r1)
             end = (fp, r2) /\ forallb is_digit fp = true).
  { destruct r1 as [|c r].
    - exists [], []. auto.
    - destruct (Ascii.eqb c "."%char) eqn:Ec.
      + apply Ascii.eqb_eq in Ec. subst c.
        destruct (span_digits r) as [fp r2] eqn:E2.
        apply span_digits_spec in E2 as [Hfp _]. eauto.
      + exists [], (c :: r). split; [|reflexivity].
        apply Ascii.eqb_neq in Ec.
        destruct c as [[] [] [] [] [] [] [] []]; try reflexivity.
        contradiction Ec; reflexivity. }
  destruct Hfp as (fp & r2 & -> & Hfp).
  assert (Hd : 0 <= digits_value (ip ++ fp)).
  { apply digits_value_bounds. rewrite forallb_app. now rewrite Hip, Hfp. }
  destruct (ip ++ fp) as [|c0 ds0] eqn:Eds; [discriminate|].
  destruct r2 as [|c r3].
  { intros H. inversion H. now apply of_decimal_nonneg. }
  destruct (is_exp_mark c); [|discriminate].
  destruct (take_sign r3) as [eneg r4].
  destruct (span_digits r4) as [ed r5].
  destruct ed as [|e0 ed]; [discriminate|].
  destruct r5; [|discriminate].
  intros H. inversion H. now apply of_decimal_nonneg.
Qed.

Lemma int_of_str_nonneg s z :
  clean_head s -> leading_minus s = false ->
  int_of_str s = Ok z -> 0 <= z.
Proof.
  intros Hh Hm. unfold int_of_str.
  pose proof (trim_leading_minus s Hh Hm) as Hm'.
  apply take_sign_no_minus in Hm'.
  destruct (take_sign (trim s)) as [neg body]. simpl in Hm'. subst neg.
  destruct (underscores_ok None body); [|discriminate].
  destruct (remove_underscores body) as [|c ds] eqn:E; [discriminate|].
  destruct (forallb is_digit (c :: ds)) eqn:Hd; [|discriminate].
  destruct (max_str_digits <? length (c :: ds))%nat; [discriminate|].
  intros H. inversion H. now apply digits_value_bounds.
Qed.

(** a literal with a decimal point is no integer literal *)
Lemma int_of_str_point s : In "."%char s -> int_of_str s = Raise ValueError.
Proof.
  intros H. unfold int_of_str.
  assert (Hs : In "."%char (trim s)) by (apply in_trim; auto).
  destruct (take_sign (trim s)) as [neg body] eqn:E.
  assert (Hb : In "."%char body).
  { unfold take_sign in E. destruct (trim s) as [|c u]; [inversion Hs|].
    destruct Hs as [-> | Hs]; [inversion E; now left|].
    destruct c as [[] [] [] [] [] [] [] []]; inversion E; subst;
      (assumption || now right). }
  destruct (underscores_ok None body); [|reflexivity].
  assert (Hr : In "."%char (remove_underscores body))
    by (apply in_remove_underscores; [assumption | discriminate]).
  destruct (remove_underscores body) as [|c ds]; [inversion Hr|].
  destruct (forallb is_digit (c :: ds)) eqn:Hd; [|reflexivity].
  rewrite forallb_forall in Hd. specialize (Hd _ Hr). discriminate.
Qed.

End ParseFacts.

(** C4. The four sample sizes of the specification. *)
Theorem parse_size_examples :
  parse_size (str "100MB") = Ok 104857600
  /\ parse_size (str "1GB") = Ok 1073741824
  /\ parse_size (str "500KB") = Ok 512000
  /\ parse_size (str "12345") = Ok 12345.
Proof.
  split; [vm_compute; reflexivity|].
  split; [vm_compute; reflexivity|].
  split; vm_compute; reflexivity.
Qed.

(** C6. [parse_size] ignores letter case and surrounding white space: a
    variant of a size string that differs from it only in the case of its
    letters, padded with any white space on either side, is parsed to the
    same result (the same byte count when the string is supported, and the
    same failure otherwise). *)
Theorem parse_size_case_and_padding :
  forall size_str variant left right,
    forallb PyStr.is_space left = true ->
    forallb PyStr.is_space right = true ->
    PyStr.upper variant = PyStr.upper size_str ->
    parse_size (left ++ variant ++ right) = parse_size size_str.
Proof.
  intros s v l r Hl Hr Hv. unfold parse_size.
  rewrite !StrFacts.upper_app, Hv.
  rewrite (StrFacts.upper_spaces l Hl), (StrFacts.upper_spaces r Hr).
  rewrite StrFacts.strip_padding by assumption.
  reflexivity.
Qed.

Lemma parse_size_case_and_padding_witness :
  parse_size (str " " ++ str "100mb" ++ str " ") = parse_size (str "100MB")
  /\ parse_size (str "100MB") = Ok 104857600.
Proof.
  split.
  - apply (parse_size_case_and_padding
             (str "100MB") (str "100mb") (str " ") (str " "));
      vm_compute; reflexivity.
  - vm_compute; reflexivity.
Defined.

Example parse_size_variants :
  parse_size (str "100mb") = Ok 104857600
  /\ parse_size (str "100MB") = Ok 104857600
  /\ parse_size (str " 100MB ") = Ok 104857600
  /\ parse_size (str "  1gB") = Ok 1073741824.
Proof.
  split; [vm_compute; reflexivity|].
  split; [vm_compute; reflexivity|].
  split; vm_compute; reflexivity.
Qed.

(** C3, as the claim states it, fails: a literal with a minus sign is
    accepted and gives a negative count. *)
Lemma parse_size_negative_result :
  parse_size (str "-5") = Ok (-5)
  /\ parse_size (str "-1KB") = Ok (-1024)
  /\ ~ (forall size_str bytes, parse_size size_str = Ok bytes -> 0 <= bytes).
Proof.
  assert (E : parse_size (str "-5") = Ok (-5)) by (vm_compute; reflexivity).
  split; [exact E|].
  split; [vm_compute; reflexivity|].
  intros H. specialize (H _ _ E). lia.
Qed.

(** C3, amended. Every size string that [parse_size] accepts yields an
    integer, and that integer is not negative provided the string, once
    upper-cased and stripped, does not begin with a minus sign. *)
Theorem parse_size_nonnegative :
  forall size_str bytes,
    parse_size size_str = Ok bytes ->
    leading_minus (PyStr.strip (PyStr.upper size_str)) = false ->
    0 <= bytes.
Proof.
  intros s z H Hm. unfold parse_size in H.
  set (n := PyStr.strip (PyStr.upper s)) in *.
  assert (Hc : clean_head n) by apply ParseFacts.strip_clean_head.
  assert (Hf : forall x, float_of_str (PyStr.drop_last 2 n) = Ok x -> nonneg_float x).
  { intros x. apply ParseFacts.float_of_str_nonneg.
    - now apply ParseFacts.drop_last_clean_head.
    - now apply ParseFacts.drop_last_leading_minus. }
  destruct (PyStr.endswith n (str "MB")).
  { apply DimensionFacts.bind_ok in H as (x & Hx & H).
    eapply ParseFacts.to_int_nonneg; [|exact H].
    repeat apply ParseFacts.mul_int_nonneg; auto; lia. }
  destruct (PyStr.endswith n (str "GB")).
  { apply DimensionFacts.bind_ok in H as (x & Hx & H).
    eapply ParseFacts.to_int_nonneg; [|exact H].
    repeat apply ParseFacts.mul_int_nonneg; auto; lia. }
  destruct (PyStr.endswith n (str "KB")).
  { apply DimensionFacts.bind_ok in H as (x & Hx & H).
    eapply ParseFacts.to_int_nonneg; [|exact H].
    repeat apply ParseFacts.mul_int_nonneg; auto; lia. }
  eapply ParseFacts.int_of_str_nonneg; eauto.
Qed.

Lemma parse_size_nonnegative_witness : 0 <= 512000.
Proof.
  apply (parse_size_nonnegative (str "500kb") 512000);
    vm_compute; reflexivity.
Defined.

(** * Fractional literals *)

Module FractionFacts.
Import PyStr Builtins StrFacts FloatFacts ParseFacts.

Lemma lstrip_clean s :
  forallb (fun c => negb (is_space c)) s = true -> lstrip s = s.
Proof.
  destruct s as [|c s]; [reflexivity|]. cbn [forallb lstrip].
  intros H. apply andb_true_iff in H as [Hc _].
  apply negb_true_iff in Hc. now rewrite Hc.
Qed.

(** a string without white space is left alone by [strip] *)
Lemma strip_no_space s :
  forallb (fun c => negb (is_space c)) s = true -> strip s = s.
Proof.
  intros H. unfold strip, rstrip.
  rewrite (lstrip_clean s H), lstrip_clean.
  - apply rev_involutive.
  - now rewrite forallb_rev.
Qed.

Lemma endswith_in s suffix c :
  endswith s suffix = true -> In c suffix -> In c s.
Proof.
  unfold endswith. intros H Hc.
  apply andb_true_iff in H as [_ H]. apply eqb_eq in H.
  rewrite <- (firstn_skipn (length s - length suffix) s).
  apply in_or_app. right. now rewrite H.
Qed.

Section Literal.
Variables ip fp : pystr.
Hypothesis Hip : forallb is_digit ip = true.
Hypothesis Hfp : forallb is_digit fp = true.
Hypothesis Hne : ip ++ fp <> [].

Lemma literal_chars c : In c (fractional_literal ip fp) -> is_digit c = true \/ c = "."%char.
Proof.
  unfold fractional_literal. intros H.
  apply in_app_or in H as [H | H].
  { left. rewrite forallb_forall in Hip. auto. }
  destruct H as [<- | H]; [now right|].
  left. rewrite forallb_forall in Hfp. auto.
Qed.

Lemma literal_upper : upper (fractional_literal ip fp) = fractional_literal ip fp.
Proof.
  unfold fractional_literal.
  rewrite upper_app, (upper_digits ip Hip).
  rewrite upper_app, (upper_digits fp Hfp).
  reflexivity.
Qed.

Lemma literal_no_space :
  forallb (fun c => negb (is_space c)) (fractional_literal ip fp) = true.
Proof.
  apply forallb_forall. intros c H.
  apply literal_chars in H as [H | ->]; [|reflexivity].
  now rewrite digit_not_space.
Qed.

Lemma literal_no_underscore : no_underscore (fractional_literal ip fp).
Proof.
  unfold fractional_literal.
  repeat apply no_underscore_app; try now apply digits_no_underscore.
  reflexivity.
Qed.

Lemma literal_has_point : In "."%char (fractional_literal ip fp).
Proof. unfold fractional_literal. apply in_or_app. right. now left. Qed.

Lemma literal_take_sign : take_sign (fractional_literal ip fp) = (false, fractional_literal ip fp).
Proof.
  destruct (fractional_literal ip fp) as [|c u] eqn:E; [reflexivity|].
  assert (H : In c (fractional_literal ip fp)) by (rewrite E; now left).
  apply literal_chars in H as [H | ->]; [|reflexivity].
  destruct c as [[] [] [] [] [] [] [] []]; try reflexivity; discriminate.
Qed.

Lemma literal_not_word w :
  ~ In "."%char w -> eqb (fractional_literal ip fp) w = false.
Proof.
  intros Hw. destruct (eqb (fractional_literal ip fp) w) eqn:E; [|reflexivity].
  apply eqb_eq in E. rewrite <- E in Hw.
  contradiction Hw. apply literal_has_point.
Qed.

(** [float] reads the literal as digits scaled by a power of ten *)
Lemma float_of_literal :
  float_of_str (fractional_literal ip fp)
  = Ok (of_decimal false (digits_value (ip ++ fp)) (- Z.of_nat (length fp))).
Proof.
  unfold float_of_str.
  rewrite (trim_no_space _ literal_no_space).
  rewrite (underscores_ok_none _ _ literal_no_underscore).
  rewrite (remove_underscores_none _ literal_no_underscore).
  rewrite literal_take_sign, literal_upper.
  rewrite !literal_not_word
    by (simpl; intros H; repeat destruct H as [H | H]; discriminate || exact H).
  cbn [orb].
  unfold fractional_literal at 1.
  rewrite span_digits_app by (assumption || reflexivity).
  cbn [str list_ascii_of_string app].
  rewrite (span_digits_all fp Hfp).
  destruct (ip ++ fp) as [|c ds] eqn:E; [contradiction|].
  rewrite <- E. reflexivity.
Qed.

Lemma drop_last_suffix sfx :
  length sfx = 2%nat -> drop_last 2 (fractional_literal ip fp ++ sfx) = fractional_literal ip fp.
Proof. intros H. now apply drop_last_app. Qed.

(** a suffixed literal is left alone by the normalisation *)
Lemma normalise_suffixed sfx :
  upper sfx = sfx ->
  forallb (fun c => negb (is_space c)) sfx = true ->
  strip (upper (fractional_literal ip fp ++ sfx)) = fractional_literal ip fp ++ sfx.
Proof.
  intros Hu Hs. rewrite upper_app, literal_upper, Hu.
  apply strip_no_space. rewrite forallb_app, literal_no_space, Hs.
  reflexivity.
Qed.

Lemma parse_size_KB :
  parse_size (fractional_literal ip fp ++ str "KB")
  = (x <- float_of_str (fractional_literal ip fp) ;; to_int (mul_int x 1024)).
Proof.
  unfold parse_size.
  rewrite normalise_suffixed by reflexivity.
  rewrite !endswith_app, drop_last_suffix by reflexivity.
  reflexivity.
Qed.

Lemma parse_size_MB :
  parse_size (fractional_literal ip fp ++ str "MB")
  = (x <- float_of_str (fractional_literal ip fp) ;; to_int (mul_int (mul_int x 1024) 1024)).
Proof.
  unfold parse_size.
  rewrite normalise_suffixed by reflexivity.
  rewrite !endswith_app, drop_last_suffix by reflexivity.
  reflexivity.
Qed.

Lemma parse_size_GB :
  parse_size (fractional_literal ip fp ++ str "GB")
  = (x <- float_of_str (fractional_literal ip fp) ;;
     to_int (mul_int (mul_int (mul_int x 1024) 1024) 1024)).
Proof.
  unfold parse_size.
  rewrite normalise_suffixed by reflexivity.
  rewrite !endswith_app, drop_last_suffix by reflexivity.
  reflexivity.
Qed.

Lemma literal_no_suffix sfx :
  In "B"%char sfx -> endswith (fractional_literal ip fp) sfx = false.
Proof.
  intros Hb. destruct (endswith (fractional_literal ip fp) sfx) eqn:E; [|reflexivity].
  apply (endswith_in _ _ _ E) in Hb.
  apply literal_chars in Hb as [H | H]; discriminate.
Qed.

(** without a suffix the literal goes to [int], which rejects it *)
Lemma parse_size_bare : parse_size (fractional_literal ip fp) = Raise ValueError.
Proof.
  unfold parse_size.
  rewrite literal_upper, (strip_no_space _ literal_no_space).
  rewrite !literal_no_suffix by (simpl; auto).
  apply int_of_str_point, literal_has_point.
Qed.

End Literal.

(** *** no overflow *)

Lemma of_ratio_finite p q B :
  0 <= p -> 0 < q -> 0 <= B < 1024 -> p < 2 ^ B * q ->
  exists a, of_ratio false p q = Fin a /\ 0 <= a <= 2 ^ (B + 1074).
Proof.
  intros Hp Hq HB Hlt. pose proof unit_pos as Hu.
  unfold of_ratio, pack.
  set (fl := p * unit / q).
  set (c := fun t => 2 * p * unit ?= t * q).
  assert (Hfl : 0 <= fl) by (apply Z.div_pos; nia).
  assert (Hb : fl < 2 ^ (B + 1074)).
  { apply Z.div_lt_upper_bound; [lia|].
    rewrite Z.pow_add_r by lia. fold unit.
    assert (0 < 2 ^ B) by (apply Z.pow_pos_nonneg; lia). nia. }
  assert (Hr : rne fl c <= 2 ^ (B + 1074)).
  { eapply Z.le_trans; [apply rne_upper; lia|].
    apply Z.pow_le_mono_r; [lia|].
    destruct (Z.eq_dec fl 0) as [-> | Hn]; [simpl; lia|].
    assert (Z.log2 fl < B + 1074) by (apply Z.log2_lt_pow2; lia). lia. }
  assert (2 ^ (B + 1074) < 2 ^ 2098) by (apply Z.pow_lt_mono_r; lia).
  destruct (Z.leb_spec (2 ^ 2098) (rne fl c)); [lia|].
  eexists; split; [reflexivity|].
  split; [now apply rne_nonneg | assumption].
Qed.

Lemma mul_int_finite a B k :
  0 <= a <= 2 ^ (B + 1074) -> 0 <= B -> B + 12 < 1024 -> 0 <= k < 2 ^ 11 ->
  exists a', mul_int (Fin a) k = Fin a' /\ 0 <= a' <= 2 ^ (B + 12 + 1074).
Proof.
  intros Ha HB HB' Hk. pose proof unit_pos as Hu.
  unfold mul_int, of_Z.
  replace (k <? 0) with false by (symmetry; apply Z.ltb_ge; lia).
  rewrite Z.abs_eq by lia.
  destruct (of_ratio_finite k 1 11) as (b & -> & Hb); try lia.
  unfold Float.mul, is_neg.
  replace (a <? 0) with false by (symmetry; apply Z.ltb_ge; lia).
  replace (b <? 0) with false by (symmetry; apply Z.ltb_ge; lia).
  rewrite !Z.abs_eq by lia. cbn [xorb].
  apply of_ratio_finite; try nia; try lia.
  replace (B + 12) with (B + 11 + 1) by lia.
  rewrite (Z.pow_add_r 2 (B + 11) 1) by lia.
  assert (E : 2 ^ (B + 1074) * 2 ^ (11 + 1074) = 2 ^ (B + 11) * (unit * unit)).
  { unfold unit. rewrite <- !Z.pow_add_r by lia. f_equal. lia. }
  assert (0 < 2 ^ (B + 11)) by (apply Z.pow_pos_nonneg; lia).
  assert (0 < 2 ^ (B + 1074)) by (apply Z.pow_pos_nonneg; lia).
  assert (a * b <= 2 ^ (B + 1074) * 2 ^ (11 + 1074)) by (apply Z.mul_le_mono_nonneg; lia).
  change (2 ^ 1) with 2. nia.
Qed.

(** [int] of a finite double that is not negative is its integer part *)
Lemma to_int_floor n :
  0 <= n ->
  exists z, to_int (Fin n) = Ok z /\ 0 <= z /\ z * unit <= n < (z + 1) * unit.
Proof.
  intros H. pose proof unit_pos as Hu.
  exists (n / unit). cbn [to_int].
  rewrite truncate_nonneg by lia.
  split; [reflexivity|].
  pose proof (Z.div_mod n unit ltac:(lia)).
  pose proof (Z.mod_pos_bound n unit Hu).
  split; [apply Z.div_pos; lia | nia].
Qed.

Lemma pow10_290 : 10 ^ 290 < 2 ^ 964.
Proof. reflexivity. Qed.

(** a literal of at most 290 integer digits is far from overflow *)
Lemma literal_finite ip fp :
  forallb is_digit ip = true -> forallb is_digit fp = true ->
  (length ip <= 290)%nat ->
  exists a,
    of_decimal false (digits_value (ip ++ fp)) (- Z.of_nat (length fp)) = Fin a
    /\ 0 <= a <= 2 ^ (964 + 1074).
Proof.
  intros Hip Hfp Hlen.
  assert (Hd : forallb is_digit (ip ++ fp) = true)
    by (rewrite forallb_app, Hip, Hfp; reflexivity).
  pose proof (digits_value_bounds _ Hd) as [Hd0 Hd1].
  rewrite length_app, Nat2Z.inj_add, Z.pow_add_r in Hd1 by lia.
  assert (Hp : 10 ^ Z.of_nat (length ip) <= 10 ^ 290)
    by (apply Z.pow_le_mono_r; lia).
  assert (Hq : 0 < 10 ^ Z.of_nat (length fp)) by (apply Z.pow_pos_nonneg; lia).
  pose proof pow10_290 as H290.
  generalize dependent (2 ^ 964). intros P HP. intros.
  unfold of_decimal.
  destruct (Z.leb_spec 0 (- Z.of_nat (length fp))) as [Hz | Hz].
  - assert (E : Z.of_nat (length fp) = 0) by lia.
    rewrite E in *. change (- 0) with 0. change (10 ^ 0) with 1 in *.
    apply of_ratio_finite; try lia.
  - rewrite Z.opp_involutive.
    apply of_ratio_finite; try lia. 
    assert (10 ^ Z.of_nat (length ip) * 10 ^ Z.of_nat (length fp)
            <= 10 ^ 290 * 10 ^ Z.of_nat (length fp))
      by (apply Z.mul_le_mono_nonneg_r; lia).
    nia.
Qed.

End FractionFacts.

(** C10, as the claim states it, fails: not every fractional literal with
    a suffix is accepted.  The literal of 308 nines, a decimal point and a
    five is a finite double, but its product with 1024 is infinite, and
    [int] of an infinite double raises OverflowError. *)
Lemma parse_size_fractional_overflow :
  let ip := repeat "9"%char 308 in
  let fp := str "5" in
  forallb PyStr.is_digit ip = true
  /\ forallb PyStr.is_digit fp = true
  /\ (exists a, float_of_str (fractional_literal ip fp) = Ok (Fin a))
  /\ parse_size (fractional_literal ip fp ++ str "KB") = Raise OverflowError
  /\ parse_size (fractional_literal ip fp ++ str "MB") = Raise OverflowError
  /\ parse_size (fractional_literal ip fp ++ str "GB") = Raise OverflowError.
Proof.
  intros ip fp.
  split; [vm_compute; reflexivity|].
  split; [vm_compute; reflexivity|].
  split.
  { destruct (float_of_str (fractional_literal ip fp)) as [[a | |] |] eqn:E;
      try (vm_compute in E; discriminate E).
    exists a. reflexivity. }
  split; [vm_compute; reflexivity|].
  split; vm_compute; reflexivity.
Qed.

(** C10, amended. A fractional literal (digits, a decimal point, digits) of
    at most 290 integer digits, so that nothing overflows, is accepted when
    KB, MB or GB follows it: the literal is read as a double, multiplied by
    1024 once, twice or three times, and the integer part of the product is
    returned.  The same literal with no suffix is rejected with a
    ValueError. *)
Theorem parse_size_fractional :
  forall ip fp,
    forallb PyStr.is_digit ip = true ->
    forallb PyStr.is_digit fp = true ->
    ip ++ fp <> [] ->
    (length ip <= 290)%nat ->
    let literal := fractional_literal ip fp in
    let x := of_decimal false (PyStr.digits_value (ip ++ fp))
                        (- Z.of_nat (length fp)) in
    (exists kb, integer_part (mul_int x 1024) kb
                /\ parse_size (literal ++ str "KB") = Ok kb)
    /\ (exists mb, integer_part (mul_int (mul_int x 1024) 1024) mb
                   /\ parse_size (literal ++ str "MB") = Ok mb)
    /\ (exists gb, integer_part (mul_int (mul_int (mul_int x 1024) 1024) 1024) gb
                   /\ parse_size (literal ++ str "GB") = Ok gb)
    /\ parse_size literal = Raise ValueError.
Proof.
  intros ip fp Hip Hfp Hne Hlen literal x.
  destruct (FractionFacts.literal_finite ip fp Hip Hfp Hlen) as (a & Ea & Ha).
  fold x in Ea.
  destruct (FractionFacts.mul_int_finite a 964 1024 Ha) as (a1 & E1 & H1);
    try lia.
  destruct (FractionFacts.mul_int_finite a1 (964 + 12) 1024 H1) as (a2 & E2 & H2);
    try lia.
  destruct (FractionFacts.mul_int_finite a2 (964 + 12 + 12) 1024 H2)
    as (a3 & E3 & H3); try lia.
  assert (Hint : forall n, 0 <= n ->
            exists z, integer_part (Fin n) z /\ to_int (Fin n) = Ok z).
  { intros n Hn.
    destruct (FractionFacts.to_int_floor n Hn) as (z & Hz & _ & Hb).
    exists z. split; [exists n; auto | exact Hz]. }
  split; [|split; [|split]].
  - unfold literal. rewrite FractionFacts.parse_size_KB by assumption.
    rewrite FractionFacts.float_of_literal by assumption.
    fold x. cbn [bind]. rewrite Ea, E1. apply Hint. lia.
  - unfold literal. rewrite FractionFacts.parse_size_MB by assumption.
    rewrite FractionFacts.float_of_literal by assumption.
    fold x. cbn [bind]. rewrite Ea, E1, E2. apply Hint. lia.
  - unfold literal. rewrite FractionFacts.parse_size_GB by assumption.
    rewrite FractionFacts.float_of_literal by assumption.
    fold x. cbn [bind]. rewrite Ea, E1, E2, E3. apply Hint. lia.
  - now apply FractionFacts.parse_size_bare.
Qed.

Lemma parse_size_fractional_witness :
  parse_size (str "1.5MB") = Ok 1572864
  /\ parse_size (str "1.5") = Raise ValueError.
Proof.
  destruct (parse_size_fractional (str "1") (str "5")) as (_ & _ & _ & Hbare).
  - reflexivity.
  - reflexivity.
  - discriminate.
  - simpl. lia.
  - split; [vm_compute; reflexivity | exact Hbare].
Defined.

Example parse_size_fraction_samples :
  parse_size (str "1.5MB") = Ok 1572864
  /\ parse_size (str "0.1KB") = Ok 102
  /\ parse_size (str ".5gb") = Ok 536870912
  /\ parse_size (str "1.5") = Raise ValueError.
Proof.
  split; [vm_compute; reflexivity|].
  split; [vm_compute; reflexivity|].
  split; vm_compute; reflexivity.
Qed.

(** * More on the size parser *)

Module ParserFacts.
Import PyStr Builtins StrFacts FloatFacts ParseFacts FractionFacts ExactFacts.

(** the normalisation of [parse_size] forgets the padding *)
Lemma normalise_padding l v r :
  forallb is_space l = true -> forallb is_space r = true ->
  strip (upper (l ++ v ++ r)) = strip (upper v).
Proof.
  intros Hl Hr. rewrite !upper_app.
  rewrite (upper_spaces l Hl), (upper_spaces r Hr).
  now apply strip_padding.
Qed.

Lemma strip_spaces s : forallb is_space s = true -> strip s = [].
Proof. intros H. unfold strip. now rewrite lstrip_spaces. Qed.

Lemma digits_no_space s :
  forallb is_digit s = true -> forallb (fun c => negb (is_space c)) s = true.
Proof.
  intros H. apply forallb_forall. intros c Hc.
  rewrite forallb_forall in H. now rewrite digit_not_space by auto.
Qed.

Lemma digits_no_suffix ds sfx :
  forallb is_digit ds = true -> In "B"%char sfx -> endswith ds sfx = false.
Proof.
  intros Hd Hb. destruct (endswith ds sfx) eqn:E; [|reflexivity].
  apply (endswith_in _ _ _ E) in Hb.
  rewrite forallb_forall in Hd. apply Hd in Hb. discriminate.
Qed.

Lemma digits_take_sign ds :
  forallb is_digit ds = true -> take_sign ds = (false, ds).
Proof.
  destruct ds as [|c ds]; [reflexivity|]. cbn [forallb].
  intros H. apply andb_true_iff in H as [Hc _].
  destruct c as [[] [] [] [] [] [] [] []]; try reflexivity; discriminate.
Qed.

(** [int] on a sign and digits *)
Lemma int_of_signed_digits sign ds :
  forallb is_digit ds = true -> ds <> [] ->
  (length ds <= max_str_digits)%nat ->
  sign = [] \/ sign = ["+"%char] \/ sign = ["-"%char] ->
  int_of_str (sign ++ ds)
  = Ok (if eqb sign ["-"%char] then - digits_value ds else digits_value ds).
Proof.
  intros Hd Hne Hlen Hs. unfold int_of_str.
  assert (Hclean : forallb (fun c => negb (is_space c)) (sign ++ ds) = true).
  { rewrite forallb_app, (digits_no_space ds Hd).
    destruct Hs as [-> | [-> | ->]]; reflexivity. }
  rewrite (trim_no_space _ Hclean).
  assert (E : take_sign (sign ++ ds) = (eqb sign ["-"%char], ds)).
  { destruct Hs as [-> | [-> | ->]]; try reflexivity.
    cbn [app]. now apply digits_take_sign. }
  rewrite E.
  rewrite (underscores_ok_none _ _ (digits_no_underscore ds Hd)).
  rewrite (remove_underscores_none _ (digits_no_underscore ds Hd)).
  apply Nat.ltb_ge in Hlen.
  destruct ds as [|c ds']; [contradiction|].
  now rewrite Hd, Hlen.
Qed.

Lemma signed_digits_upper sign ds :
  forallb is_digit ds = true ->
  sign = [] \/ sign = ["+"%char] \/ sign = ["-"%char] ->
  upper (sign ++ ds) = sign ++ ds.
Proof.
  intros Hd Hs. rewrite upper_app, (upper_digits ds Hd).
  destruct Hs as [-> | [-> | ->]]; reflexivity.
Qed.

(** [float] on digits alone *)
Lemma float_of_digits ds :
  forallb is_digit ds = true -> ds <> [] ->
  float_of_str ds = Ok (of_decimal false (digits_value ds) 0).
Proof.
  intros Hd Hne. unfold float_of_str.
  rewrite (trim_no_space _ (digits_no_space ds Hd)).
  rewrite (underscores_ok_none _ _ (digits_no_underscore ds Hd)).
  rewrite (remove_underscores_none _ (digits_no_underscore ds Hd)).
  rewrite (digits_take_sign ds Hd), (upper_digits ds Hd).
  assert (Hw : forall w, In "I"%char w \/ In "N"%char w -> eqb ds w = false).
  { intros w Hw. destruct (eqb ds w) eqn:E; [|reflexivity].
    apply eqb_eq in E. subst w. rewrite forallb_forall in Hd.
    destruct Hw as [Hw | Hw]; apply Hd in Hw; discriminate. }
  rewrite !Hw by (simpl; auto). cbn [orb].
  rewrite (span_digits_all ds Hd). rewrite app_nil_r.
  destruct ds as [|c ds']; [contradiction|]. reflexivity.
Qed.

Lemma of_decimal_integer v :
  0 <= v < 2 ^ 53 -> of_decimal false v 0 = Fin (v * 2 ^ 0 * unit).
Proof.
  intros H. unfold of_decimal. cbn [Z.leb Z.compare].
  apply of_ratio_exact; lia.
Qed.

(** multiplying by 1024 shifts the exponent and nothing else *)
Lemma mul_int_1024_exact v j :
  0 <= v < 2 ^ 53 -> 0 <= j <= 800 ->
  mul_int (Fin (v * 2 ^ j * unit)) 1024 = Fin (v * 2 ^ (j + 10) * unit).
Proof.
  intros Hv Hj. pose proof unit_pos as Hu.
  assert (Hp : 0 < 2 ^ j) by (apply Z.pow_pos_nonneg; lia).
  unfold mul_int.
  rewrite of_Z_exact by (split; [lia | reflexivity]).
  unfold Float.mul, is_neg.
  replace (v * 2 ^ j * unit <? 0) with false
    by (symmetry; apply Z.ltb_ge; nia).
  replace (1024 * unit <? 0) with false
    by (symmetry; apply Z.ltb_ge; nia).
  cbn [xorb]. rewrite !Z.abs_eq by nia.
  apply of_ratio_exact; try lia; try nia.
  rewrite Z.pow_add_r by lia. change (2 ^ 10) with 1024. ring.
Qed.

Lemma to_int_integer m : 0 <= m -> to_int (Fin (m * unit)) = Ok m.
Proof.
  intros H. pose proof unit_pos as Hu. cbn [to_int].
  rewrite truncate_nonneg by nia. f_equal. apply Z.div_mul. lia.
Qed.

Lemma digits_suffix_normal ds sfx :
  forallb is_digit ds = true ->
  upper sfx = sfx -> forallb (fun c => negb (is_space c)) sfx = true ->
  strip (upper (ds ++ sfx)) = ds ++ sfx.
Proof.
  intros Hd Hu Hs. rewrite upper_app, (upper_digits ds Hd), Hu.
  apply strip_no_space. now rewrite forallb_app, (digits_no_space ds Hd), Hs.
Qed.

Lemma parse_size_digits_KB ds :
  forallb is_digit ds = true ->
  parse_size (ds ++ str "KB")
  = (x <- float_of_str ds ;; to_int (mul_int x 1024)).
Proof.
  intros Hd. unfold parse_size.
  rewrite (digits_suffix_normal ds (str "KB") Hd) by reflexivity.
  rewrite !endswith_app, drop_last_app by reflexivity.
  reflexivity.
Qed.

Lemma parse_size_digits_MB ds :
  forallb is_digit ds = true ->
  parse_size (ds ++ str "MB")
  = (x <- float_of_str ds ;; to_int (mul_int (mul_int x 1024) 1024)).
Proof.
  intros Hd. unfold parse_size.
  rewrite (digits_suffix_normal ds (str "MB") Hd) by reflexivity.
  rewrite !endswith_app, drop_last_app by reflexivity.
  reflexivity.
Qed.

Lemma parse_size_digits_GB ds :
  forallb is_digit ds = true ->
  parse_size (ds ++ str "GB")
  = (x <- float_of_str ds ;;
     to_int (mul_int (mul_int (mul_int x 1024) 1024) 1024)).
Proof.
  intros Hd. unfold parse_size.
  rewrite (digits_suffix_normal ds (str "GB") Hd) by reflexivity.
  rewrite !endswith_app, drop_last_app by reflexivity.
  reflexivity.
Qed.

(** the exceptions of the two builtins *)
Lemma int_of_str_raises s e : int_of_str s = Raise e -> e = ValueError.
Proof.
  unfold int_of_str.
  repeat match goal with
         | |- (let (_, _) := ?x in _) = _ -> _ => destruct x
         | |- (if ?x then _ else _) = _ -> _ => destruct x
         | |- match ?x with _ => _ end = _ -> _ => destruct x
         end; intros H; inversion H; reflexivity.
Qed.

Lemma float_of_str_raises s e : float_of_str s = Raise e -> e = ValueError.
Proof.
  unfold float_of_str.
  repeat match goal with
         | |- (let (_, _) := ?x in _) = _ -> _ => destruct x
         | |- (if ?x then _ else _) = _ -> _ => destruct x
         | |- match ?x with _ => _ end = _ -> _ => destruct x
         end; intros H; inversion H; reflexivity.
Qed.

Lemma to_int_raises x e :
  to_int x = Raise e ->
  (e = OverflowError /\ exists s, x = Inf s) \/ (e = ValueError /\ x = NaN).
Proof.
  destruct x; cbn [to_int]; intros H; inversion H; eauto.
Qed.

End ParserFacts.

(** X8. A plain decimal integer, with an optional sign and no suffix, is
    returned as it stands: its value for no sign or a plus sign, the
    negated value for a minus sign.  The literal is kept within the 4300
    digits that the interpreter converts by default. *)
Theorem parse_size_plain_integer :
  forall sign digits,
    forallb PyStr.is_digit digits = true ->
    digits <> [] ->
    (length digits <= 4300)%nat ->
    sign = [] \/ sign = ["+"%char] \/ sign = ["-"%char] ->
    parse_size (sign ++ digits)
    = Ok (if PyStr.eqb sign ["-"%char]
          then - PyStr.digits_value digits
          else PyStr.digits_value digits).
Proof.
  intros sign ds Hd Hne Hlen Hs. unfold parse_size.
  rewrite (ParserFacts.signed_digits_upper sign ds Hd Hs).
  assert (Hclean : forallb (fun c => negb (PyStr.is_space c)) (sign ++ ds) = true).
  { rewrite forallb_app, (ParserFacts.digits_no_space ds Hd).
    destruct Hs as [-> | [-> | ->]]; reflexivity. }
  rewrite (FractionFacts.strip_no_space _ Hclean).
  assert (Hsfx : forall sfx, In "B"%char sfx ->
                   PyStr.endswith (sign ++ ds) sfx = false).
  { intros sfx Hb. destruct (PyStr.endswith (sign ++ ds) sfx) eqn:E; [|reflexivity].
    apply (FractionFacts.endswith_in _ _ _ E) in Hb.
    apply in_app_or in Hb as [Hb | Hb].
    - destruct Hs as [-> | [-> | ->]]; simpl in Hb;
        repeat destruct Hb as [Hb | Hb]; discriminate || contradiction.
    - rewrite forallb_forall in Hd. apply Hd in Hb. discriminate. }
  rewrite !Hsfx by (simpl; auto).
  now apply ParserFacts.int_of_signed_digits.
Qed.

Lemma parse_size_plain_integer_witness :
  parse_size (str "-" ++ str "12345") = Ok (-12345).
Proof.
  apply (parse_size_plain_integer (str "-") (str "12345")).
  - reflexivity.
  - discriminate.
  - cbn [str list_ascii_of_string length]. lia.
  - right; right; reflexivity.
Defined.

(** X9. An integer literal below 2^53 followed by KB, MB or GB is scaled
    exactly: the result is the integer times 1024, 1024^2 or 1024^3, with no
    rounding on the way through floating point. *)
Theorem parse_size_integer_with_suffix :
  forall digits,
    forallb PyStr.is_digit digits = true ->
    digits <> [] ->
    PyStr.digits_value digits < 2 ^ 53 ->
    parse_size (digits ++ str "KB") = Ok (PyStr.digits_value digits * 1024)
    /\ parse_size (digits ++ str "MB")
       = Ok (PyStr.digits_value digits * (1024 * 1024))
    /\ parse_size (digits ++ str "GB")
       = Ok (PyStr.digits_value digits * (1024 * 1024 * 1024)).
Proof.
  intros ds Hd Hne Hv.
  pose proof (StrFacts.digits_value_bounds ds Hd) as [H0 _].
  set (v := PyStr.digits_value ds) in *.
  assert (Hx : float_of_str ds = Ok (Fin (v * 2 ^ 0 * Float.unit))).
  { rewrite ParserFacts.float_of_digits by assumption.
    fold v. now rewrite ParserFacts.of_decimal_integer. }
  split; [|split].
  - rewrite ParserFacts.parse_size_digits_KB, Hx by assumption. cbn [bind].
    rewrite ParserFacts.mul_int_1024_exact by lia.
    rewrite ParserFacts.to_int_integer
      by (assert (0 < 2 ^ (0 + 10)) by reflexivity; nia).
    reflexivity.
  - rewrite ParserFacts.parse_size_digits_MB, Hx by assumption. cbn [bind].
    rewrite !ParserFacts.mul_int_1024_exact by lia.
    rewrite ParserFacts.to_int_integer
      by (assert (0 < 2 ^ (0 + 10 + 10)) by reflexivity; nia).
    reflexivity.
  - rewrite ParserFacts.parse_size_digits_GB, Hx by assumption. cbn [bind].
    rewrite !ParserFacts.mul_int_1024_exact by lia.
    rewrite ParserFacts.to_int_integer
      by (assert (0 < 2 ^ (0 + 10 + 10 + 10)) by reflexivity; nia).
    reflexivity.
Qed.

Lemma parse_size_integer_with_suffix_witness :
  parse_size (str "500" ++ str "KB") = Ok (500 * 1024).
Proof.
  refine (proj1 (parse_size_integer_with_suffix (str "500") _ _ _)).
  - reflexivity.
  - discriminate.
  - reflexivity.
Defined.

(** X10. [parse_size] raises nothing but ValueError and OverflowError, and
    OverflowError only when a suffix is present (the scaled value is
    infinite): without a suffix every failure is a ValueError. *)
Theorem parse_size_raises_only :
  forall size_str e,
    parse_size size_str = Raise e ->
    e = ValueError
    \/ (e = OverflowError
        /\ let s := PyStr.strip (PyStr.upper size_str) in
           PyStr.endswith s (str "MB") || PyStr.endswith s (str "GB")
           || PyStr.endswith s (str "KB") = true).
Proof.
  intros s e. unfold parse_size. cbv zeta.
  set (n := PyStr.strip (PyStr.upper s)).
  assert (Hf : forall k : float -> result Z,
            (forall x e', k x = Raise e' ->
                          e' = ValueError \/ e' = OverflowError) ->
            (x <- float_of_str (PyStr.drop_last 2 n) ;; k x) = Raise e ->
            e = ValueError \/ e = OverflowError).
  { intros k Hk H.
    destruct (float_of_str (PyStr.drop_last 2 n)) as [x | e'] eqn:E.
    - cbn [bind] in H. eauto.
    - cbn [bind] in H. inversion H; subst.
      left. eapply ParserFacts.float_of_str_raises; eauto. }
  assert (Hk : forall x e', to_int x = Raise e' ->
                 e' = ValueError \/ e' = OverflowError).
  { intros x e' H.
    apply ParserFacts.to_int_raises in H as [[-> _] | [-> _]]; auto. }
  destruct (PyStr.endswith n (str "MB")).
  { intros H. apply Hf in H as [-> | ->];
      [left; reflexivity | right; split; reflexivity |].
    intros x e'. apply Hk. }
  destruct (PyStr.endswith n (str "GB")).
  { intros H. apply Hf in H as [-> | ->];
      [left; reflexivity | right; split; reflexivity |].
    intros x e'. apply Hk. }
  destruct (PyStr.endswith n (str "KB")).
  { intros H. apply Hf in H as [-> | ->];
      [left; reflexivity | right; split; reflexivity |].
    intros x e'. apply Hk. }
  intros H. left. eapply ParserFacts.int_of_str_raises; eauto.
Qed.

Lemma parse_size_raises_only_witness :
  ValueError = ValueError
  \/ (ValueError = OverflowError
      /\ let s := PyStr.strip (PyStr.upper (str "12 MB x")) in
         PyStr.endswith s (str "MB") || PyStr.endswith s (str "GB")
         || PyStr.endswith s (str "KB") = true).
Proof.
  apply (parse_size_raises_only (str "12 MB x") ValueError).
  vm_compute; reflexivity.
Defined.

(** X11. A size string with no numeric literal is rejected with a
    ValueError: a blank string (empty or white space only), and a bare KB, MB
    or GB in any letter case with any white space around it. *)
Theorem parse_size_without_number :
  forall left unit_name right,
    forallb PyStr.is_space left = true ->
    forallb PyStr.is_space right = true ->
    In (PyStr.upper unit_name) [[]; str "KB"; str "MB"; str "GB"] ->
    parse_size (left ++ unit_name ++ right) = Raise ValueError.
Proof.
  intros l v r Hl Hr Hv. unfold parse_size.
  rewrite (ParserFacts.normalise_padding l v r Hl Hr).
  cbn [In] in Hv.
  destruct Hv as [<- | [<- | [<- | [<- | []]]]]; vm_compute; reflexivity.
Qed.

Lemma parse_size_without_number_witness :
  parse_size (str "  " ++ str "mb" ++ str " ") = Raise ValueError.
Proof.
  apply (parse_size_without_number (str "  ") (str "mb") (str " "));
    try reflexivity.
  right; right; left; reflexivity.
Defined.

(** * The CT raster *)

Module RasterFacts.
Import Raster FloatFacts.

Lemma np_clip_range v : 0 <= np_clip v <= 65535.
Proof. unfold np_clip. lia. Qed.

Lemma astype_uint16_range x : 0 <= astype_uint16 x < 65536.
Proof.
  unfold astype_uint16. destruct x as [n | |]; try lia.
  destruct (_ && _); [|lia].
  apply Z.mod_pos_bound. lia.
Qed.

(** on a uint16 array the clip changes nothing *)
Lemma np_clip_uint16 x : np_clip (astype_uint16 x) = astype_uint16 x.
Proof. pose proof (astype_uint16_range x). unfold np_clip. lia. Qed.

(** a sample between -65536 and 0 is stored 65536 higher *)
Lemma astype_uint16_negative n :
  - 65536 < truncate n < 0 ->
  astype_uint16 (Fin n) = 65536 + truncate n.
Proof.
  intros H. unfold astype_uint16.
  replace (- 2 ^ 31 <? truncate n) with true
    by (symmetry; apply Z.ltb_lt; lia).
  replace (truncate n <? 2 ^ 31) with true
    by (symmetry; apply Z.ltb_lt; lia).
  cbn [andb].
  symmetry. apply Z.mod_unique with (q := -1); lia.
Qed.

(** every sample of the CT raster is inside the 16-bit range *)
Lemma generate_ct_range
      (rng : Type) normal body spine left right rib width height (g : rng) :
  Forall (fun p => 0 <= p <= 65535)
    (fst (generate_ct rng normal body spine left right rib width height g)).
Proof.
  unfold generate_ct.
  repeat match goal with
         | |- context [let (_, _) := ?e in _] => destruct e
         end.
  cbn [fst]. apply Forall_forall. intros p Hp.
  apply in_map_iff in Hp as (v & <- & _). apply np_clip_range.
Qed.

Lemma assign_masked_length img mask values :
  length (assign_masked img mask values) = length img.
Proof.
  revert mask values. induction img as [|p img IH]; intros mask values.
  - destruct mask; reflexivity.
  - destruct mask as [|[] mask]; cbn [assign_masked]; [reflexivity | |].
    + destruct values; cbn [length]; now rewrite IH.
    + cbn [length]. now rewrite IH.
Qed.

(** a position the mask selects receives one of the assigned values *)
Lemma assign_masked_selected img mask values i d :
  (i < length img)%nat ->
  nth i mask false = true ->
  (count_true mask <= length values)%nat ->
  In (nth i (assign_masked img mask values) d) values.
Proof.
  revert mask values i.
  induction img as [|p img IH]; intros mask values i Hi Hm Hc.
  - simpl in Hi. lia.
  - destruct mask as [|b mask]; [destruct i; discriminate|].
    destruct b.
    + destruct values as [|v values].
      { unfold count_true in Hc. simpl in Hc. lia. }
      cbn [assign_masked].
      destruct i as [|i]; [now left|].
      right. apply IH.
      * simpl in Hi. lia.
      * exact Hm.
      * unfold count_true in *. simpl in Hc. lia.
    + cbn [assign_masked].
      destruct i as [|i]; [discriminate|].
      apply IH; [simpl in Hi; lia | exact Hm | exact Hc].
Qed.

Section Lungs.
Variable rng : Type.
Variable normal : Z -> Z -> nat -> rng -> list float * rng.
Variables body spine left right : Z -> Z -> list bool.
Variable rib : nat -> Z -> Z -> list bool.
(** [np.random.normal] returns as many draws as it is asked for *)
Hypothesis normal_size :
  forall loc scale size g, length (fst (normal loc scale size g)) = size.

Lemma fill_length img mask loc scale g :
  length (fst (fill rng normal img mask loc scale g)) = length img.
Proof.
  unfold fill. destruct (normal _ _ _ _). cbn [fst].
  apply assign_masked_length.
Qed.

Lemma ribs_length width height angles img g :
  length
    (fst (fold_left
            (fun (s : image * rng) (angle : nat) =>
               let (img, g) := s in
               fill rng normal img (rib angle width height) 2800 200 g)
            angles (img, g)))
  = length img.
Proof.
  revert img g. induction angles as [|a angles IH]; intros img g; [reflexivity|].
  cbn [fold_left].
  pose proof (fill_length img (rib a width height) 2800 200 g) as E.
  destruct (fill rng normal img (rib a width height) 2800 200 g) as [img' g'].
  cbn [fst] in E. now rewrite IH.
Qed.

(** Every pixel inside a lung holds a lung draw as the cast left it: the
    clip that follows does not change it. *)
Lemma lung_pixel_is_cast_draw width height g i :
  (i < Z.to_nat height * Z.to_nat width)%nat ->
  nth i (mask_or (left width height) (right width height)) false = true ->
  exists size g0 x,
    In x (fst (normal (-1000) 100 size g0))
    /\ nth i (fst (generate_ct rng normal body spine left right rib
                               width height g)) 0
       = astype_uint16 x.
Proof.
  intros Hi Hm. unfold generate_ct.
  set (img0 := repeat 0 (Z.to_nat height * Z.to_nat width)).
  pose proof (fill_length img0 (body width height) 1000 200 g) as E1.
  destruct (fill rng normal img0 (body width height) 1000 200 g) as [img1 g1].
  pose proof (fill_length img1 (spine width height) 3000 300 g1) as E2.
  destruct (fill rng normal img1 (spine width height) 3000 300 g1) as [img2 g2].
  pose proof (ribs_length width height (seq 0 8) img2 g2) as E3.
  destruct (fold_left _ (seq 0 8) (img2, g2)) as [img3 g3].
  cbn [fst] in E1, E2, E3.
  assert (Hlen : length img3 = (Z.to_nat height * Z.to_nat width)%nat).
  { rewrite E3, E2, E1. apply repeat_length. }
  set (lungs := mask_or (left width height) (right width height)) in *.
  unfold fill.
  pose proof (normal_size (-1000) 100 (count_true lungs) g3) as Hn.
  destruct (normal (-1000) 100 (count_true lungs) g3) as [samples g4] eqn:En.
  cbn [fst] in Hn |- *.
  assert (Hin : In (nth i (assign_masked img3 lungs (map astype_uint16 samples)) 0)
                   (map astype_uint16 samples)).
  { apply assign_masked_selected; [lia | exact Hm |].
    rewrite length_map. lia. }
  apply in_map_iff in Hin as (x & Hx & Hin).
  exists (count_true lungs), g3, x. rewrite En. cbn [fst].
  split; [exact Hin|].
  change 0 with (np_clip 0) at 1. rewrite map_nth, <- Hx.
  apply np_clip_uint16.
Qed.

End Lungs.

Lemma mask_or_nth a b i :
  length a = length b ->
  nth i (mask_or a b) false = nth i a false || nth i b false.
Proof.
  revert b i. induction a as [|x a IH]; intros [|y b] i H; try discriminate.
  - destruct i; reflexivity.
  - destruct i as [|i]; [reflexivity|]. cbn [mask_or nth]. apply IH.
    simpl in H. lia.
Qed.

(** row [k] of a mask laid out row by row *)
Lemma rows_nth {B} (row : nat -> list B) (w : nat) d :
  (forall y, length (row y) = w) ->
  forall n s k x,
    (k < n)%nat -> (x < w)%nat ->
    nth (k * w + x) (flat_map row (seq s n)) d = nth x (row (s + k)%nat) d.
Proof.
  intros Hw. induction n as [|n IH]; intros s k x Hk Hx; [lia|].
  cbn [seq flat_map]. destruct k as [|k].
  - rewrite app_nth1 by (rewrite Hw; lia). now rewrite Nat.add_0_r.
  - rewrite app_nth2 by (rewrite Hw; lia). rewrite Hw.
    replace (S k * w + x - w)%nat with (k * w + x)%nat by lia.
    rewrite IH by lia. f_equal. f_equal. lia.
Qed.

Lemma grid_mask_nth inside width height x y :
  (x < Z.to_nat width)%nat -> (y < Z.to_nat height)%nat ->
  nth (y * Z.to_nat width + x) (grid_mask inside width height) false
  = inside (Z.of_nat x) (Z.of_nat y).
Proof.
  intros Hx Hy. unfold grid_mask.
  rewrite (rows_nth _ (Z.to_nat width)); try assumption.
  - cbn [Nat.add].
    rewrite (nth_indep _ false (inside (Z.of_nat 0) (Z.of_nat y)))
      by (rewrite length_map, length_seq; assumption).
    rewrite (map_nth (fun x0 => inside (Z.of_nat x0) (Z.of_nat y))).
    now rewrite seq_nth.
  - intros y0. now rewrite length_map, length_seq.
Qed.

Lemma grid_mask_length inside width height :
  length (grid_mask inside width height)
  = (Z.to_nat height * Z.to_nat width)%nat.
Proof.
  unfold grid_mask. generalize 0%nat at 2. generalize (Z.to_nat height).
  induction n as [|n IH]; intros s; [reflexivity|].
  cbn [seq flat_map]. rewrite length_app, IH, length_map, length_seq.
  reflexivity.
Qed.

(** in the sample raster every lung pixel holds 64536 *)
Lemma sample_ct_lung_pixels i :
  (i < 256 * 256)%nat ->
  nth i sample_lungs false = true ->
  nth i sample_ct 0 = 64536.
Proof.
  intros Hi Hm. unfold sample_ct.
  destruct (lung_pixel_is_cast_draw Datatypes.unit mean_sampler
              body_region spine_region lung_left_region lung_right_region
              (fun _ => nowhere)
              (fun loc scale size g => repeat_length (of_Z loc) size)
              256 256 tt i Hi Hm) as (size & g0 & x & Hx & ->).
  unfold mean_sampler in Hx. cbn [fst] in Hx.
  apply repeat_spec in Hx. subst x.
  vm_compute. reflexivity.
Qed.

(** the pixel of row 128 and column 90 lies in the left lung *)
Lemma sample_lung_pixel : nth (128 * 256 + 90) sample_lungs false = true.
Proof.
  unfold sample_lungs.
  rewrite mask_or_nth
    by (unfold lung_left_region, lung_right_region;
        now rewrite !grid_mask_length).
  unfold lung_left_region.
  rewrite (grid_mask_nth _ 256 256 90 128) by (vm_compute; lia).
  vm_compute. reflexivity.
Qed.

End RasterFacts.

(** the sample raster has the dimensions planned for a target of 100KB *)
Example sample_ct_dimensions :
  parse_size (str "100KB") = Ok 102400
  /\ calculate_dimensions 102400 16 = Ok (256, 256).
Proof. split; vm_compute; reflexivity. Qed.

(** C1. The lung samples are drawn around -1000 and converted to uint16
    before anything is clipped.  In a 256 x 256 CT raster whose draws all
    equal the mean of their distribution, the pixel of row 128 and column
    90, which lies inside the left lung, holds 64536, the value -1000.0
    wraps around to: the high end of the range, not the low one.  The clip
    leaves it there. *)
Theorem ct_lung_samples_wrap_around :
  Raster.astype_uint16 (of_Z (-1000)) = 64536
  /\ Raster.np_clip 64536 = 64536
  /\ nth (128 * 256 + 90) Raster.sample_lungs false = true
  /\ nth (128 * 256 + 90) Raster.sample_ct 0 = 64536.
Proof.
  split; [vm_compute; reflexivity|].
  split; [vm_compute; reflexivity|].
  split; [exact RasterFacts.sample_lung_pixel|].
  apply RasterFacts.sample_ct_lung_pixels.
  - lia.
  - exact RasterFacts.sample_lung_pixel.
Qed.

(** * The raster synthesizer, all variants *)

Module SynthFacts.
Import Raster Synth RasterFacts.

Definition in_u16 (v : Z) : Prop := 0 <= v <= 65535.

Lemma np_clip_id v : in_u16 v -> np_clip v = v.
Proof. unfold in_u16, np_clip. lia. Qed.

Lemma map_clip_id img : Forall in_u16 img -> map np_clip img = img.
Proof.
  induction 1 as [|v img Hv _ IH]; [reflexivity|].
  cbn [map]. now rewrite np_clip_id, IH.
Qed.

Lemma casts_in_u16 xs : Forall in_u16 (map astype_uint16 xs).
Proof.
  apply Forall_forall. intros v Hv.
  apply in_map_iff in Hv as (x & <- & _).
  pose proof (astype_uint16_range x). unfold in_u16. lia.
Qed.

Lemma zeros_in_u16 n : Forall in_u16 (repeat 0 n).
Proof.
  apply Forall_forall. intros v Hv. apply repeat_spec in Hv. subst.
  unfold in_u16. lia.
Qed.

Lemma assign_masked_in_u16 img mask values :
  Forall in_u16 img -> Forall in_u16 values ->
  Forall in_u16 (assign_masked img mask values).
Proof.
  intros Hi. revert mask values.
  induction Hi as [|p img Hp Hi IH]; intros mask values Hv.
  - destruct mask; constructor.
  - destruct mask as [|[] mask]; cbn [assign_masked].
    + now constructor.
    + destruct Hv as [|v values Hv0 Hv]; constructor; auto.
    + constructor; auto.
Qed.

Lemma add_masked_in_u16 img mask values :
  Forall in_u16 img -> Forall in_u16 (add_masked img mask values).
Proof.
  intros Hi. revert mask values.
  induction Hi as [|p img Hp Hi IH]; intros mask values.
  - destruct mask; constructor.
  - destruct mask as [|[] mask]; cbn [add_masked].
    + now constructor.
    + destruct values as [|v values]; constructor; auto.
      pose proof (Z.mod_pos_bound (p + v) 65536 ltac:(lia)).
      unfold in_u16. lia.
    + constructor; auto.
Qed.

Lemma add_masked_length img mask values :
  length (add_masked img mask values) = length img.
Proof.
  revert mask values. induction img as [|p img IH]; intros mask values.
  - destruct mask; reflexivity.
  - destruct mask as [|[] mask]; cbn [add_masked]; [reflexivity | |].
    + destruct values; cbn [length]; now rewrite IH.
    + cbn [length]. now rewrite IH.
Qed.

(** a sample is left alone or raised by one of the values, modulo 2^16 *)
Lemma add_masked_nth img mask values i :
  nth i (add_masked img mask values) 0 = nth i img 0
  \/ exists v,
       In v values
       /\ nth i (add_masked img mask values) 0 = (nth i img 0 + v) mod 65536.
Proof.
  revert mask values i.
  induction img as [|p img IH]; intros mask values i.
  - left. destruct mask; reflexivity.
  - destruct mask as [|b mask]; [now left|].
    destruct b.
    + destruct values as [|v values].
      * cbn [add_masked]. destruct i as [|i]; [now left|].
        cbn [nth]. destruct (IH mask [] i) as [E | (v & [] & _)]. now left.
      * cbn [add_masked]. destruct i as [|i].
        { right. exists v. split; [now left | reflexivity]. }
        cbn [nth]. destruct (IH mask values i) as [E | (v' & Hv & E)];
          [now left|].
        right. exists v'. split; [now right | exact E].
    + cbn [add_masked]. destruct i as [|i]; [now left|].
      cbn [nth]. apply IH.
Qed.

(** a position the mask leaves out keeps its sample *)
Lemma assign_masked_unselected img mask values i d :
  nth i mask false = false ->
  nth i (assign_masked img mask values) d = nth i img d.
Proof.
  revert mask values i.
  induction img as [|p img IH]; intros mask values i Hm.
  - destruct mask; reflexivity.
  - destruct mask as [|b mask]; [reflexivity|].
    destruct b.
    + destruct i as [|i]; [discriminate|].
      destruct values; cbn [assign_masked nth]; now apply IH.
    + cbn [assign_masked]. destruct i as [|i]; [reflexivity|].
      cbn [nth]. now apply IH.
Qed.

Section Variants.
Variable rng : Type.
Variable normal : Z -> Z -> nat -> rng -> list float * rng.
Variable rayleigh : Z -> nat -> rng -> list float * rng.
Variable random : nat -> rng -> list float * rng.
Variable randint : Z -> Z -> rng -> Z * rng.
Variables body spine left right : Z -> Z -> list bool.
Variable rib : nat -> Z -> Z -> list bool.
Variables brain gray white : Z -> Z -> list bool.
Variable organ : Z -> Z -> Z -> Z -> list bool.

Lemma fill_keeps_length img mask loc scale g :
  length (fst (fill rng normal img mask loc scale g)) = length img.
Proof.
  unfold fill. destruct (normal _ _ _ _). cbn [fst].
  apply assign_masked_length.
Qed.

Lemma fill_in_u16 img mask loc scale g :
  Forall in_u16 img ->
  Forall in_u16 (fst (fill rng normal img mask loc scale g)).
Proof.
  intros H. unfold fill. destruct (normal _ _ _ _). cbn [fst].
  apply assign_masked_in_u16; [assumption | apply casts_in_u16].
Qed.

Lemma fill_unselected img mask loc scale g i :
  nth i mask false = false ->
  nth i (fst (fill rng normal img mask loc scale g)) 0 = nth i img 0.
Proof.
  intros H. unfold fill. destruct (normal _ _ _ _). cbn [fst].
  now apply assign_masked_unselected.
Qed.

(** what the eight rib overlays keep *)
Lemma ribs_keep (P : image -> Prop) (Q : list bool -> Prop) width height :
  (forall img mask loc scale g,
      Q mask -> P img -> P (fst (fill rng normal img mask loc scale g))) ->
  (forall angle, Q (rib angle width height)) ->
  forall angles img g,
    P img ->
    P (fst (fold_left
              (fun (s : image * rng) (angle : nat) =>
                 let (img, g) := s in
                 fill rng normal img (rib angle width height) 2800 200 g)
              angles (img, g))).
Proof.
  intros Hfill HQ. induction angles as [|a angles IH]; intros img g HP;
    [exact HP|].
  cbn [fold_left].
  pose proof (Hfill img (rib a width height) 2800 200 g (HQ a) HP) as H.
  destruct (fill rng normal img (rib a width height) 2800 200 g)
    as [img' g'].
  cbn [fst] in H. now apply IH.
Qed.

Lemma generate_ct_clipped width height g :
  generate_ct rng normal body spine left right rib width height g
  = clipped rng (ct_before_clip rng normal body spine left right rib
                            width height g).
Proof.
  unfold generate_ct, ct_before_clip, clipped, pixels.
  repeat match goal with
         | |- context [let (_, _) := ?e in _] => destruct e
         end.
  reflexivity.
Qed.

Lemma ct_before_clip_keeps (P : image -> Prop) (Q : list bool -> Prop)
      width height g :
  (forall img mask loc scale g,
      Q mask -> P img -> P (fst (fill rng normal img mask loc scale g))) ->
  Q (body width height) -> Q (spine width height) ->
  (forall angle, Q (rib angle width height)) ->
  Q (mask_or (left width height) (right width height)) ->
  P (repeat 0 (pixels width height)) ->
  P (fst (ct_before_clip rng normal body spine left right rib
                         width height g)).
Proof.
  intros Hfill Qb Qs Qr Ql H0. unfold ct_before_clip.
  pose proof (Hfill _ (body width height) 1000 200 g Qb H0) as H1.
  destruct (fill rng normal _ (body width height) 1000 200 g) as [img1 g1].
  cbn [fst] in H1.
  pose proof (Hfill _ (spine width height) 3000 300 g1 Qs H1) as H2.
  destruct (fill rng normal img1 (spine width height) 3000 300 g1)
    as [img2 g2].
  cbn [fst] in H2.
  pose proof (ribs_keep P Q width height Hfill Qr (seq 0 8) img2 g2 H2) as H3.
  destruct (fold_left _ (seq 0 8) (img2, g2)) as [img3 g3].
  cbn [fst] in H3.
  apply Hfill; assumption.
Qed.

Lemma mr_before_clip_keeps (P : image -> Prop) width height g :
  (forall img mask loc scale g,
      P img -> P (fst (fill rng normal img mask loc scale g))) ->
  P (repeat 0 (pixels width height)) ->
  P (fst (mr_before_clip rng normal random brain gray white width height g)).
Proof.
  intros Hfill H0. unfold mr_before_clip.
  pose proof (Hfill _ (gray width height) 30000 3000 g H0) as H1.
  destruct (fill rng normal _ (gray width height) 30000 3000 g) as [img1 g1].
  cbn [fst] in H1.
  pose proof (Hfill _ (white width height) 45000 2000 g1 H1) as H2.
  destruct (fill rng normal img1 (white width height) 45000 2000 g1)
    as [img2 g2].
  cbn [fst] in H2.
  destruct (random (pixels width height) g2) as [u g3].
  apply Hfill. exact H2.
Qed.

Lemma add_organ_keeps (P : image -> Prop) width height s s' :
  (forall img mask values, P img -> P (add_masked img mask values)) ->
  add_organ rng normal randint organ width height s = Ok s' ->
  P (fst s) -> P (fst s').
Proof.
  intros Hadd H HP. destruct s as [img g]. unfold add_organ in H.
  apply DimensionFacts.bind_ok in H as (dx & _ & H).
  apply DimensionFacts.bind_ok in H as (dy & _ & H).
  destruct (normal 15000 5000 _ _) as [boost g'].
  inversion H. cbn [fst]. now apply Hadd.
Qed.

Lemma us_before_clip_keeps (P : image -> Prop) width height g s :
  (forall img mask values, P img -> P (add_masked img mask values)) ->
  us_before_clip rng normal rayleigh randint organ width height g = Ok s ->
  P (map astype_uint16 (fst (rayleigh 20000 (pixels width height) g))) ->
  P (fst s).
Proof.
  intros Hadd H HP. unfold us_before_clip in H.
  destruct (rayleigh 20000 (pixels width height) g) as [speckle g0].
  cbn [fst] in HP.
  apply DimensionFacts.bind_ok in H as (s1 & H1 & H).
  apply DimensionFacts.bind_ok in H as (s2 & H2 & H3).
  apply (add_organ_keeps P _ _ _ _ Hadd H3).
  apply (add_organ_keeps P _ _ _ _ Hadd H2).
  apply (add_organ_keeps P _ _ _ _ Hadd H1).
  exact HP.
Qed.

(** the organ loop runs through exactly when both dimensions are positive *)
Lemma np_randint_quarter n g :
  0 <= n ->
  (n = 0 /\ np_randint rng randint (- n / 4) (n / 4) g = Raise ValueError)
  \/ (1 <= n /\ exists r, np_randint rng randint (- n / 4) (n / 4) g = Ok r).
Proof.
  intros Hn. unfold np_randint.
  destruct (Z.eq_dec n 0) as [-> | Hne].
  - left. split; reflexivity.
  - right. split; [lia|].
    assert (- n / 4 < 0).
    { apply Z.div_lt_upper_bound; lia. }
    assert (0 <= n / 4) by (apply Z.div_pos; lia).
    destruct (Z.leb_spec (n / 4) (- n / 4)); [lia | eauto].
Qed.

Lemma add_organ_defined width height s :
  0 <= width -> 0 <= height ->
  (1 <= width /\ 1 <= height
   /\ exists s', add_organ rng normal randint organ width height s = Ok s')
  \/ ((width = 0 \/ height = 0)
      /\ add_organ rng normal randint organ width height s
         = Raise ValueError).
Proof.
  intros Hw Hh. destruct s as [img g]. unfold add_organ.
  destruct (np_randint_quarter width g Hw) as [[-> ->] | [Hw1 [dx ->]]].
  { right. split; [now left | reflexivity]. }
  cbn [bind].
  destruct (np_randint_quarter height (snd dx) Hh) as [[-> ->] | [Hh1 [dy ->]]].
  { right. split; [now right | reflexivity]. }
  cbn [bind]. destruct (normal 15000 5000 _ _).
  left. eauto.
Qed.

Lemma us_before_clip_defined width height g :
  0 <= width -> 0 <= height ->
  (1 <= width /\ 1 <= height
   /\ exists s,
       us_before_clip rng normal rayleigh randint organ width height g = Ok s)
  \/ ((width = 0 \/ height = 0)
      /\ us_before_clip rng normal rayleigh randint organ width height g
         = Raise ValueError).
Proof.
  intros Hw Hh. unfold us_before_clip.
  destruct (rayleigh 20000 (pixels width height) g) as [speckle g0].
  destruct (add_organ_defined width height (map astype_uint16 speckle, g0)
                              Hw Hh) as [(Hw1 & Hh1 & s1 & ->) | [H0 ->]];
    [|right; now split].
  cbn [bind].
  destruct (add_organ_defined width height s1 Hw Hh)
    as [(_ & _ & s2 & ->) | [H0 _]]; [|lia].
  cbn [bind].
  destruct (add_organ_defined width height s2 Hw Hh)
    as [(_ & _ & s3 & ->) | [H0 _]]; [|lia].
  left. eauto.
Qed.

End Variants.

End SynthFacts.

(** X12. A raster that [generate_realistic_medical_image] returns, of any
    modality, holds exactly height x width samples, provided the random
    generators return as many draws as they are asked for. *)
Theorem raster_has_requested_shape
  (rng : Type) normal rayleigh random randint
  body spine left right rib brain gray white organ
  width height modality (g : rng) img g' :
  Synth.generators_sized rng normal rayleigh random ->
  Synth.generate_realistic_medical_image rng normal rayleigh random randint
    body spine left right rib brain gray white organ
    width height modality g = Ok (img, g') ->
  0 <= width /\ 0 <= height
  /\ length img = (Z.to_nat height * Z.to_nat width)%nat.
Proof.
  intros (Hn & Hr & _) H.
  unfold Synth.generate_realistic_medical_image in H.
  destruct ((width <? 0) || (height <? 0)) eqn:Hneg; [discriminate|].
  apply orb_false_iff in Hneg as [Hw Hh].
  apply Z.ltb_ge in Hw. apply Z.ltb_ge in Hh.
  split; [exact Hw|]. split; [exact Hh|].
  assert (Hfill : forall im mask loc scale g0,
             True ->
             length im = Synth.pixels width height ->
             length (fst (Raster.fill rng normal im mask loc scale g0))
             = Synth.pixels width height).
  { intros im mask loc scale g0 _ E.
    now rewrite SynthFacts.fill_keeps_length. }
  destruct (PyStr.eqb modality (str "CT")).
  { rewrite SynthFacts.generate_ct_clipped in H. inversion H.
    rewrite length_map.
    apply (SynthFacts.ct_before_clip_keeps rng normal body spine left right
             rib (fun im => length im = Synth.pixels width height)
             (fun _ => True)); auto.
    apply repeat_length. }
  destruct (PyStr.eqb modality (str "MR")).
  { inversion H. rewrite length_map.
    apply (SynthFacts.mr_before_clip_keeps rng normal random brain gray white
             (fun im => length im = Synth.pixels width height)).
    - intros. now apply Hfill.
    - apply repeat_length. }
  destruct (PyStr.eqb modality (str "US")).
  { apply DimensionFacts.bind_ok in H as (s & Hs & H). inversion H.
    rewrite length_map.
    apply (SynthFacts.us_before_clip_keeps rng normal rayleigh randint organ
             (fun im => length im = Synth.pixels width height)
             width height g s).
    - intros im mask values E. now rewrite SynthFacts.add_masked_length.
    - exact Hs.
    - rewrite length_map. apply Hr. }
  inversion H. unfold Synth.generic_before_clip.
  pose proof (Hn 25000 10000 (Synth.pixels width height) g) as E.
  destruct (normal 25000 10000 (Synth.pixels width height) g).
  cbn [fst Synth.clipped] in *. now rewrite !length_map.
Qed.

Lemma raster_has_requested_shape_witness :
  0 <= 4 /\ 0 <= 4
  /\ length [4000; 1000; 1000; 1000; 1000; 1000; 1000; 1000;
             1000; 1000; 1000; 1000; 1000; 1000; 1000; 1000]
     = (Z.to_nat 4 * Z.to_nat 4)%nat.
Proof.
  apply (raster_has_requested_shape Datatypes.unit
           (Synth.constant_normal (of_Z 1000))
           (fun _ => Synth.constant_draws (of_Z 1000))
           (Synth.constant_draws (of_Z 0)) Synth.constant_randint
           Synth.corner Synth.corner Synth.corner Synth.corner
           (fun _ => Synth.corner)
           Synth.corner Synth.corner Synth.corner (fun _ _ => Synth.corner)
           4 4 (str "US") tt _ tt).
  - unfold Synth.generators_sized, Synth.constant_normal,
      Synth.constant_draws.
    cbn [fst]. repeat split; intros; apply repeat_length.
  - vm_compute. reflexivity.
Defined.

(** X13. The final [np.clip(image, 0, 65535)] of every variant changes
    nothing: the array is of type uint16 already, so the function returns
    what it would return with the four clip lines left out. *)
Theorem final_clip_changes_nothing
  (rng : Type) normal rayleigh random randint
  body spine left right rib brain gray white organ
  width height modality (g : rng) :
  Synth.generate_realistic_medical_image rng normal rayleigh random randint
    body spine left right rib brain gray white organ
    width height modality g
  = Synth.without_clip rng normal rayleigh random randint
      body spine left right rib brain gray white organ
      width height modality g.
Proof.
  assert (Hid : forall s : Raster.image * rng,
             Forall SynthFacts.in_u16 (fst s) -> Synth.clipped rng s = s).
  { intros [im g0] Hs. unfold Synth.clipped. cbn [fst snd] in *.
    now rewrite SynthFacts.map_clip_id. }
  assert (Hfill : forall im mask loc scale g0,
             Forall SynthFacts.in_u16 im ->
             Forall SynthFacts.in_u16
               (fst (Raster.fill rng normal im mask loc scale g0))).
  { intros. now apply SynthFacts.fill_in_u16. }
  unfold Synth.generate_realistic_medical_image, Synth.without_clip.
  destruct ((width <? 0) || (height <? 0)); [reflexivity|].
  destruct (PyStr.eqb modality (str "CT")).
  { rewrite SynthFacts.generate_ct_clipped. f_equal. apply Hid.
    apply (SynthFacts.ct_before_clip_keeps rng normal body spine left right
             rib (Forall SynthFacts.in_u16) (fun _ => True)); auto.
    apply SynthFacts.zeros_in_u16. }
  destruct (PyStr.eqb modality (str "MR")).
  { f_equal. apply Hid.
    apply (SynthFacts.mr_before_clip_keeps rng normal random brain gray white
             (Forall SynthFacts.in_u16)); [exact Hfill|].
    apply SynthFacts.zeros_in_u16. }
  destruct (PyStr.eqb modality (str "US")).
  { destruct (Synth.us_before_clip rng normal rayleigh randint organ
                width height g) as [s|e] eqn:Hs; [|reflexivity].
    cbn [bind]. f_equal. apply Hid.
    apply (SynthFacts.us_before_clip_keeps rng normal rayleigh randint organ
             (Forall SynthFacts.in_u16) width height g s).
    - intros. now apply SynthFacts.add_masked_in_u16.
    - exact Hs.
    - apply SynthFacts.casts_in_u16. }
  f_equal. apply Hid. unfold Synth.generic_before_clip.
  destruct (normal 25000 10000 (Synth.pixels width height) g).
  cbn [fst]. apply SynthFacts.casts_in_u16.
Qed.

(** X14. Draw order of the CT variant: the lungs are assigned last, so a
    pixel inside a lung region holds the uint16 cast of a lung draw (a draw
    of the normal distribution around -1000), whatever body, spine and ribs
    put there before. *)
Theorem ct_lungs_overwrite_earlier_regions
  (rng : Type) normal rayleigh random randint
  body spine left right rib brain gray white organ
  width height (g : rng) img g' i :
  (forall loc scale size g0,
      length (fst (normal loc scale size g0)) = size) ->
  Synth.generate_realistic_medical_image rng normal rayleigh random randint
    body spine left right rib brain gray white organ
    width height (str "CT") g = Ok (img, g') ->
  (i < Z.to_nat height * Z.to_nat width)%nat ->
  nth i (Raster.mask_or (left width height) (right width height)) false
  = true ->
  exists size g0 x,
    In x (fst (normal (-1000) 100 size g0))
    /\ nth i img 0 = Raster.astype_uint16 x.
Proof.
  intros Hn H Hi Hm.
  unfold Synth.generate_realistic_medical_image in H.
  destruct ((width <? 0) || (height <? 0)); [discriminate|].
  change (PyStr.eqb (str "CT") (str "CT")) with true in H.
  inversion H as [E].
  destruct (RasterFacts.lung_pixel_is_cast_draw rng normal body spine left
              right rib Hn width height g i Hi Hm) as (size & g0 & x & Hx & Hp).
  exists size, g0, x. split; [exact Hx|].
  rewrite <- Hp, E. reflexivity.
Qed.

Lemma ct_lungs_overwrite_earlier_regions_witness :
  exists size g0 x,
    In x (fst (Synth.constant_normal (of_Z 1000) (-1000) 100 size g0))
    /\ nth 0 [1000; 0; 0; 0; 0; 0; 0; 0; 0; 0; 0; 0; 0; 0; 0; 0] 0
       = Raster.astype_uint16 x.
Proof.
  apply (ct_lungs_overwrite_earlier_regions Datatypes.unit
           (Synth.constant_normal (of_Z 1000))
           (fun _ => Synth.constant_draws (of_Z 1000))
           (Synth.constant_draws (of_Z 0)) Synth.constant_randint
           Synth.corner Synth.corner Synth.corner Synth.corner
           (fun _ => Synth.corner)
           Synth.corner Synth.corner Synth.corner (fun _ _ => Synth.corner)
           4 4 tt _ tt 0%nat).
  - intros. apply repeat_length.
  - vm_compute. reflexivity.
  - vm_compute. lia.
  - vm_compute. reflexivity.
Defined.

(** X15. A pixel of the CT variant that lies in none of the regions (body,
    spine, the eight ribs, the lungs) keeps the value 0 the array was
    created with. *)
Theorem ct_background_stays_zero
  (rng : Type) normal rayleigh random randint
  body spine left right rib brain gray white organ
  width height (g : rng) img g' i :
  Synth.generate_realistic_medical_image rng normal rayleigh random randint
    body spine left right rib brain gray white organ
    width height (str "CT") g = Ok (img, g') ->
  nth i (body width height) false = false ->
  nth i (spine width height) false = false ->
  (forall angle, nth i (rib angle width height) false = false) ->
  nth i (Raster.mask_or (left width height) (right width height)) false
  = false ->
  nth i img 0 = 0.
Proof.
  intros H Hb Hs Hr Hl.
  unfold Synth.generate_realistic_medical_image in H.
  destruct ((width <? 0) || (height <? 0)); [discriminate|].
  change (PyStr.eqb (str "CT") (str "CT")) with true in H.
  rewrite SynthFacts.generate_ct_clipped in H. inversion H.
  change 0 with (Raster.np_clip 0) at 1. rewrite map_nth.
  rewrite (SynthFacts.ct_before_clip_keeps rng normal body spine left right
             rib (fun im => nth i im 0 = 0)
             (fun mask => nth i mask false = false)); auto.
  - intros im mask loc scale g0 Hm E.
    now rewrite SynthFacts.fill_unselected.
  - apply nth_repeat.
Qed.

Lemma ct_background_stays_zero_witness :
  nth 5 [1000; 0; 0; 0; 0; 0; 0; 0; 0; 0; 0; 0; 0; 0; 0; 0] 0 = 0.
Proof.
  apply (ct_background_stays_zero Datatypes.unit
           (Synth.constant_normal (of_Z 1000))
           (fun _ => Synth.constant_draws (of_Z 1000))
           (Synth.constant_draws (of_Z 0)) Synth.constant_randint
           Synth.corner Synth.corner Synth.corner Synth.corner
           (fun _ => Synth.corner)
           Synth.corner Synth.corner Synth.corner (fun _ _ => Synth.corner)
           4 4 tt _ tt 5%nat).
  - vm_compute. reflexivity.
  - vm_compute. reflexivity.
  - vm_compute. reflexivity.
  - intros angle. vm_compute. reflexivity.
  - vm_compute. reflexivity.
Defined.

(** X16. The ultrasound variant needs a raster with at least one pixel:
    for non-negative dimensions it returns when both are positive, and
    raises ValueError when one of them is 0, because [np.random.randint]
    is then asked for a number in the empty range from 0 to 0. *)
Theorem ultrasound_needs_a_pixel
  (rng : Type) normal rayleigh random randint
  body spine left right rib brain gray white organ
  width height (g : rng) :
  0 <= width -> 0 <= height ->
  (1 <= width /\ 1 <= height
   /\ exists s,
       Synth.generate_realistic_medical_image rng normal rayleigh random
         randint body spine left right rib brain gray white organ
         width height (str "US") g = Ok s)
  \/ ((width = 0 \/ height = 0)
      /\ Synth.generate_realistic_medical_image rng normal rayleigh random
           randint body spine left right rib brain gray white organ
           width height (str "US") g = Raise ValueError).
Proof.
  intros Hw Hh. unfold Synth.generate_realistic_medical_image.
  replace ((width <? 0) || (height <? 0)) with false.
  2:{ symmetry. apply orb_false_iff. split; apply Z.ltb_ge; assumption. }
  change (PyStr.eqb (str "US") (str "CT")) with false.
  change (PyStr.eqb (str "US") (str "MR")) with false.
  change (PyStr.eqb (str "US") (str "US")) with true.
  cbv iota.
  destruct (SynthFacts.us_before_clip_defined rng normal rayleigh randint
              organ width height g Hw Hh)
    as [(Hw1 & Hh1 & s & ->) | [H0 ->]].
  - left. cbn [bind]. eauto.
  - right. split; [exact H0 | reflexivity].
Qed.

Lemma ultrasound_needs_a_pixel_witness :
  (1 <= 0 /\ 1 <= 4
   /\ exists s, Synth.sample_raster 0 4 (str "US") = Ok s)
  \/ ((0 = 0 \/ 4 = 0)
      /\ Synth.sample_raster 0 4 (str "US") = Raise ValueError).
Proof.
  apply (ultrasound_needs_a_pixel Datatypes.unit
           (Synth.constant_normal (of_Z 1000))
           (fun _ => Synth.constant_draws (of_Z 1000))
           (Synth.constant_draws (of_Z 0)) Synth.constant_randint
           Synth.corner Synth.corner Synth.corner Synth.corner
           (fun _ => Synth.corner)
           Synth.corner Synth.corner Synth.corner (fun _ _ => Synth.corner)
           0 4 tt); lia.
Defined.

(** X17. One round of the ultrasound loop that adds an organ leaves a
    sample alone or raises it by the uint16 cast of a draw of the normal
    distribution around 15000, and the sum is taken modulo 65536: the
    boost of a bright sample wraps around instead of saturating. *)
Theorem organ_boost_is_added_modulo
  (rng : Type) (normal : Z -> Z -> nat -> rng -> list float * rng)
  randint organ width height img (g : rng) img' g' i :
  Synth.add_organ rng normal randint organ width height (img, g)
  = Ok (img', g') ->
  nth i img' 0 = nth i img 0
  \/ exists x size g0,
       In x (fst (normal 15000 5000 size g0))
       /\ nth i img' 0
          = (nth i img 0 + Raster.astype_uint16 x) mod 65536.
Proof.
  intros H. unfold Synth.add_organ in H.
  apply DimensionFacts.bind_ok in H as (dx & _ & H).
  apply DimensionFacts.bind_ok in H as (dy & _ & H).
  set (mask := organ (width / 2 + fst dx) (height / 2 + fst dy) width height)
    in *.
  destruct (normal 15000 5000 (Raster.count_true mask) (snd dy))
    as [boost g1] eqn:En.
  inversion H; subst img' g'.
  destruct (SynthFacts.add_masked_nth img mask
              (map Raster.astype_uint16 boost) i) as [E | (v & Hv & E)];
    [now left|].
  right. apply in_map_iff in Hv as (x & <- & Hx).
  exists x, (Raster.count_true mask), (snd dy). rewrite En. cbn [fst].
  split; [exact Hx | exact E].
Qed.

Lemma organ_boost_is_added_modulo_witness :
  nth 0 [9464; 60000; 60000; 60000] 0 = nth 0 (repeat 60000 4) 0
  \/ exists x size g0,
       In x (fst (Synth.constant_normal (of_Z 15000) 15000 5000 size g0))
       /\ nth 0 [9464; 60000; 60000; 60000] 0
          = (nth 0 (repeat 60000 4) 0 + Raster.astype_uint16 x) mod 65536.
Proof.
  apply (organ_boost_is_added_modulo Datatypes.unit
           (Synth.constant_normal (of_Z 15000)) Synth.constant_randint
           (fun _ _ => Synth.corner) 2 2 (repeat 60000 4) tt
           [9464; 60000; 60000; 60000] tt 0%nat).
  vm_compute. reflexivity.
Defined.

(** * Identifiers of the container *)

Module DicomFacts.
Import Dicom.

Lemma saved_app w e :
  saved {| uid_draws := uid_draws w; trace := trace w ++ [e] |}
  = saved w ++ match e with EvSave _ ds => [ds] | _ => [] end.
Proof. unfold saved. cbn [trace]. rewrite flat_map_app. simpl. now rewrite app_nil_r. Qed.

(** the progress line that prints the target in megabytes raises
    OverflowError or nothing *)
Lemma megabytes_cases t :
  (exists x, true_div t (1024 * 1024) = Ok x)
  \/ true_div t (1024 * 1024) = Raise OverflowError.
Proof.
  unfold true_div. change (1024 * 1024 =? 0) with false. cbv iota.
  destruct (of_ratio _ _ _); eauto.
Qed.

(** what a call leaves behind: nothing written, or one data set whose four
    generated identifiers are the next four draws *)
Lemma invoke_effect env i w :
  let w' := snd (invoke env i w) in
  (saved w' = saved w /\ uid_draws w <= uid_draws w')%nat
  \/ (exists ds,
        saved w' = saved w ++ [ds]
        /\ uid_draws w' = (uid_draws w + 4)%nat
        /\ generated_fields ds
           = map (minted env)
                 [uid_draws w; S (uid_draws w); S (S (uid_draws w));
                  S (S (S (uid_draws w)))]
        /\ MediaStorageSOPClassUID (file_meta ds) = class_of (Modality ds)).
Proof.
  unfold invoke, create_dicom_file, bindM, lift.
  destruct (megabytes_cases (inv_target i)) as [[x ->] | ->].
  2:{ left. cbn [snd]. split; [reflexivity | lia]. }
  destruct (calculate_dimensions (inv_target i) 16) as [[width height] | e].
  2:{ left. cbn [snd]. split; [reflexivity | lia]. }
  cbn [synthesize log generate_uid uid_draws trace].
  unfold save_as.
  destruct (can_write env (inv_output i)).
  - right. cbn [log ret snd uid_draws trace raise].
    eexists. split; [|split; [|split]].
    + unfold saved at 1. cbn [trace].
      rewrite !flat_map_app. cbn [flat_map app]. rewrite !app_nil_r.
      reflexivity.
    + lia.
    + reflexivity.
    + reflexivity.
  - left. cbn [raise snd uid_draws trace]. split; [|lia].
    unfold saved. cbn [trace]. rewrite flat_map_app. cbn. now rewrite app_nil_r.
Qed.

Lemma invoke_keeps_record env i w :
  draws_recorded env w -> draws_recorded env (snd (invoke env i w)).
Proof.
  intros (idxs & Hmap & Hnd & Hlt).
  destruct (invoke_effect env i w) as [[Hs Hd] | (ds & Hs & Hd & Hg & _)].
  - exists idxs. rewrite Hs. split; [assumption|]. split; [assumption|].
    eapply Forall_impl; [|exact Hlt]. cbv beta. intros; lia.
  - set (c := uid_draws w) in *.
    exists (idxs ++ [c; S c; S (S c); S (S (S c))]).
    rewrite Hs, flat_map_app, Hmap, map_app. cbn [flat_map].
    rewrite app_nil_r, Hg.
    split; [reflexivity|]. split.
    + apply NoDup_app; [assumption | |].
      * repeat constructor; cbn [In]; lia.
      * intros a Ha Hin. rewrite Forall_forall in Hlt.
        specialize (Hlt _ Ha). cbn [In] in Hin. lia.
    + rewrite Hd. apply Forall_app. split.
      * eapply Forall_impl; [|exact Hlt]. cbv beta. intros; lia.
      * repeat constructor; lia.
Qed.

Lemma invoke_keeps_classes env i w :
  classes_fixed w -> classes_fixed (snd (invoke env i w)).
Proof.
  unfold classes_fixed. intros H.
  destruct (invoke_effect env i w) as [[Hs _] | (ds & Hs & _ & _ & Hc)];
    rewrite Hs; [assumption|].
  apply Forall_app. split; [assumption | now constructor].
Qed.

Lemma run_invariants env calls w :
  draws_recorded env w -> classes_fixed w ->
  draws_recorded env (run env calls w) /\ classes_fixed (run env calls w).
Proof.
  revert w. induction calls as [|i calls IH]; intros w Hd Hc; [now split|].
  cbn [run fold_left]. apply IH.
  - now apply invoke_keeps_record.
  - now apply invoke_keeps_classes.
Qed.

Lemma NoDup_map_injective {A B} (f : A -> B) l :
  (forall x y, f x = f y -> x = y) -> NoDup l -> NoDup (map f l).
Proof.
  intros Hf. induction 1 as [|a l Hin Hnd IH]; cbn; constructor; [|assumption].
  intros H. apply in_map_iff in H as (y & Hy & Hin').
  apply Hf in Hy. now subst.
Qed.

Lemma initial_invariants env :
  draws_recorded env initial_world /\ classes_fixed initial_world.
Proof.
  split; [|constructor].
  exists []. repeat split; constructor.
Qed.

End DicomFacts.

(** C2, as the claim states it, fails: the storage-class identifier is not
    generated.  Two CT files written one after the other carry the same
    one, although the random source never repeats itself. *)
Lemma storage_class_identifier_reused :
  Dicom.never_repeats (Dicom.entropy Dicom.sample_env)
  /\ map (fun ds => Dicom.MediaStorageSOPClassUID (Dicom.file_meta ds))
         Dicom.sample_files
     = [Dicom.CTImageStorage; Dicom.CTImageStorage]
  /\ ~ NoDup (flat_map Dicom.identifier_fields Dicom.sample_files).
Proof.
  split; [intros i j H; now apply Nat2N.inj|].
  split; [vm_compute; reflexivity|].
  intros H. vm_compute in H.
  apply NoDup_cons_iff in H as [Hin _]. apply Hin.
  do 4 right. left. reflexivity.
Qed.

(** C2, amended. When the random source never repeats itself, the instance,
    implementation-class, study and series identifiers of all the files
    written by any series of calls of [create_dicom_file] are pairwise
    distinct, within a file and across files, and none of them equals a
    storage-class identifier.  The storage-class identifier itself is not
    generated: it is the registered identifier of CT Image Storage when the
    modality is CT and that of MR Image Storage otherwise. *)
Theorem generated_identifiers_fresh :
  forall env calls,
    Dicom.never_repeats (Dicom.entropy env) ->
    let written := Dicom.saved (Dicom.run env calls Dicom.initial_world) in
    NoDup (flat_map Dicom.generated_fields written)
    /\ (forall ds id,
          In ds written ->
          In id (flat_map Dicom.generated_fields written) ->
          Dicom.MediaStorageSOPClassUID (Dicom.file_meta ds) <> id)
    /\ Forall (fun ds =>
                 Dicom.MediaStorageSOPClassUID (Dicom.file_meta ds)
                 = if pyval_eqb (Dicom.Modality ds) (PStr (str "CT"))
                   then Dicom.CTImageStorage else Dicom.MRImageStorage)
              written.
Proof.
  intros env calls Hfresh written.
  destruct (DicomFacts.initial_invariants env) as [Hd0 Hc0].
  destruct (DicomFacts.run_invariants env calls _ Hd0 Hc0)
    as [(idxs & Hmap & Hnd & _) Hcls].
  fold written in Hmap, Hcls. unfold classes_fixed in Hcls.
  split; [|split].
  - rewrite Hmap. apply DicomFacts.NoDup_map_injective; [|assumption].
    intros x y H. unfold minted in H. inversion H. now apply Hfresh.
  - intros ds id Hds Hid. rewrite Hmap in Hid.
    apply in_map_iff in Hid as (i & <- & _).
    rewrite Forall_forall in Hcls. rewrite (Hcls _ Hds).
    unfold class_of, minted.
    destruct (pyval_eqb _ _); discriminate.
  - exact Hcls.
Qed.

Lemma generated_identifiers_fresh_witness :
  NoDup (flat_map Dicom.generated_fields Dicom.sample_files).
Proof.
  apply (generated_identifiers_fresh Dicom.sample_env
           [Dicom.sample_call; Dicom.sample_call]).
  intros i j H. exact (Nat2N.inj i j H).
Defined.

(** * The command line *)

Module CliFacts.
Import PyStr StrFacts Dicom Cli.

Lemma exits_bind {A B} (r : result A) (k : A -> result B) :
  exits_0_or_2 r -> (forall a, r = Ok a -> exits_0_or_2 (k a)) ->
  exits_0_or_2 (x <- r ;; k x).
Proof. destruct r; simpl; auto. Qed.

Lemma parse_optional_exits s : exits_0_or_2 (parse_optional s).
Proof.
  unfold parse_optional.
  repeat match goal with
         | |- exits_0_or_2 (match ?x with _ => _ end) => destruct x
         | |- exits_0_or_2 (if ?x then _ else _) => destruct x
         | |- exits_0_or_2 (let (_, _) := ?x in _) => destruct x
         end; simpl; auto.
Qed.

Lemma classify_exits argv : exits_0_or_2 (classify argv).
Proof.
  induction argv as [|s rest IH]; cbn [classify]; [exact I|].
  destruct (eqb s (str "--")); [exact I|].
  apply exits_bind; [apply parse_optional_exits|]. intros k _.
  apply exits_bind; [exact IH|]. intros; exact I.
Qed.

Lemma get_values_exits a v : exits_0_or_2 (get_values a v).
Proof.
  unfold get_values. destruct (eqb v (str "--")); [exact I|].
  destruct a; try exact I.
  destruct (existsb (eqb v) choices); cbn [exits_0_or_2]; auto.
Qed.

Lemma store_exits a v st : exits_0_or_2 (store a v st).
Proof.
  unfold store. destruct a; try (cbn [exits_0_or_2]; auto; fail);
    (apply exits_bind; [apply get_values_exits | intros; exact I]).
Qed.

Lemma help_exit_exits opt explicit :
  help_exit opt explicit = SystemExit 0 \/ help_exit opt explicit = SystemExit 2.
Proof.
  unfold help_exit. destruct explicit as [[|c e]|]; auto.
  destruct (_ && _); auto.
Qed.

(** every property of [consume] is shown by this case analysis: the
    first token decides, and an option without a glued value looks at the
    token after it *)
Lemma consume_cases (P : list (pystr * kind) -> pstate -> result pstate -> Prop) :
  (forall st, P [] st (Ok st)) ->
  (forall s opt explicit rest st,
      P ((s, Flag opt Help explicit) :: rest) st (Raise (help_exit opt explicit))) ->
  (forall s opt a v rest st,
      a <> Help ->
      (forall st', store a v st = Ok st' -> P rest st' (consume rest st')) ->
      P ((s, Flag opt a (Some v)) :: rest) st
        (st' <- store a v st ;; consume rest st')) ->
  (forall s opt a v rest st,
      a <> Help ->
      (forall st', store a v st = Ok st' -> P rest st' (consume rest st')) ->
      P ((s, Flag opt a None) :: (v, Positional) :: rest) st
        (st' <- store a v st ;; consume rest st')) ->
  (forall s opt a rest st,
      a <> Help ->
      match rest with (_, Positional) :: _ => False | _ => True end ->
      P ((s, Flag opt a None) :: rest) st (Raise (SystemExit 2))) ->
  (forall s k rest st,
      k = Positional \/ k = Separator \/ k = Unknown ->
      P rest (with_extras st) (consume rest (with_extras st)) ->
      P ((s, k) :: rest) st (consume rest (with_extras st))) ->
  forall tokens st, P tokens st (consume tokens st).
Proof.
  intros Hnil Hhelp Hglued Hnext Hmissing Hpos.
  assert (H : forall n tokens, (length tokens <= n)%nat ->
                forall st, P tokens st (consume tokens st)).
  { induction n as [|n IH]; intros tokens Hlen st.
    - destruct tokens; [apply Hnil | simpl in Hlen; lia].
    - destruct tokens as [|[s k] rest]; [apply Hnil|].
      simpl in Hlen.
      destruct k as [| | opt a explicit |].
      + cbn [consume]. apply Hpos; [auto | apply IH; lia].
      + cbn [consume]. apply Hpos; [auto | apply IH; lia].
      + destruct a; [cbn [consume]; apply Hhelp | | | |];
          (destruct explicit as [v|];
           [ cbn [consume]; apply Hglued; [discriminate|];
             intros; apply IH; lia
           | destruct rest as [|[v k] rest];
             [ cbn [consume]; apply Hmissing; [discriminate | exact I]
             | destruct k; cbn [consume];
               try (apply Hmissing; [discriminate | exact I]);
               apply Hnext; [discriminate|];
               intros; apply IH; simpl in Hlen; lia ] ]).
      + cbn [consume]. apply Hpos; [auto | apply IH; lia]. }
  intros tokens st. now apply (H (length tokens)).
Qed.

Lemma consume_exits tokens st : exits_0_or_2 (consume tokens st).
Proof.
  apply (consume_cases (fun _ _ r => exits_0_or_2 r)); intros;
    cbn [exits_0_or_2]; auto.
  - apply help_exit_exits.
  - apply exits_bind; [apply store_exits | auto].
  - apply exits_bind; [apply store_exits | auto].
Qed.

(** the parser leaves with status 0 or 2, or returns *)
Lemma parse_args_exits argv : exits_0_or_2 (parse_args argv).
Proof.
  unfold parse_args.
  apply exits_bind; [apply classify_exits|]. intros tokens _.
  apply exits_bind; [apply consume_exits|]. intros st _.
  destruct (p_size st), (p_output st); cbn [exits_0_or_2]; auto.
  destruct (p_extras st); cbn [exits_0_or_2]; auto.
Qed.

Lemma in_choices v : existsb (eqb v) choices = true <-> In v choices.
Proof.
  rewrite existsb_exists. split.
  - intros (x & Hx & E). apply eqb_eq in E. now subst.
  - intros H. exists v. split; [assumption | apply eqb_refl].
Qed.

(** what [get_values] returns: the empty list for [--], the string
    otherwise, which for the modality is one of the choices *)
Lemma get_values_ok a v value :
  get_values a v = Ok value ->
  (v = str "--" /\ value = PEmptyList)
  \/ (v <> str "--" /\ value = PStr v /\ (a = ModalityOpt -> In v choices)).
Proof.
  unfold get_values. destruct (eqb v (str "--")) eqn:E.
  - apply eqb_eq in E. intros H. inversion H. now left.
  - assert (Hv : v <> str "--").
    { intros ->. rewrite eqb_refl in E. discriminate. }
    destruct a;
      try (intros H; inversion H; right;
           split; [assumption|]; split; [reflexivity | intros E'; discriminate E']).
    destruct (existsb (eqb v) choices) eqn:Ec; [|discriminate].
    intros H. inversion H. right.
    split; [assumption|]. split; [reflexivity|].
    intros _. now apply in_choices.
Qed.

Lemma store_ok a v st st' :
  store a v st = Ok st' ->
  a <> Help /\ exists value, get_values a v = Ok value /\ st' = set_value a value st.
Proof.
  unfold store. destruct a; try discriminate; intros H;
    apply DimensionFacts.bind_ok in H as (value & Hv & H); inversion H;
    (split; [discriminate | eauto]).
Qed.

Lemma store_modality a v st st' :
  store a v st = Ok st' ->
  accepted_modality (p_modality st) -> accepted_modality (p_modality st').
Proof.
  intros H Hacc. apply store_ok in H as (Ha & value & Hv & ->).
  destruct a; try exact Hacc.
  cbn [set_value p_modality].
  apply get_values_ok in Hv as [[_ ->] | (_ & -> & Hc)].
  - now left.
  - right. exists v. split; [reflexivity | now apply Hc].
Qed.


(** the modality held by the parser is always one of the choices or the
    empty list *)
Lemma consume_modality tokens st st' :
  consume tokens st = Ok st' ->
  accepted_modality (p_modality st) -> accepted_modality (p_modality st').
Proof.
  revert st'.
  apply (consume_cases
           (fun _ st r => forall st', r = Ok st' ->
              accepted_modality (p_modality st) ->
              accepted_modality (p_modality st'))).
  - intros st0 st' H. now inversion H.
  - discriminate.
  - intros s opt a v rest st0 _ IH st' H Hin.
    apply DimensionFacts.bind_ok in H as (st1 & Hs & H).
    eapply IH; eauto using store_modality.
  - intros s opt a v rest st0 _ IH st' H Hin.
    apply DimensionFacts.bind_ok in H as (st1 & Hs & H).
    eapply IH; eauto using store_modality.
  - discriminate.
  - intros s k rest st0 _ IH st' H Hin. now apply IH.
Qed.

Lemma parse_args_modality argv ns :
  parse_args argv = Ok ns -> accepted_modality (modality ns).
Proof.
  unfold parse_args. intros H.
  apply DimensionFacts.bind_ok in H as (tokens & _ & H).
  apply DimensionFacts.bind_ok in H as (st & Hst & H).
  apply consume_modality in Hst.
  2:{ right. exists (str "CT"). split; [reflexivity | now left]. }
  destruct (p_size st), (p_output st); try discriminate.
  destruct (p_extras st); [discriminate|].
  inversion H. exact Hst.
Qed.










End CliFacts.

(** * The writer and the process as a whole *)

Module MainFacts.
Import PyStr StrFacts Dicom Cli.


(** a target far below 2^1024 megabytes is printed without harm *)
Lemma true_div_small t :
  0 <= t < 2 ^ 1000 -> exists a, true_div t (1024 * 1024) = Ok (Fin a).
Proof.
  intros H. unfold true_div.
  change (1024 * 1024 =? 0) with false.
  change (1024 * 1024 <? 0) with false. cbv iota.
  replace (t <? 0) with false by (symmetry; apply Z.ltb_ge; lia).
  cbn [xorb]. rewrite Z.abs_eq by lia.
  change (Z.abs (1024 * 1024)) with (1024 * 1024).
  destruct (FractionFacts.of_ratio_finite t (1024 * 1024) 1000)
    as (a & -> & _); try lia.
  eauto.
Qed.

(** the ways a call of [create_dicom_file] can go *)
Lemma create_dicom_file_cases env out target md patient w :
  (exists e,
      (true_div target (1024 * 1024) = Raise e
       \/ calculate_dimensions target 16 = Raise e)
      /\ create_dicom_file env out target md patient w = (Raise e, w))
  \/ (exists width height,
         calculate_dimensions target 16 = Ok (width, height)
         /\ can_write env out = false
         /\ create_dicom_file env out target md patient w
            = (Raise OSError,
               {| uid_draws := 4 + uid_draws w;
                  trace := trace w ++ [EvSynthesize width height md] |}))
  \/ (exists width height ds,
         calculate_dimensions target 16 = Ok (width, height)
         /\ can_write env out = true
         /\ create_dicom_file env out target md patient w
            = (Ok (encoded_size env ds),
               {| uid_draws := 4 + uid_draws w;
                  trace := trace w
                           ++ [EvSynthesize width height md;
                               EvSave out ds] |})
         /\ Rows ds = height /\ Columns ds = width
         /\ Modality ds = md /\ PatientName ds = patient
         /\ BitsAllocated ds = 16
         /\ SOPClassUID ds = MediaStorageSOPClassUID (file_meta ds)
         /\ SOPInstanceUID ds = MediaStorageSOPInstanceUID (file_meta ds)
         /\ generated_fields ds
            = map (minted env)
                  [uid_draws w; S (uid_draws w); S (S (uid_draws w));
                   S (S (S (uid_draws w)))]).
Proof.
  unfold create_dicom_file, bindM, lift.
  destruct (true_div target (1024 * 1024)) as [x | e].
  2:{ left. exists e. split; [now left | reflexivity]. }
  destruct (calculate_dimensions target 16) as [[width height] | e].
  2:{ left. exists e. split; [now right | reflexivity]. }
  right.
  cbn [synthesize log generate_uid uid_draws trace].
  unfold save_as.
  destruct (can_write env out).
  - right. cbn [log ret uid_draws trace].
    eexists width, height, _.
    split; [reflexivity|]. split; [reflexivity|].
    rewrite <- app_assoc. cbn [app Nat.add].
    repeat (split; [reflexivity|]). reflexivity.
  - left. cbn [raise]. exists width, height.
    split; [reflexivity|]. split; reflexivity.
Qed.

(** the ways the [try] block of [main] can go before the writer *)
Lemma main_body_cases env args w :
  (exists e, main_body env args w = (Raise e, w))
  \/ (exists s target x o,
         size args = PStr s
         /\ parse_size s = Ok target
         /\ true_div target (1024 * 1024) = Ok x
         /\ output args = PStr o
         /\ can_mkdir env (parent_dir env o) = true
         /\ main_body env args w
            = create_dicom_file env o target (modality args)
                (patient_name args)
                (after w [EvMakedirs (parent_dir env o)])).
Proof.
  unfold main_body, bindM, lift, makedirs.
  destruct (size args) as [s|]; cbn [parse_size_of];
    [|left; eexists; reflexivity].
  destruct (parse_size s) as [target | e] eqn:Es;
    [|left; eexists; reflexivity].
  destruct (true_div target (1024 * 1024)) as [x | e] eqn:Ex;
    [|left; eexists; reflexivity].
  destruct (output args) as [o|]; cbn [path_of];
    [|left; eexists; reflexivity].
  destruct (can_mkdir env (parent_dir env o)) eqn:Em;
    [|left; eexists; reflexivity].
  right. exists s, target, x, o.
  split; [reflexivity|]. split; [exact Es|]. split; [exact Ex|].
  split; [reflexivity|]. split; [exact Em|]. reflexivity.
Qed.

Lemma main_cases env argv w :
  (exists code,
      (code = 0 \/ code = 2)
      /\ parse_args argv = Raise (SystemExit code)
      /\ main env argv w = (code, w))
  \/ (exists args,
         parse_args argv = Ok args
         /\ accepted_modality (modality args)
         /\ main env argv w
            = match main_body env args w with
              | (Ok _, w') => (0, w')
              | (Raise _, w') => (1, w')
              end).
Proof.
  unfold main. pose proof (CliFacts.parse_args_exits argv) as H.
  destruct (parse_args argv) as [args | e] eqn:E.
  - right. exists args. split; [reflexivity|]. split; [|reflexivity].
    now apply CliFacts.parse_args_modality with (argv := argv).
  - left. cbn [exits_0_or_2] in H.
    destruct H as [-> | ->]; [exists 0 | exists 2]; auto.
Qed.




(** tokens without a leading dash are values *)
Lemma plain_positional s : plain s -> parse_optional s = Ok Positional.
Proof.
  unfold plain, parse_optional. destruct s as [|c rest]; [reflexivity|].
  cbn [startswith str list_ascii_of_string]. intros H.
  replace (startswith rest []) with true in H by (now destruct rest).
  rewrite andb_true_r in H. now rewrite H.
Qed.

Lemma plain_not_separator s : plain s -> eqb s (str "--") = false.
Proof.
  unfold plain. destruct s as [|c rest]; [reflexivity|].
  intros H. cbn [startswith str list_ascii_of_string] in H.
  replace (startswith rest []) with true in H by (now destruct rest).
  rewrite andb_true_r in H.
  destruct (eqb (c :: rest) (str "--")) eqn:E; [|reflexivity].
  apply eqb_eq in E. inversion E; subst. discriminate.
Qed.

Lemma plain_get_values a v :
  plain v -> (a = ModalityOpt -> In v choices) ->
  get_values a v = Ok (PStr v).
Proof.
  intros Hv Hc. unfold get_values.
  rewrite (plain_not_separator v Hv).
  destruct a; try reflexivity.
  replace (existsb (eqb v) choices) with true; [reflexivity|].
  symmetry. apply CliFacts.in_choices. now apply Hc.
Qed.

Lemma classify_plain argv :
  Forall plain argv ->
  classify argv = Ok (map (fun t => (t, Positional)) argv).
Proof.
  induction 1 as [|s argv Hs _ IH]; [reflexivity|].
  cbn [classify map].
  rewrite (plain_not_separator s Hs), (plain_positional s Hs), IH.
  reflexivity.
Qed.

Lemma consume_values argv st :
  exists st',
    consume (map (fun t => (t, Positional)) argv) st = Ok st'
    /\ p_size st' = p_size st.
Proof.
  revert st. induction argv as [|s argv IH]; intros st; [now exists st|].
  cbn [map consume]. destruct (IH (with_extras st)) as (st' & -> & E).
  exists st'. split; [reflexivity | exact E].
Qed.

Lemma classify_option opt v rest tokens a :
  parse_optional opt = Ok (Flag opt a None) ->
  eqb opt (str "--") = false ->
  plain v ->
  classify rest = Ok tokens ->
  classify (opt :: v :: rest)
  = Ok ((opt, Flag opt a None) :: (v, Positional) :: tokens).
Proof.
  intros Ho Hs Hv Hr. cbn [classify].
  rewrite Hs, Ho. cbn [bind].
  rewrite (plain_not_separator v Hv), (plain_positional v Hv), Hr.
  reflexivity.
Qed.

Lemma planned_range target width height :
  calculate_dimensions target 16 = Ok (width, height) ->
  256 <= width <= 8192 /\ 256 <= height <= 8192.
Proof.
  intros H. unfold calculate_dimensions in H.
  apply DimensionFacts.bind_ok in H as ([w0 h0] & _ & H).
  inversion H; subst.
  split; apply DimensionFacts.clamp_range.
Qed.

(** a target below the header allowance has no plan *)
Lemma no_plan_below_allowance target :
  target < 10240 -> exists e, calculate_dimensions target 16 = Raise e.
Proof.
  intros Ht. unfold calculate_dimensions, unclamped_dimensions.
  rewrite DimensionFacts.total_pixels_default. cbn [bind].
  destruct (DimensionFacts.tier_dimensions_raises ((target - 10240) / 2))
    as [e ->]; [|cbn [bind]; eauto].
  assert ((target - 10240) / 2 < 0)
    by (apply Z.div_lt_upper_bound; lia).
  lia.
Qed.

End MainFacts.




Example unknown_modality_exit_status :
  Cli.main Dicom.sample_env
    (map str ["--size"; "1MB"; "--output"; "x.dcm"; "--modality"; "XR"]%string)
    Dicom.initial_world
  = (2, Dicom.initial_world)
  /\ Cli.main Dicom.sample_env
       (map str ["--size"; "1MB"; "--output"; "x.dcm"; "--modality=XR"]%string)
       Dicom.initial_world
     = (2, Dicom.initial_world).
Proof. split; vm_compute; reflexivity. Qed.

(** X18. The plan and the synthesizer fit together: whatever dimensions
    [calculate_dimensions] returns, [generate_realistic_medical_image]
    returns a raster for them, for every modality string; the step of
    [create_dicom_file] that generates the image data cannot raise. *)
Theorem planned_raster_is_always_synthesized
  (rng : Type) normal rayleigh random randint
  body spine left right rib brain gray white organ
  target width height modality (g : rng) :
  calculate_dimensions target 16 = Ok (width, height) ->
  exists img g',
    Synth.generate_realistic_medical_image rng normal rayleigh random randint
      body spine left right rib brain gray white organ
      width height modality g = Ok (img, g').
Proof.
  intros H. apply MainFacts.planned_range in H as [Hw Hh].
  unfold Synth.generate_realistic_medical_image.
  replace ((width <? 0) || (height <? 0)) with false.
  2:{ symmetry. apply orb_false_iff. split; apply Z.ltb_ge; lia. }
  destruct (PyStr.eqb modality (str "CT")).
  { destruct (Raster.generate_ct _ _ _ _ _ _ _ _ _ _) as [img g']. eauto. }
  destruct (PyStr.eqb modality (str "MR")).
  { destruct (Synth.clipped _ _) as [img g']. eauto. }
  destruct (PyStr.eqb modality (str "US")).
  { destruct (SynthFacts.us_before_clip_defined rng normal rayleigh randint
                organ width height g) as [(_ & _ & s & ->) | [H0 _]];
      try lia.
    cbn [bind]. destruct (Synth.clipped _ _) as [img g']. eauto. }
  destruct (Synth.clipped _ _) as [img g']. eauto.
Qed.

Lemma planned_raster_is_always_synthesized_witness :
  exists img g', Synth.sample_raster 1024 507 (str "US") = Ok (img, g').
Proof.
  apply (planned_raster_is_always_synthesized Datatypes.unit
           (Synth.constant_normal (of_Z 1000))
           (fun _ => Synth.constant_draws (of_Z 1000))
           (Synth.constant_draws (of_Z 0)) Synth.constant_randint
           Synth.corner Synth.corner Synth.corner Synth.corner
           (fun _ => Synth.corner)
           Synth.corner Synth.corner Synth.corner (fun _ _ => Synth.corner)
           1048576 1024 507 (str "US") tt).
  vm_compute. reflexivity.
Defined.

(** X19. When [create_dicom_file] returns, it has synthesized one raster
    and then written one data set, in this order and nothing else.  The
    data set's Columns and Rows are the width and the height of the plan
    for the target (so both lie between 256 and 8192), it is 16 bits deep,
    carries the modality and the patient name that were passed in, repeats
    the storage class and the instance identifier of its file meta
    information, and the value returned is the size of that file. *)
Theorem written_file_matches_plan env out target md patient w sz w' :
  Dicom.create_dicom_file env out target md patient w = (Ok sz, w') ->
  exists ds,
    Dicom.trace w'
    = Dicom.trace w
      ++ [Dicom.EvSynthesize (Dicom.Columns ds) (Dicom.Rows ds) md;
          Dicom.EvSave out ds]
    /\ Dicom.saved w' = Dicom.saved w ++ [ds]
    /\ calculate_dimensions target 16
       = Ok (Dicom.Columns ds, Dicom.Rows ds)
    /\ 256 <= Dicom.Rows ds <= 8192
    /\ 256 <= Dicom.Columns ds <= 8192
    /\ Dicom.BitsAllocated ds = 16
    /\ Dicom.Modality ds = md
    /\ Dicom.PatientName ds = patient
    /\ Dicom.SOPClassUID ds
       = Dicom.MediaStorageSOPClassUID (Dicom.file_meta ds)
    /\ Dicom.SOPInstanceUID ds
       = Dicom.MediaStorageSOPInstanceUID (Dicom.file_meta ds)
    /\ sz = Dicom.encoded_size env ds.
Proof.
  intros H.
  destruct (MainFacts.create_dicom_file_cases env out target md patient w)
    as [(e & _ & E) | [(width & height & _ & _ & E)
                      | (width & height & ds & Hd & _ & E & Hr & Hc & Hm & Hp
                         & Hb & Hs & Hi & _)]];
    rewrite E in H; try discriminate.
  inversion H; subst sz w'. clear H E.
  destruct (MainFacts.planned_range _ _ _ Hd) as [Hw Hh].
  exists ds. rewrite Hr, Hc.
  split; [reflexivity|].
  split.
  { unfold Dicom.saved. cbn [Dicom.trace]. rewrite flat_map_app.
    reflexivity. }
  split; [exact Hd|].
  repeat (split; [assumption|]). reflexivity.
Qed.

Lemma written_file_matches_plan_witness :
  exists ds,
    Dicom.trace
      (snd (Dicom.invoke Dicom.sample_env Dicom.sample_call
              Dicom.initial_world))
    = Dicom.trace Dicom.initial_world
      ++ [Dicom.EvSynthesize (Dicom.Columns ds) (Dicom.Rows ds)
            (PStr (str "CT"));
          Dicom.EvSave (str "a.dcm") ds]
    /\ Dicom.saved
         (snd (Dicom.invoke Dicom.sample_env Dicom.sample_call
                 Dicom.initial_world))
       = Dicom.saved Dicom.initial_world ++ [ds]
    /\ calculate_dimensions 1048576 16
       = Ok (Dicom.Columns ds, Dicom.Rows ds)
    /\ 256 <= Dicom.Rows ds <= 8192
    /\ 256 <= Dicom.Columns ds <= 8192
    /\ Dicom.BitsAllocated ds = 16
    /\ Dicom.Modality ds = PStr (str "CT")
    /\ Dicom.PatientName ds = PStr (str "Test^Patient")
    /\ Dicom.SOPClassUID ds
       = Dicom.MediaStorageSOPClassUID (Dicom.file_meta ds)
    /\ Dicom.SOPInstanceUID ds
       = Dicom.MediaStorageSOPInstanceUID (Dicom.file_meta ds)
    /\ 1048576 = Dicom.encoded_size Dicom.sample_env ds.
Proof.
  apply (written_file_matches_plan Dicom.sample_env (str "a.dcm") 1048576
           (PStr (str "CT")) (PStr (str "Test^Patient"))
           Dicom.initial_world 1048576
           (snd (Dicom.invoke Dicom.sample_env Dicom.sample_call
                   Dicom.initial_world))).
  vm_compute. reflexivity.
Defined.

(** X20. When [create_dicom_file] raises, no data set has been written.
    Either nothing at all has happened, or the plan was made, the raster
    synthesized and the four identifiers drawn, and it is the write to the
    output path that failed. *)
Theorem failed_call_writes_nothing env out target md patient w e w' :
  Dicom.create_dicom_file env out target md patient w = (Raise e, w') ->
  Dicom.saved w' = Dicom.saved w
  /\ (w' = w
      \/ (e = OSError
          /\ Dicom.can_write env out = false
          /\ exists width height,
               calculate_dimensions target 16 = Ok (width, height)
               /\ Dicom.uid_draws w' = (4 + Dicom.uid_draws w)%nat
               /\ Dicom.trace w'
                  = Dicom.trace w
                    ++ [Dicom.EvSynthesize width height md])).
Proof.
  intros H.
  destruct (MainFacts.create_dicom_file_cases env out target md patient w)
    as [(e0 & _ & E) | [(width & height & Hd & Hc & E)
                       | (width & height & ds & _ & _ & E & _)]];
    rewrite E in H; try discriminate; inversion H; subst.
  - split; [reflexivity | now left].
  - split.
    + unfold Dicom.saved. cbn [Dicom.trace]. rewrite flat_map_app.
      cbn [flat_map app]. now rewrite app_nil_r.
    + right. split; [reflexivity|]. split; [exact Hc|].
      exists width, height. repeat split; [exact Hd].
Qed.

Lemma failed_call_writes_nothing_witness :
  Dicom.saved Dicom.initial_world = Dicom.saved Dicom.initial_world
  /\ (Dicom.initial_world = Dicom.initial_world
      \/ (ValueError = OSError
          /\ Dicom.can_write Dicom.sample_env (str "a.dcm") = false
          /\ exists width height,
               calculate_dimensions 5000 16 = Ok (width, height)
               /\ Dicom.uid_draws Dicom.initial_world
                  = (4 + Dicom.uid_draws Dicom.initial_world)%nat
               /\ Dicom.trace Dicom.initial_world
                  = Dicom.trace Dicom.initial_world
                    ++ [Dicom.EvSynthesize width height (PStr (str "CT"))])).
Proof.
  apply (failed_call_writes_nothing Dicom.sample_env (str "a.dcm") 5000
           (PStr (str "CT")) (PStr (str "Test^Patient"))
           Dicom.initial_world ValueError Dicom.initial_world).
  vm_compute. reflexivity.
Defined.

(** X21. Exit status 0 has two causes only.  Either help was asked for,
    and nothing was done; or the arguments were accepted with strings for
    the size and the output path, the size was parsed, and exactly three
    things happened in this order: the parent directory of the output path
    was created, a raster of the planned dimensions was synthesized for
    the modality of the arguments (one of CT, MR, US, or the empty list
    that [--modality=--] leaves), and one data set was saved to the output
    path. *)
Theorem exit_status_zero_means_help_or_file env argv w w' :
  Cli.main env argv w = (0, w') ->
  (Cli.parse_args argv = Raise (SystemExit 0) /\ w' = w)
  \/ exists args size_str output_path target ds,
       Cli.parse_args argv = Ok args
       /\ Cli.size args = PStr size_str
       /\ Cli.output args = PStr output_path
       /\ parse_size size_str = Ok target
       /\ calculate_dimensions target 16
          = Ok (Dicom.Columns ds, Dicom.Rows ds)
       /\ accepted_modality (Cli.modality args)
       /\ Dicom.Modality ds = Cli.modality args
       /\ Dicom.PatientName ds = Cli.patient_name args
       /\ Dicom.trace w'
          = Dicom.trace w
            ++ [Dicom.EvMakedirs (Dicom.parent_dir env output_path);
                Dicom.EvSynthesize (Dicom.Columns ds) (Dicom.Rows ds)
                  (Cli.modality args);
                Dicom.EvSave output_path ds].
Proof.
  intros H.
  destruct (MainFacts.main_cases env argv w)
    as [(code & Hc & Hp & E) | (args & Hp & Hm & E)]; rewrite E in H.
  { inversion H; subst. now left. }
  right.
  destruct (MainFacts.main_body_cases env args w)
    as [[e B] | (s & target & x & o & Hsz & Hs & _ & Ho & _ & B)];
    rewrite B in H; try discriminate.
  destruct (MainFacts.create_dicom_file_cases env o target
              (Cli.modality args) (Cli.patient_name args)
              (after w [Dicom.EvMakedirs (Dicom.parent_dir env o)]))
    as [(e0 & _ & C) | [(width & height & _ & _ & C)
                       | (width & height & ds & Hd & _ & C & Hr & Hc & Hmd
                          & Hpn & _)]];
    rewrite C in H; try discriminate.
  inversion H; subst w'.
  exists args, s, o, target, ds. rewrite Hr, Hc.
  repeat (split; [assumption|]).
  cbn [Dicom.trace after]. now rewrite <- app_assoc.
Qed.

Lemma exit_status_zero_means_help_or_file_witness :
  let argv := map str ["--size"; "1MB"; "--output"; "a.dcm"]%string in
  let w' := snd (Cli.main Dicom.sample_env argv Dicom.initial_world) in
  (Cli.parse_args argv = Raise (SystemExit 0) /\ w' = Dicom.initial_world)
  \/ exists args size_str output_path target ds,
       Cli.parse_args argv = Ok args
       /\ Cli.size args = PStr size_str
       /\ Cli.output args = PStr output_path
       /\ parse_size size_str = Ok target
       /\ calculate_dimensions target 16
          = Ok (Dicom.Columns ds, Dicom.Rows ds)
       /\ accepted_modality (Cli.modality args)
       /\ Dicom.Modality ds = Cli.modality args
       /\ Dicom.PatientName ds = Cli.patient_name args
       /\ Dicom.trace w'
          = Dicom.trace Dicom.initial_world
            ++ [Dicom.EvMakedirs
                  (Dicom.parent_dir Dicom.sample_env output_path);
                Dicom.EvSynthesize (Dicom.Columns ds) (Dicom.Rows ds)
                  (Cli.modality args);
                Dicom.EvSave output_path ds].
Proof.
  intros argv w'.
  apply (exit_status_zero_means_help_or_file Dicom.sample_env argv
           Dicom.initial_world w').
  vm_compute. reflexivity.
Defined.



(** X23. A target below the header allowance of 10 KiB is found out late.
    When the arguments hold strings for the size and the output path, the
    size parses to a target from 0 to 10239 bytes and the parent directory
    of the output path can be created, then it is created, and only then
    the planner fails: the process ends with status 1, the directory made
    and nothing else done. *)
Theorem small_target_fails_after_mkdir
  env argv args size_str output_path target w :
  Cli.parse_args argv = Ok args ->
  Cli.size args = PStr size_str ->
  Cli.output args = PStr output_path ->
  parse_size size_str = Ok target ->
  0 <= target < 10240 ->
  Dicom.can_mkdir env (Dicom.parent_dir env output_path) = true ->
  Cli.main env argv w
  = (1, after w [Dicom.EvMakedirs (Dicom.parent_dir env output_path)]).
Proof.
  intros Hp Hsz Hout Hs Ht Hm.
  destruct (MainFacts.no_plan_below_allowance target) as [e Hd]; [lia|].
  destruct (MainFacts.true_div_small target) as [a Hx]; [lia|].
  unfold Cli.main. rewrite Hp.
  unfold Cli.main_body, Dicom.bindM, Dicom.lift, Cli.makedirs.
  rewrite Hsz, Hout. cbn [Cli.parse_size_of Cli.path_of].
  rewrite Hs, Hx, Hm. cbn [Dicom.log].
  fold (after w [Dicom.EvMakedirs (Dicom.parent_dir env output_path)]).
  destruct (MainFacts.create_dicom_file_cases env output_path target
              (Cli.modality args) (Cli.patient_name args)
              (after w [Dicom.EvMakedirs
                          (Dicom.parent_dir env output_path)]))
    as [(e0 & _ & C) | [(width & height & C & _)
                       | (width & height & ds & C & _)]];
    try congruence.
  rewrite C. reflexivity.
Qed.

Lemma small_target_fails_after_mkdir_witness :
  Cli.main Dicom.sample_env
    (map str ["--size"; "5KB"; "--output"; "a.dcm"]%string)
    Dicom.initial_world
  = (1, after Dicom.initial_world [Dicom.EvMakedirs (str "a.dcm")]).
Proof.
  apply (small_target_fails_after_mkdir Dicom.sample_env
           (map str ["--size"; "5KB"; "--output"; "a.dcm"]%string)
           {| Cli.size := PStr (str "5KB"); Cli.output := PStr (str "a.dcm");
              Cli.modality := PStr (str "CT");
              Cli.patient_name := PStr (str "Test^Patient") |}
           (str "5KB") (str "a.dcm") 5120 Dicom.initial_world).
  - vm_compute. reflexivity.
  - reflexivity.
  - reflexivity.
  - vm_compute. reflexivity.
  - lia.
  - reflexivity.
Defined.

(** X24. What the argument parser accepts: [--size s --output o], for
    values that do not start with a dash, gives the namespace with modality
    CT and patient name Test^Patient; with [--modality m --patient-name p]
    added, for one of the three choices [m], it gives [m] and [p]. *)
Theorem command_line_defaults s o :
  plain s -> plain o ->
  Cli.parse_args [str "--size"; s; str "--output"; o]
  = Ok {| Cli.size := PStr s; Cli.output := PStr o;
          Cli.modality := PStr (str "CT");
          Cli.patient_name := PStr (str "Test^Patient") |}
  /\ forall m p,
       In m Cli.choices -> plain p ->
       Cli.parse_args [str "--size"; s; str "--output"; o;
                       str "--modality"; m; str "--patient-name"; p]
       = Ok {| Cli.size := PStr s; Cli.output := PStr o;
               Cli.modality := PStr m; Cli.patient_name := PStr p |}.
Proof.
  intros Hs Ho. split.
  - unfold Cli.parse_args.
    rewrite (MainFacts.classify_option (str "--size") s _
               [(str "--output", Cli.Flag (str "--output") Cli.Output None);
                (o, Cli.Positional)] Cli.Size);
      try reflexivity; try assumption.
    + cbn [bind Cli.consume Cli.store].
      rewrite !MainFacts.plain_get_values
        by (assumption || (intros E; discriminate E)).
      reflexivity.
    + apply (MainFacts.classify_option (str "--output") o [] [] Cli.Output);
        try reflexivity; assumption.
  - intros m p Hm Hp.
    assert (Hpm : plain m).
    { destruct Hm as [<- | [<- | [<- | []]]]; reflexivity. }
    unfold Cli.parse_args.
    rewrite (MainFacts.classify_option (str "--size") s _
               [(str "--output", Cli.Flag (str "--output") Cli.Output None);
                (o, Cli.Positional);
                (str "--modality",
                 Cli.Flag (str "--modality") Cli.ModalityOpt None);
                (m, Cli.Positional);
                (str "--patient-name",
                 Cli.Flag (str "--patient-name") Cli.PatientNameOpt None);
                (p, Cli.Positional)] Cli.Size);
      try reflexivity; try assumption.
    + cbn [bind Cli.consume Cli.store].
      rewrite !MainFacts.plain_get_values
        by (assumption || (intros E; (discriminate E || exact Hm))).
      reflexivity.
    + rewrite (MainFacts.classify_option (str "--output") o _
                 [(str "--modality",
                   Cli.Flag (str "--modality") Cli.ModalityOpt None);
                  (m, Cli.Positional);
                  (str "--patient-name",
                   Cli.Flag (str "--patient-name") Cli.PatientNameOpt None);
                  (p, Cli.Positional)] Cli.Output);
        try reflexivity; try assumption.
      rewrite (MainFacts.classify_option (str "--modality") m _
                 [(str "--patient-name",
                   Cli.Flag (str "--patient-name") Cli.PatientNameOpt None);
                  (p, Cli.Positional)] Cli.ModalityOpt);
        try reflexivity; try assumption.
      apply (MainFacts.classify_option (str "--patient-name") p [] []
               Cli.PatientNameOpt);
        try reflexivity; assumption.
Qed.

Lemma command_line_defaults_witness :
  Cli.parse_args [str "--size"; str "1MB"; str "--output"; str "a.dcm"]
  = Ok {| Cli.size := PStr (str "1MB"); Cli.output := PStr (str "a.dcm");
          Cli.modality := PStr (str "CT");
          Cli.patient_name := PStr (str "Test^Patient") |}
  /\ forall m p,
       In m Cli.choices -> plain p ->
       Cli.parse_args [str "--size"; str "1MB"; str "--output"; str "a.dcm";
                       str "--modality"; m; str "--patient-name"; p]
       = Ok {| Cli.size := PStr (str "1MB"); Cli.output := PStr (str "a.dcm");
               Cli.modality := PStr m; Cli.patient_name := PStr p |}.
Proof.
  exact (command_line_defaults (str "1MB") (str "a.dcm") eq_refl eq_refl).
Defined.

(** X25. A command line without any option (no token starts with a dash,
    the empty command line included) is rejected by the argument parser
    with status 2, since [--size] and [--output] are required; [main]
    leaves everything untouched. *)
Theorem command_line_without_options_rejected env argv w :
  Forall plain argv ->
  Cli.parse_args argv = Raise (SystemExit 2)
  /\ Cli.main env argv w = (2, w).
Proof.
  intros H.
  assert (E : Cli.parse_args argv = Raise (SystemExit 2)).
  { unfold Cli.parse_args. rewrite (MainFacts.classify_plain argv H).
    cbn [bind].
    destruct (MainFacts.consume_values argv Cli.defaults) as (st & -> & Hs).
    cbn [bind]. rewrite Hs. reflexivity. }
  split; [exact E|]. unfold Cli.main. now rewrite E.
Qed.

Lemma command_line_without_options_rejected_witness :
  Cli.parse_args [str "a.dcm"; str "1MB"] = Raise (SystemExit 2)
  /\ Cli.main Dicom.sample_env [str "a.dcm"; str "1MB"] Dicom.initial_world
     = (2, Dicom.initial_world).
Proof.
  apply (command_line_without_options_rejected Dicom.sample_env
           [str "a.dcm"; str "1MB"] Dicom.initial_world).
  repeat constructor.
Defined.

(** X26. An option may carry its value after an equals sign, and then the
    value is taken as it is, whatever it starts with, with one exception:
    the value [--] is dropped and the option holds the empty list.
    [--size=s --output=o] gives the namespace with the two defaults, with
    size [s] and output [o], or the empty list where the value is [--]. *)
Theorem glued_option_values_accepted s o :
  Cli.parse_args [str "--size=" ++ s; str "--output=" ++ o]
  = Ok {| Cli.size := glued s; Cli.output := glued o;
          Cli.modality := PStr (str "CT");
          Cli.patient_name := PStr (str "Test^Patient") |}.
Proof.
  unfold Cli.parse_args.
  change (Cli.classify [str "--size=" ++ s; str "--output=" ++ o])
    with (Ok [(str "--size=" ++ s, Cli.Flag (str "--size") Cli.Size (Some s));
              (str "--output=" ++ o,
               Cli.Flag (str "--output") Cli.Output (Some o))]).
  cbn [bind Cli.consume Cli.store]. unfold Cli.get_values, glued.
  destruct (PyStr.eqb s (str "--")), (PyStr.eqb o (str "--")); reflexivity.
Qed.
